(** * manipmongo: the MongoDB-backed manipulator

    A shallow embedding of [manipmongo/manipulator.go]: the page-window
    arithmetic of [RetrieveMany], the transaction registry and the write path
    ([Create], [Update], [Delete], [Commit], [Abort]), and the read path
    ([Retrieve], [RetrieveMany], [Count]).

    Go's [int] is modelled as [Z] with explicit 64-bit wrap-around, objects
    passed by reference live in a heap indexed by locations, and every
    interaction with the mgo driver or with a caller-supplied callback is
    recorded in an event log.  The driver decodes what it reads into the
    objects it is given, by reference and before it reports an error; the
    documents it decodes are part of its answer.  Tracing spans are a no-op
    sink and are left out: they never influence a result. *)

From stdpp Require Import gmap strings list pretty.
From Stdlib Require Import ZArith Lia.

Local Open Scope Z_scope.

(** ** Go's [int]: two's complement, 64 bits wide on the usual platforms *)

Module GoInt.

Definition min_int : Z := - 2 ^ 63.
Definition max_int : Z := 2 ^ 63 - 1.

Definition wrap (z : Z) : Z := (z + 2 ^ 63) mod 2 ^ 64 - 2 ^ 63.

Definition in_range (z : Z) : Prop := min_int <= z <= max_int.

Definition neg (a : Z) : Z := wrap (- a).
Definition add (a b : Z) : Z := wrap (a + b).
Definition sub (a b : Z) : Z := wrap (a - b).
Definition mul (a b : Z) : Z := wrap (a * b).
(** [/] truncates toward zero and [%] takes the sign of the dividend. *)
Definition quot (a b : Z) : Z := wrap (Z.quot a b).
Definition rem (a b : Z) : Z := Z.rem a b.

End GoInt.

(** ** Data model *)

(** Objects are handed to the manipulator by reference. *)
Definition loc := nat.

(** A session handle obtained from [rootSession.Copy()]. *)
Definition Session := nat.

(** [elemental.Identity]: the kind descriptor of an object. *)
Record Identity := mkIdentity { Name : string; Category : string }.

#[global] Instance Identity_eq_dec : EqDecision Identity.
Proof. solve_decision. Defined.

(** Field values as the storage layer holds them. *)
Inductive Value := VInt (z : Z) | VString (s : string) | VBool (b : bool).

#[global] Instance Value_eq_dec : EqDecision Value.
Proof. solve_decision. Defined.

(** The storage layer's native zero value of each type. *)
Definition isZero (v : Value) : bool :=
  match v with
  | VInt z => bool_decide (z = 0)
  | VString s => bool_decide (s = "")
  | VBool b => negb b
  end.

(** An application object: its identifier, its identity, its fields, and,
    when it implements [elemental.AttributeSpecifiable], the defaults its
    schema declares ([None]: the capability is absent). *)
Record Object := mkObject {
  identifier : string;
  identity : Identity;
  fields : gmap string Value;
  specification : option (gmap string Value);
}.

Definition SetIdentifier (id : string) (o : Object) : Object :=
  {| identifier := id; identity := identity o;
     fields := fields o; specification := specification o |}.

(** [elemental.ResetDefaultForZeroValues], guarded by the type assertion
    [o.(elemental.AttributeSpecifiable)] made at each call site: every field
    holding the zero value takes the default its specification declares,
    when it declares one; an object without the capability is left alone. *)
Definition resetField (defaults : gmap string Value) (k : string) (v : Value) : option Value :=
  if isZero v then
    match defaults !! k with
    | Some d => Some d
    | None => Some v
    end
  else Some v.

Definition ResetDefaultForZeroValues (o : Object) : Object :=
  match specification o with
  | Some defaults =>
      {| identifier := identifier o; identity := identity o;
         fields := map_imap (resetField defaults) (fields o);
         specification := specification o |}
  | None => o
  end.

(** A document as the driver decodes it: the value it gives to each field
    it names, once converted to the type of that field; the identifier is
    the field "_id". *)
Definition Document := gmap string Value.

(** Go's zero value of the type of [v]. *)
Definition zeroValue (v : Value) : Value :=
  match v with
  | VInt _ => VInt 0
  | VString _ => VString ""
  | VBool _ => VBool false
  end.

Definition sameType (a b : Value) : bool :=
  match a, b with
  | VInt _, VInt _ | VString _, VString _ | VBool _, VBool _ => true
  | _, _ => false
  end.

(** [bson.Unmarshal] into a pointer to a struct: the struct is set to its
    zero value, then each field the document names takes the document's
    value; a field the document omits, or gives a value its type cannot
    take, stays zero, and what the document names beyond the fields of the
    struct is dropped.  The Go type of the object, hence its identity and
    its specification, does not change. *)
Definition decodeField (doc : Document) (k : string) (v : Value) : option Value :=
  match doc !! k with
  | Some d => if sameType d v then Some d else Some (zeroValue v)
  | None => Some (zeroValue v)
  end.

Definition decodeIdentifier (doc : Document) : string :=
  match doc !! "_id" with
  | Some (VString s) => s
  | _ => ""
  end.

Definition decodeInto (o : Object) (doc : Document) : Object :=
  {| identifier := decodeIdentifier doc; identity := identity o;
     fields := map_imap (decodeField doc) (fields o);
     specification := specification o |}.

(** Errors of the mgo driver, as far as the manipulator tells them apart:
    [err == mgo.ErrNotFound] and [mgo.IsDup(err)]. *)
Inductive mgoError :=
| mgoErrNotFound
| mgoDuplicateKey (msg : string)
| mgoFailure (msg : string).

Definition IsDup (e : mgoError) : bool :=
  match e with mgoDuplicateKey _ => true | _ => false end.

Definition mgoErrorText (e : mgoError) : string :=
  match e with
  | mgoErrNotFound => "not found"
  | mgoDuplicateKey msg => msg
  | mgoFailure msg => msg
  end.

(** Modelled from the spec: the error kinds of package [manipulate] (section
    7), whose constructors [NewErr...] are called by the manipulator.
    [ErrCustom] stands for any other Go [error], such as the one a create
    finalizer returns. *)
Inductive Error :=
| ErrObjectNotFound (msg : string)
| ErrCannotExecuteQuery (msg : string)
| ErrCannotCommit (msg : string)
| ErrConstraintViolation (msg : string)
| ErrTransactionNotFound (msg : string)
| ErrCannotBuildQuery (msg : string)
| ErrCustom (msg : string).

(** The backend-agnostic filter of a context; its shape plays no part here. *)
Definition Filter := string.

(** A compiled query, [bson.M]. *)
Inductive bsonValue := BString (s : string) | BCompiled (f : Filter).

#[global] Instance bsonValue_eq_dec : EqDecision bsonValue.
Proof. solve_decision. Defined.

(** Modelled from the spec: [manipulate.Context], the per-call bundle of
    filter, page, page size, optional transaction id and optional create
    finalizer.  The finalizer receives the object by reference, so it may
    change it as well as fail. *)
Record Context := mkContext {
  ctxFilter : option Filter;
  Page : Z;
  PageSize : Z;
  TransactionID : string;
  CreateFinalizer : option (Object -> Object * option Error);
}.

(** Modelled from the spec: [manipulate.NewContext], the default empty
    context (Page=0, PageSize=0, no filter). *)
Definition NewContext : Context :=
  {| ctxFilter := None; Page := 0; PageSize := 0;
     TransactionID := ""; CreateFinalizer := None |}.

(** Staged operations of an [mgo.Bulk].  [Insert] and [Update] keep the
    document by reference; selectors are built when the operation is staged. *)
Inductive BulkOp :=
| OpInsert (doc : loc)
| OpUpdate (id : string) (doc : loc)
| OpRemove (id : string)
| OpRemoveAll (filter : gmap string bsonValue).

Record Bulk := mkBulk { bulkCollection : Identity; bulkOps : list BulkOp }.

(** What a bulk run sends: documents are serialised when the batch runs. *)
Inductive WireOp :=
| WInsert (doc : option Object)
| WUpdate (id : string) (doc : option Object)
| WRemove (id : string)
| WRemoveAll (filter : gmap string bsonValue).

(** Modelled from the spec: the [transaction] of package manipmongo, which
    owns one backend session and a mapping from category to Bulk Batch, kept
    here in batch-creation order. *)
Record transaction := mkTransaction {
  id : string;
  bulks : list (Identity * Bulk);
  session : Session;
}.

(** Everything observable outside the manipulator. *)
Inductive Event :=
| SessionCopy (s : Session)
| SessionClose (s : Session)
| QueryCount (c : Identity) (q : gmap string bsonValue) (r : mgoError + Z)
| QueryAll (c : Identity) (q : gmap string bsonValue) (window : option (Z * Z))
    (r : list Document * option (mgoError * option Document))
| QueryOne (c : Identity) (q : gmap string bsonValue) (r : option Document * option mgoError)
| BulkRun (c : Identity) (ops : list WireOp) (r : option mgoError)
| Finalize (arg : Object) (r : option Error).

(** The mgo driver and the database behind it: each answer may depend on
    everything that happened before.

    [mgoAll] answers a [query.All]: the documents the iteration delivered,
    in order, and, when it ended with a failure, the error together with the
    document it was decoding when it met the failure, if it was decoding
    one.  [mgoOne] answers a [query.One]: the document that was decoded into
    the object, if one was, and the error, if any; the driver reports
    [mgo.ErrNotFound] before it decodes anything, and a failure met while or
    after decoding once the object has been written. *)
Record Backend := mkBackend {
  mgoCount : list Event -> Identity -> gmap string bsonValue -> mgoError + Z;
  mgoAll : list Event -> Identity -> gmap string bsonValue -> option (Z * Z) ->
           list Document * option (mgoError * option Document);
  mgoOne : list Event -> Identity -> gmap string bsonValue -> Object ->
           option Document * option mgoError;
  mgoRun : list Event -> Identity -> list WireOp -> option mgoError;
}.

(** The manipulator together with the world it acts on. *)
Record State := mkState {
  heap : gmap loc Object;
  transactions : gmap string transaction;
  events : list Event;
  oids : nat;
  tids : nat;
  sids : nat;
}.

Definition set_heap (h : gmap loc Object) (st : State) : State :=
  {| heap := h; transactions := transactions st; events := events st;
     oids := oids st; tids := tids st; sids := sids st |}.

Definition set_transactions (r : gmap string transaction) (st : State) : State :=
  {| heap := heap st; transactions := r; events := events st;
     oids := oids st; tids := tids st; sids := sids st |}.

Definition log (e : Event) (st : State) : State :=
  {| heap := heap st; transactions := transactions st; events := events st ++ [e];
     oids := oids st; tids := tids st; sids := sids st |}.

(** ** A state monad with panics *)

Inductive Outcome (A : Type) := Done (a : A) | Panic.
Arguments Done {A} a.
Arguments Panic {A}.

Definition M (A : Type) : Type := State -> Outcome A * State.

Definition ret {A} (a : A) : M A := fun st => (Done a, st).

Definition bind {A B} (m : M A) (f : A -> M B) : M B :=
  fun st =>
    match m st with
    | (Done a, st') => f a st'
    | (Panic, st') => (Panic, st')
    end.

Definition panic {A} : M A := fun st => (Panic, st).

(** Go's [defer]: the cleanup runs when the body returns and when it panics. *)
Definition defer {A} (cleanup : State -> State) (body : M A) : M A :=
  fun st => let '(r, st') := body st in (r, cleanup st').

Notation "'let*' x ':=' m 'in' k" := (bind m (fun x => k))
  (at level 10, x pattern, m at level 100, k at level 200).
Notation "'run' m 'in' k" := (bind m (fun _ => k))
  (at level 10, m at level 100, k at level 200).

(** Dereferencing an object; a location that holds nothing is a nil
    interface, on which any method call panics. *)
Definition deref (l : loc) : M Object :=
  fun st => match heap st !! l with
            | Some o => (Done o, st)
            | None => (Panic, st)
            end.

Definition store (l : loc) (o : Object) : M unit :=
  fun st => (Done tt, set_heap (<[l := o]> (heap st)) st).

(** [bson.NewObjectId().Hex()]: a generator of pairwise distinct strings,
    driven by a counter. *)
Definition NewObjectId : M string :=
  fun st => (Done (pretty (oids st)),
             {| heap := heap st; transactions := transactions st; events := events st;
                oids := S (oids st); tids := tids st; sids := sids st |}).

(** Modelled from the spec: [manipulate.NewTransactionID], which generates
    the identifier of an implicit transaction. *)
Definition NewTransactionID : M string :=
  fun st => (Done (pretty (tids st)),
             {| heap := heap st; transactions := transactions st; events := events st;
                oids := oids st; tids := S (tids st); sids := sids st |}).

(** [rootSession.Copy()] and [session.Close()]. *)
Definition sessionCopy : M Session :=
  fun st => (Done (sids st),
             {| heap := heap st; transactions := transactions st;
                events := events st ++ [SessionCopy (sids st)];
                oids := oids st; tids := tids st; sids := S (sids st) |}).

Definition sessionClose (s : Session) (st : State) : State := log (SessionClose s) st.

(** ** The transaction registry *)

(** Modelled from the spec: [registerTransaction] inserts unconditionally,
    the last write wins (section 4.1). *)
Definition registerTransaction (tid : string) (t : transaction) : M unit :=
  fun st => (Done tt, set_transactions (<[tid := t]> (transactions st)) st).

(** Modelled from the spec: [transactionWithID] returns the transaction
    registered under the id, or not-found. *)
Definition transactionWithID (tid : string) : M (option transaction) :=
  fun st => (Done (transactions st !! tid), st).

(** Modelled from the spec: [unregisterTransaction] removes the entry. *)
Definition unregisterTransaction (tid : string) (st : State) : State :=
  set_transactions (delete tid (transactions st)) st.

(** Modelled from the spec: [newTransaction] gives the transaction a backend
    session of its own and no batch yet. *)
Definition newTransaction (tid : string) : M transaction :=
  let* s := sessionCopy in
  ret {| id := tid; bulks := []; session := s |}.

(** Modelled from the spec: [closeSession] releases the session the
    transaction owns. *)
Definition closeSession (t : transaction) (st : State) : State :=
  sessionClose (session t) st.

(** Looking up the batch of a category, and appending an operation to it
    ([bulk.Insert], [bulk.Update], [bulk.Remove], [bulk.RemoveAll]). *)
Fixpoint bulkLookup (k : Identity) (bs : list (Identity * Bulk)) : option Bulk :=
  match bs with
  | [] => None
  | (k', b) :: rest => if decide (k' = k) then Some b else bulkLookup k rest
  end.

Fixpoint bulkStage (k : Identity) (op : BulkOp) (bs : list (Identity * Bulk))
  : list (Identity * Bulk) :=
  match bs with
  | [] => []
  | (k', b) :: rest =>
      if decide (k' = k)
      then (k', {| bulkCollection := bulkCollection b; bulkOps := bulkOps b ++ [op] |}) :: rest
      else (k', b) :: bulkStage k op rest
  end.

(** Modelled from the spec: [collectionFromIdentity], the identity selects
    the backing collection. *)
Definition collectionFromIdentity (i : Identity) : Identity := i.

(** Modelled from the spec: [bulkForIdentity], the Bulk Batch of a category
    is created lazily, behind the batches that exist already. *)
Definition bulkForIdentity (k : Identity) (t : transaction) : transaction :=
  match bulkLookup k (bulks t) with
  | Some _ => t
  | None =>
      {| id := id t;
         bulks := bulks t ++ [(k, {| bulkCollection := collectionFromIdentity k; bulkOps := [] |})];
         session := session t |}
  end.

Definition stageOp (k : Identity) (op : BulkOp) (t : transaction) : transaction :=
  {| id := id t; bulks := bulkStage k op (bulks t); session := session t |}.

(** A transaction is reached through the registry entry that points to it;
    [withTransaction tid f] is a mutation of that transaction object. *)
Definition withTransaction (tid : string) (f : transaction -> transaction) : M unit :=
  fun st => (Done tt, set_transactions (alter f tid (transactions st)) st).

(** [dest elemental.ContentIdentifiable]: a pointer to a slice of pointers
    to objects of one type.  The slice is handed to [RetrieveMany] and
    handed back; the objects it points to live in the heap.  [List] holds
    the elements of the slice, [Spare] what its backing array holds beyond
    them, up to its capacity ([None] is a nil pointer), and [Element] is an
    object of the element type, of which only the type matters. *)
Record ContentIdentifiable := mkContent {
  ContentIdentity : Identity;
  Element : Object;
  List : list (option loc);
  Spare : list (option loc);
}.

(** The target of one decoding step of [Iter.All]: the pointer the next
    slot of the backing array holds, or a new object when the slot holds nil
    or the array is used up. *)
Definition slotTarget (slots : list (option loc)) (h : gmap loc Object) : loc :=
  match slots with
  | Some l :: _ => l
  | _ => fresh (dom h)
  end.

(** The loop of [Iter.All]: the documents are decoded one by one into the
    slots of the backing array, from its start, reusing the objects the
    slots point to.  The result is the pointers that were filled, the slots
    left over, and the heap. *)
Fixpoint decodeAll (zero : Object) (slots : list (option loc)) (docs : list Document)
    (h : gmap loc Object) : list loc * list (option loc) * gmap loc Object :=
  match docs with
  | [] => ([], slots, h)
  | doc :: docs' =>
      let l := slotTarget slots h in
      let '(ls, rest, h') :=
        decodeAll zero (tail slots) docs' (<[l := decodeInto (default zero (h !! l)) doc]> h) in
      (l :: ls, rest, h')
  end.

(** A document that was being decoded when the iteration failed has been
    written into the next slot, which stays beyond the length of the slice;
    without a slot left it went into a value that is dropped. *)
Definition decodeBroken (zero : Object) (rest : list (option loc)) (broken : option Document)
    (h : gmap loc Object) : list (option loc) * gmap loc Object :=
  match broken, rest with
  | Some doc, _ :: rest' =>
      let l := slotTarget rest h in
      (Some l :: rest', <[l := decodeInto (default zero (h !! l)) doc]> h)
  | _, _ => (rest, h)
  end.

(** [Iter.All(dest)] on the answer [r] of the driver: the slice is set to
    the elements that were filled, whether the iteration failed or not. *)
Definition IterAll (dest : ContentIdentifiable)
    (r : list Document * option (mgoError * option Document)) (h : gmap loc Object)
  : ContentIdentifiable * gmap loc Object :=
  let '(ls, rest, h) := decodeAll (Element dest) (List dest ++ Spare dest) r.1 h in
  let '(rest, h) := decodeBroken (Element dest) rest (r.2 ≫= snd) h in
  ({| ContentIdentity := ContentIdentity dest; Element := Element dest;
      List := Some <$> ls; Spare := rest |}, h).

(** ** Reverse paging, lines 125-146 of [RetrieveMany]

    [None] is the early [return nil] for a page known not to exist,
    [Some (skip, limit)] the window handed to [query.Skip(skip).Limit(limit)].
    Dividing by zero panics. *)
Definition reversePage (n P S : Z) : Outcome (option (Z * Z)) :=
  let page := GoInt.neg P in
  let skip := GoInt.sub n (GoInt.mul page S) in
  let limit := S in
  if skip <? 0 then
    if S =? 0 then Panic else
    let maxPage := GoInt.quot n S in
    let balance := GoInt.rem n S in
    let maxPage := if negb (balance =? 0) then GoInt.add maxPage 1 else maxPage in
    if page >? maxPage then Done None
    else Done (Some (0, balance))
  else Done (Some (skip, limit)).

Definition lift {A} (o : Outcome A) : M A := fun st => (o, st).

(** What the paging branch hands on: an early return, or the destination
    as the query that was run left it, with the error of that query. *)
Inductive Fetch :=
| Return (e : option Error)
| Fetched (dest : ContentIdentifiable) (err : option mgoError).

Section Manipulator.

Variable mgo : Backend.

(** [compiler.CompileFilter], taken as given; [DeleteMany] hands it the
    context's filter without looking whether there is one. *)
Variable CompileFilter : option Filter -> gmap string bsonValue.

(** [filter := bson.M{}], replaced by the compiled filter when there is one. *)
Definition compiled (context : Context) : gmap string bsonValue :=
  match ctxFilter context with
  | Some f => CompileFilter (Some f)
  | None => ∅
  end.

Definition queryCount (c : Identity) (q : gmap string bsonValue) : M (mgoError + Z) :=
  fun st => let r := mgoCount mgo (events st) c q in (Done r, log (QueryCount c q r) st).

(** [query.All(dest)], or [query.Skip(skip).Limit(limit).All(dest)] with
    a window. *)
Definition queryAll (c : Identity) (q : gmap string bsonValue) (window : option (Z * Z))
    (dest : ContentIdentifiable) : M Fetch :=
  fun st =>
    let r := mgoAll mgo (events st) c q window in
    let '(dest', h) := IterAll dest r (heap st) in
    (Done (Fetched dest' (fst <$> r.2)), set_heap h (log (QueryAll c q window r) st)).

(** [query.One(o)] on the object at [l]. *)
Definition queryOne (c : Identity) (q : gmap string bsonValue) (l : loc)
  : M (option mgoError) :=
  fun st =>
    match heap st !! l with
    | None => (Panic, st)
    | Some o =>
        let r := mgoOne mgo (events st) c q o in
        let h := match r.1 with
                 | Some doc => <[l := decodeInto o doc]> (heap st)
                 | None => heap st
                 end in
        (Done r.2, set_heap h (log (QueryOne c q r) st))
    end.

(** The backport loop over [dest.List()]; calling into a nil element
    panics. *)
Fixpoint backportAll (objects : list (option loc)) : M unit :=
  match objects with
  | [] => ret tt
  | None :: _ => panic
  | Some l :: rest =>
      let* o := deref l in
      run store l (ResetDefaultForZeroValues o) in
      backportAll rest
  end.

Definition serialise (h : gmap loc Object) (op : BulkOp) : WireOp :=
  match op with
  | OpInsert l => WInsert (h !! l)
  | OpUpdate i l => WUpdate i (h !! l)
  | OpRemove i => WRemove i
  | OpRemoveAll f => WRemoveAll f
  end.

(** [bulk.Run()] *)
Definition bulkRun (b : Bulk) : M (option mgoError) :=
  fun st =>
    let ops := serialise (heap st) <$> bulkOps b in
    let r := mgoRun mgo (events st) (bulkCollection b) ops in
    (Done r, log (BulkRun (bulkCollection b) ops r) st).

Definition callFinalizer (fin : Object -> Object * option Error) (l : loc) : M (option Error) :=
  let* o := deref l in
  let '(o', r) := fin o in
  run store l o' in
  fun st => (Done r, log (Finalize o r) st).

(** ** Count *)

Definition Count (ctx : option Context) (identity : Identity) : M (Z * option Error) :=
  let context := default NewContext ctx in
  let* session := sessionCopy in
  defer (sessionClose session)
    (let collection := collectionFromIdentity identity in
     let filter := compiled context in
     let* r := queryCount collection filter in
     match r with
     | inl err => ret (0, Some (ErrCannotExecuteQuery (mgoErrorText err)))
     | inr c => ret (c, None)
     end).

(** ** RetrieveMany *)

(** Lines 150-165: the error of the query, or the backport of what was
    fetched. *)
Definition handBack (dest : ContentIdentifiable) (fetch : Fetch)
  : M (ContentIdentifiable * option Error) :=
  match fetch with
  | Return e => ret (dest, e)
  | Fetched dest' (Some err) =>
      ret (dest', Some (ErrCannotExecuteQuery (mgoErrorText err)))
  | Fetched dest' None =>
      run backportAll (List dest') in
      ret (dest', None)
  end.

Definition RetrieveMany (ctx : option Context) (dest : ContentIdentifiable)
  : M (ContentIdentifiable * option Error) :=
  let context := default NewContext ctx in
  let* session := sessionCopy in
  defer (sessionClose session)
    (let collection := collectionFromIdentity (ContentIdentity dest) in
     let filter := compiled context in
     let* fetch :=
       (if (Page context =? 0) || (PageSize context =? 0) then
          queryAll collection filter None dest
        else if Page context >? 0 then
          let skip := GoInt.mul (GoInt.sub (Page context) 1) (PageSize context) in
          queryAll collection filter (Some (skip, PageSize context)) dest
        else
          let* (n, err) := Count (Some context) (ContentIdentity dest) in
          match err with
          | Some e => ret (Return (Some e))
          | None =>
              let* w := lift (reversePage n (Page context) (PageSize context)) in
              match w with
              | None => ret (Return None)
              | Some (skip, limit) =>
                  queryAll collection filter (Some (skip, limit)) dest
              end
          end) in
     handBack dest fetch).

(** ** Retrieve *)

Fixpoint retrieveObjects (collection : Identity) (filter : gmap string bsonValue)
    (objects : list loc) : M (option Error) :=
  match objects with
  | [] => ret None
  | l :: rest =>
      let* o := deref l in
      let filter := <["_id" := BString (identifier o)]> filter in
      let* failed := queryOne collection filter l in
      match failed with
      | Some mgoErrNotFound =>
          ret (Some (ErrObjectNotFound "cannot find the object for the given ID"))
      | Some err => ret (Some (ErrCannotExecuteQuery (mgoErrorText err)))
      | None =>
          let* o := deref l in
          run store l (ResetDefaultForZeroValues o) in
          retrieveObjects collection filter rest
      end
  end.

Definition Retrieve (ctx : option Context) (objects : list loc) : M (option Error) :=
  match objects with
  | [] => ret None
  | first :: _ =>
      let context := default NewContext ctx in
      let* session := sessionCopy in
      defer (sessionClose session)
        (let* o0 := deref first in
         let collection := collectionFromIdentity (identity o0) in
         let filter := compiled context in
         retrieveObjects collection filter objects)
  end.

(** ** Commit and Abort *)

Fixpoint runBulks (bs : list (Identity * Bulk)) : M (option Error) :=
  match bs with
  | [] => ret None
  | (_, bulk) :: rest =>
      let* r := bulkRun bulk in
      match r with
      | Some err =>
          if IsDup err then ret (Some (ErrConstraintViolation "duplicate key."))
          else ret (Some (ErrCannotCommit (mgoErrorText err)))
      | None => runBulks rest
      end
  end.

Definition Commit (tid : string) : M (option Error) :=
  let* found := transactionWithID tid in
  match found with
  | None => ret (Some (ErrTransactionNotFound "No batch found for the given transaction."))
  | Some transaction =>
      defer (fun st => unregisterTransaction tid (closeSession transaction st))
        (runBulks (bulks transaction))
  end.

Definition Abort (tid : string) : M bool :=
  let* found := transactionWithID tid in
  match found with
  | None => ret false
  | Some transaction =>
      fun st => (Done true, unregisterTransaction tid (closeSession transaction st))
  end.

(** ** The write path *)

(** The transaction is returned with the registry key that leads to it. *)
Definition retrieveTransaction (context : Context) : M (string * transaction * bool) :=
  let* (tid, created) :=
    (if decide (TransactionID context = "") then
       let* tid := NewTransactionID in ret (tid, true)
     else ret (TransactionID context, false)) in
  let* found := transactionWithID tid in
  match found with
  | Some t => ret (tid, t, created)
  | None =>
      let* t := newTransaction tid in
      run registerTransaction tid t in
      ret (tid, t, created)
  end.

(** The loop of [Create]; [Some err] is the early [return err]. *)
Fixpoint createObjects (finalizer : option (Object -> Object * option Error))
    (key : string) (k : Identity) (children : list loc) : M (option Error) :=
  match children with
  | [] => ret None
  | child :: rest =>
      let* oid := NewObjectId in
      let* o := deref child in
      run store child (SetIdentifier oid o) in
      let* failed :=
        match finalizer with
        | Some fin => callFinalizer fin child
        | None => ret None
        end in
      match failed with
      | Some err => ret (Some err)
      | None =>
          run withTransaction key (stageOp k (OpInsert child)) in
          createObjects finalizer key k rest
      end
  end.

Definition Create (ctx : option Context) (children : list loc) : M (option Error) :=
  let context := default NewContext ctx in
  let* (key, t, commit) := retrieveTransaction context in
  match children with
  | [] => panic
  | first :: _ =>
      let* o0 := deref first in
      run withTransaction key (bulkForIdentity (identity o0)) in
      let* early := createObjects (CreateFinalizer context) key (identity o0) children in
      match early with
      | Some err => ret (Some err)
      | None => if commit then Commit (id t) else ret None
      end
  end.

Fixpoint updateObjects (key : string) (k : Identity) (objects : list loc) : M unit :=
  match objects with
  | [] => ret tt
  | l :: rest =>
      let* o := deref l in
      run withTransaction key (stageOp k (OpUpdate (identifier o) l)) in
      updateObjects key k rest
  end.

Definition Update (ctx : option Context) (objects : list loc) : M (option Error) :=
  match objects with
  | [] => ret None
  | first :: _ =>
      let context := default NewContext ctx in
      let* (key, t, commit) := retrieveTransaction context in
      let* o0 := deref first in
      run withTransaction key (bulkForIdentity (identity o0)) in
      run updateObjects key (identity o0) objects in
      if commit then Commit (id t) else ret None
  end.

Fixpoint deleteObjects (key : string) (k : Identity) (objects : list loc) : M unit :=
  match objects with
  | [] => ret tt
  | l :: rest =>
      let* o := deref l in
      run withTransaction key (stageOp k (OpRemove (identifier o))) in
      run store l (ResetDefaultForZeroValues o) in
      deleteObjects key k rest
  end.

Definition Delete (ctx : option Context) (objects : list loc) : M (option Error) :=
  match objects with
  | [] => ret None
  | first :: _ =>
      let context := default NewContext ctx in
      let* (key, t, commit) := retrieveTransaction context in
      let* o0 := deref first in
      run withTransaction key (bulkForIdentity (identity o0)) in
      run deleteObjects key (identity o0) objects in
      if commit then Commit (id t) else ret None
  end.

Definition DeleteMany (ctx : option Context) (identity : Identity) : M (option Error) :=
  let context := default NewContext ctx in
  let* (key, t, commit) := retrieveTransaction context in
  run withTransaction key (bulkForIdentity identity) in
  run withTransaction key (stageOp identity (OpRemoveAll (CompileFilter (ctxFilter context)))) in
  if commit then Commit (id t) else ret None.

(** [Assign] is not implemented and [Increment] does nothing. *)
Definition Assign (ctx : option Context) (assignation : unit) : M (option Error) :=
  ret (Some (ErrCustom "Assign is not implemented in mongo")).

Definition Increment (ctx : option Context) (identity : Identity) (counter : string)
    (inc : Z) : M (option Error) :=
  ret None.

End Manipulator.

(** ** The Pagination Engine as the specification words it *)

(** ceil(N/S) for a positive S. *)
Definition ceilDiv (N S : Z) : Z := - ((- N) / S).

(** Section 4.4, case P < 0, over the mathematical integers: [None] is
    "no results" without querying. *)
Definition reverseWindow (N P S : Z) : option (Z * Z) :=
  let page := - P in
  let skip := N - page * S in
  if 0 <=? skip then Some (skip, S)
  else
    let maxPage := ceilDiv N S in
    if maxPage <? page then None
    else Some (0, N mod S).

(** The events a call added to the log. *)
Definition since (st st' : State) : list Event :=
  drop (length (events st)) (events st').

(** ** A small world to run the model in *)

Module Sample.

Definition things : Identity := {| Name := "thing"; Category := "things" |}.

Definition thing (id : string) (n : Z) : Object :=
  {| identifier := id; identity := things;
     fields := {[ "count" := VInt n ]};
     specification := Some {[ "count" := VInt 7 ]} |}.

(** A collection of [n] documents that answers every query and accepts
    every batch. *)
Definition steady (n : Z) : Backend :=
  {| mgoCount := fun _ _ _ => inr n;
     mgoAll := fun _ _ _ _ => ([], None);
     mgoOne := fun _ _ _ o => (Some (<["_id" := VString (identifier o)]> (fields o)), None);
     mgoRun := fun _ _ _ => None |}.

Definition noFilter (f : option Filter) : gmap string bsonValue := ∅.

Definition paging (P S : Z) : Context :=
  {| ctxFilter := None; Page := P; PageSize := S;
     TransactionID := ""; CreateFinalizer := None |}.

Definition start : State :=
  {| heap := {[ 0%nat := thing "a" 0; 1%nat := thing "b" 5 ]};
     transactions := ∅; events := []; oids := 0; tids := 0; sids := 0 |}.

Definition nothing : ContentIdentifiable :=
  {| ContentIdentity := things; Element := thing "" 0; List := []; Spare := [] |}.

(** A context under transaction "tx" whose create finalizer refuses the
    objects that already count something. *)
Definition choosy : Context :=
  {| ctxFilter := None; Page := 0; PageSize := 0; TransactionID := "tx";
     CreateFinalizer :=
       Some (λ o, (o, if decide (fields o !! "count" = Some (VInt 0)) then None
                      else Some (ErrCustom "refused"))) |}.

(** A context whose create finalizer renames every object. *)
Definition renaming : Context :=
  {| ctxFilter := None; Page := 0; PageSize := 0; TransactionID := "";
     CreateFinalizer := Some (λ o, (SetIdentifier "same" o, None)) |}.

(** A context whose create finalizer refuses every object. *)
Definition refusing : Context :=
  {| ctxFilter := None; Page := 0; PageSize := 0; TransactionID := "";
     CreateFinalizer := Some (λ o, (o, Some (ErrCustom "refused"))) |}.

Definition gadgets : Identity := {| Name := "gadget"; Category := "gadgets" |}.

(** A backend on which every batch for [gadgets] hits a duplicate key. *)
Definition picky : Backend :=
  {| mgoCount := fun _ _ _ => inr 0;
     mgoAll := fun _ _ _ _ => ([], None);
     mgoOne := fun _ _ _ _ => (None, Some mgoErrNotFound);
     mgoRun := fun _ c _ =>
       if decide (c = gadgets) then Some (mgoDuplicateKey "E11000 duplicate key") else None |}.

(** A transaction with two staged batches, registered as "t1". *)
Definition staged : transaction :=
  {| id := "t1";
     bulks := [(things, {| bulkCollection := things; bulkOps := [OpInsert 0%nat] |});
               (gadgets, {| bulkCollection := gadgets; bulkOps := [OpRemove "g"] |});
               (mkIdentity "late" "lates",
                {| bulkCollection := mkIdentity "late" "lates"; bulkOps := [OpRemove "z"] |})];
     session := 0%nat |}.

Definition pending : State :=
  {| heap := {[ 0%nat := thing "a" 0; 1%nat := thing "b" 5 ]};
     transactions := {[ "t1" := staged ]};
     events := [SessionCopy 0%nat]; oids := 0; tids := 0; sids := 1 |}.

End Sample.

(** What section 4.4 promises of a reverse page over a result set of [N]
    records: the count round-trip, then either no query at all and an
    untouched destination, or one query with the window of [reverseWindow]. *)
Definition reversePaging (mgo : Backend) (CF : option Filter -> gmap string bsonValue)
    (ctx : Context) (dest : ContentIdentifiable) (st : State) (N : Z) : Prop :=
  let c := ContentIdentity dest in
  let q := compiled CF ctx in
  let out := RetrieveMany mgo CF (Some ctx) dest st in
  let counted := [SessionCopy (sids st); SessionCopy (S (sids st));
                  QueryCount c q (inr N); SessionClose (S (sids st))] in
  match reverseWindow N (Page ctx) (PageSize ctx) with
  | None =>
      out.1 = Done (dest, None) ∧
      since st out.2 = counted ++ [SessionClose (sids st)]
  | Some w =>
      ∃ r, since st out.2 = counted ++ [QueryAll c q (Some w) r; SessionClose (sids st)]
  end.

(** The unpaginated path of [RetrieveMany]: one [query.All] without a
    window, and nothing else, between opening and closing the session. *)
Definition fetchesAll (mgo : Backend) (CF : option Filter -> gmap string bsonValue)
    (ctx : option Context) (dest : ContentIdentifiable) (st : State) : Prop :=
  let c := ContentIdentity dest in
  let q := compiled CF (default NewContext ctx) in
  ∃ r, since st (RetrieveMany mgo CF ctx dest st).2
       = [SessionCopy (sids st); QueryAll c q None r; SessionClose (sids st)].

Definition isFetchAll (e : Event) : bool :=
  match e with
  | QueryAll _ _ None _ => true
  | _ => false
  end.

(** The log entries of batches that ran and succeeded, in order. *)
Definition ranOk (h : gmap loc Object) (bs : list (Identity * Bulk)) : list Event :=
  (λ kb, BulkRun (bulkCollection kb.2) (serialise h <$> bulkOps kb.2) None) <$> bs.

(** Each batch of [bs], run in turn from [st], is accepted by the backend. *)
Definition allSucceed (mgo : Backend) (st : State) (bs : list (Identity * Bulk)) : Prop :=
  ∀ before kb after, bs = before ++ kb :: after →
    mgoRun mgo (events st ++ ranOk (heap st) before)
      (bulkCollection kb.2) (serialise (heap st) <$> bulkOps kb.2) = None.

Definition isBulkRun (e : Event) : bool :=
  match e with
  | BulkRun _ _ _ => true
  | _ => false
  end.

Definition notFound : Error :=
  ErrTransactionNotFound "No batch found for the given transaction.".

(** The answers of the single-object lookups recorded in a log. *)
Definition lookupResult (e : Event) : option (option Document * option mgoError) :=
  match e with
  | QueryOne _ _ r => Some r
  | _ => None
  end.

Definition lookups (tr : list Event) : list (option Document * option mgoError) :=
  omap lookupResult tr.

(** The invariant of section 3: no field with a declared non-zero default
    holds the storage layer's zero value. *)
Definition defaultsRestored (o : Object) : Prop :=
  ∀ defaults k d v,
    specification o = Some defaults → defaults !! k = Some d → isZero d = false →
    fields o !! k = Some v → isZero v = false.

(** How [Retrieve] is to report a failed lookup. *)
Definition reportsLookupFailure (err : mgoError) (e : Error) : Prop :=
  (err = mgoErrNotFound ∧ ∃ msg, e = ErrObjectNotFound msg) ∨
  (err ≠ mgoErrNotFound ∧ e = ErrCannotExecuteQuery (mgoErrorText err)).

(** The operations staged in the batch of category [k] of the transaction
    registered as [key]; none when there is no such transaction or batch. *)
Definition staged (key : string) (k : Identity) (st : State) : list BulkOp :=
  match transactions st !! key with
  | Some t =>
      match bulkLookup k (bulks t) with
      | Some b => bulkOps b
      | None => []
      end
  | None => []
  end.

(** The calls of the create finalizer recorded in a log: the object as it
    was handed over, and the answer. *)
Definition finalization (e : Event) : option (Object * option Error) :=
  match e with
  | Finalize arg r => Some (arg, r)
  | _ => None
  end.

Definition finalizations (tr : list Event) : list (Object * option Error) :=
  omap finalization tr.

(** The registry key a write works under: the caller's transaction id, or
    the one generated for an implicit transaction. *)
Definition keyOf (context : Context) (st : State) : string :=
  if decide (TransactionID context = "") then pretty (tids st) else TransactionID context.

Definition stageAll (k : Identity) (ops : list BulkOp) (t : transaction) : transaction :=
  foldl (λ t op, stageOp k op t) t ops.

Definition finalizeEvents (calls : list (Object * option Error)) : list Event :=
  (λ c, Finalize c.1 c.2) <$> calls.

(** A finalizer that leaves the identifier of the object alone. *)
Definition keepsIdentifier (fin : option (Object → Object * option Error)) : Prop :=
  ∀ f o, fin = Some f → identifier (f o).1 = identifier o.

(** The transaction a write works on, and the world once the write has
    resolved or created it and picked the batch of category [k]. *)
Definition enteredTx (context : Context) (st : State) : transaction :=
  match transactions st !! keyOf context st with
  | Some t => t
  | None => {| id := keyOf context st; bulks := []; session := sids st |}
  end.

Definition entered (context : Context) (k : Identity) (st : State) : State :=
  let known := bool_decide (is_Some (transactions st !! keyOf context st)) in
  {| heap := heap st;
     transactions :=
       <[keyOf context st := bulkForIdentity k (enteredTx context st)]> (transactions st);
     events := events st ++ (if known then [] else [SessionCopy (sids st)]);
     oids := oids st;
     tids := if bool_decide (TransactionID context = "") then S (tids st) else tids st;
     sids := if known then sids st else S (sids st) |}.

(** What scenario C promises of a create under an implicit transaction:
    the call is a [Commit] of the one transaction it registered, holding one
    batch with an insert per object; the registry ends up as it was; and the
    objects carry identifiers generated during the call, distinct from one
    object to the other. *)
Definition implicitCreate (mgo : Backend) (ctx : option Context) (children : list loc)
    (k : Identity) (st : State) : Prop :=
  let key := pretty (tids st) in
  let out := Create mgo ctx children st in
  (∃ mid,
     out = Commit mgo key mid ∧
     transactions mid
     = <[key := {| id := key;
                   bulks := [(k, {| bulkCollection := k; bulkOps := OpInsert <$> children |})];
                   session := sids st |}]> (transactions st)) ∧
  transactions out.2 = transactions st ∧
  (∀ l, l ∈ children →
        ∃ i o, children !! i = Some l ∧ heap out.2 !! l = Some o ∧
               identifier o = pretty (oids st + i)%nat) ∧
  (∀ l1 l2 o1 o2, l1 ∈ children → l2 ∈ children → l1 ≠ l2 →
                  heap out.2 !! l1 = Some o1 → heap out.2 !! l2 = Some o2 →
                  identifier o1 ≠ identifier o2).

(** One remove-by-identifier operation per object, with the identifier the
    object carries in heap [h]. *)
Definition removals (h : gmap loc Object) (objects : list loc) : list BulkOp :=
  omap (λ l, (λ o, OpRemove (identifier o)) <$> h !! l) objects.

(** Every location of a concrete list holds an object. *)
Ltac valid_locs :=
  let l := fresh "l" in
  let Hl := fresh "Hl" in
  intros l Hl;
  repeat (apply elem_of_cons in Hl as [->|Hl]; [eexists; reflexivity|]);
  inversion Hl.

(** The sessions a log leaves open: each copy opens one, each close
    releases it. *)
Fixpoint openAfter (opened : list Session) (tr : list Event) : list Session :=
  match tr with
  | [] => opened
  | SessionCopy s :: tr => openAfter (s :: opened) tr
  | SessionClose s :: tr => openAfter (filter (λ x, x ≠ s) opened) tr
  | _ :: tr => openAfter opened tr
  end.

(** The backport of every object a list points to. *)
Definition restoreAll (objects : list (option loc)) (h : gmap loc Object) : gmap loc Object :=
  foldl (λ h l, alter ResetDefaultForZeroValues l h) h (omap Datatypes.id objects).

(** What a [RetrieveMany] whose query was answered with [r] hands back, and
    the heap it leaves: the destination as [Iter.All] set it, backported
    when the query did not fail. *)
Definition fetched (dest : ContentIdentifiable)
    (r : list Document * option (mgoError * option Document)) (h : gmap loc Object)
  : (ContentIdentifiable * option Error) * gmap loc Object :=
  let dh := IterAll dest r h in
  match r.2 with
  | Some failure => ((dh.1, Some (ErrCannotExecuteQuery (mgoErrorText failure.1))), dh.2)
  | None => ((dh.1, None), restoreAll (List dh.1) dh.2)
  end.

(** The fetch queries recorded in a log: the window and the answer. *)
Definition fetch (e : Event)
  : option (option (Z * Z) * (list Document * option (mgoError * option Document))) :=
  match e with
  | QueryAll _ _ w r => Some (w, r)
  | _ => None
  end.

Definition fetches (tr : list Event)
  : list (option (Z * Z) * (list Document * option (mgoError * option Document))) :=
  omap fetch tr.

(** How [RetrieveMany] reports the failure of an iteration. *)
Definition reported (r : list Document * option (mgoError * option Document)) : option Error :=
  (λ failure, ErrCannotExecuteQuery (mgoErrorText failure.1)) <$> r.2.

(** The pointers a destination holds, nil ones left out. *)
Definition pointers (dest : ContentIdentifiable) : list loc :=
  omap Datatypes.id (List dest ++ Spare dest).

(** The object the [i]-th document of an iteration is decoded into: the one
    the [i]-th slot points to, or a new one. *)
Definition slotObject (zero : Object) (slots : list (option loc)) (h : gmap loc Object)
    (i : nat) : Object :=
  match slots !! i with
  | Some (Some l) => default zero (h !! l)
  | _ => zero
  end.

Definition target (dest : ContentIdentifiable) (h : gmap loc Object) (i : nat) : Object :=
  slotObject (Element dest) (List dest ++ Spare dest) h i.

(** Slots whose pointers are distinct and point to objects. *)
Definition sound (slots : list (option loc)) (h : gmap loc Object) : Prop :=
  NoDup (omap Datatypes.id slots) ∧ ∀ l, Some l ∈ slots → is_Some (h !! l).

(** [o'] is [o] after document [doc] was read into it and its defaults were
    restored: the type is the one of [o]; the identifier is the document's;
    a field holds the document's value when that is a non-zero value of its
    type, and otherwise its declared default if it has one and the zero
    value of its type if it has none. *)
Definition restoredFrom (doc : Document) (o o' : Object) : Prop :=
  identity o' = identity o ∧ specification o' = specification o ∧
  identifier o' = match doc !! "_id" with Some (VString s) => s | _ => "" end ∧
  (∀ k, fields o !! k = None → fields o' !! k = None) ∧
  (∀ k v, fields o !! k = Some v →
     match doc !! k with
     | Some d =>
         sameType d v = true → isZero d = false → fields o' !! k = Some d
     | None => True
     end ∧
     ((∀ d, doc !! k = Some d → sameType d v = false ∨ isZero d = true) →
      fields o' !! k
      = Some (default (zeroValue v) (specification o ≫= (.!! k))))).

(** The object a lookup with answer [a] leaves behind: what the driver
    decoded is in it, and it has been through the backport only if the
    driver reported no error. *)
Definition afterLookup (o : Object) (a : option Document * option mgoError) : Object :=
  let written := match a.1 with Some doc => decodeInto o doc | None => o end in
  match a.2 with
  | None => ResetDefaultForZeroValues written
  | Some _ => written
  end.

(** The heap after the lookups of [objects], one after the other, were
    answered with [answers]. *)
Definition lookedUp (h : gmap loc Object) (objects : list loc)
    (answers : list (option Document * option mgoError)) : gmap loc Object :=
  foldl (λ h la, alter (λ o, afterLookup o la.2) la.1 h) h (zip objects answers).

(** More of the small world: a transaction "t2" waiting beside "t1". *)
Module Demo.

Definition other : transaction :=
  {| id := "t2";
     bulks := [(Sample.gadgets,
                {| bulkCollection := Sample.gadgets; bulkOps := [OpRemove "h"] |})];
     session := 1%nat |}.

Definition crowded : State :=
  {| heap := {[ 0%nat := Sample.thing "a" 0; 1%nat := Sample.thing "b" 5 ]};
     transactions := {[ "t1" := Sample.staged; "t2" := other ]};
     events := [SessionCopy 0%nat; SessionCopy 1%nat]; oids := 0; tids := 0; sids := 2 |}.

(** A backend that finds the object "a", finds nothing for "b", and fails
    on any other lookup once it has decoded an empty document. *)
Definition halfway : Backend :=
  {| mgoCount := fun _ _ _ => inr 2;
     mgoAll := fun _ _ _ _ => ([], None);
     mgoOne := fun _ _ q _ =>
       if decide (q !! "_id" = Some (BString "a")) then
         (Some {[ "_id" := VString "a"; "count" := VInt 0; "colour" := VString "red" ]}, None)
       else if decide (q !! "_id" = Some (BString "b")) then (None, Some mgoErrNotFound)
       else (Some ∅, Some (mgoFailure "cursor lost"));
     mgoRun := fun _ _ _ => None |}.

(** A backend whose every iteration delivers two documents, the second of
    which gives "count" no value. *)
Definition stocked : Backend :=
  {| mgoCount := fun _ _ _ => inr 2;
     mgoAll := fun _ _ _ _ =>
       ([ {[ "_id" := VString "x"; "count" := VInt 3 ]}; {[ "_id" := VString "y" ]} ], None);
     mgoOne := fun _ _ _ _ => (None, Some mgoErrNotFound);
     mgoRun := fun _ _ _ => None |}.

(** A backend whose every iteration fails before it delivers anything. *)
Definition down : Backend :=
  {| mgoCount := fun _ _ _ => inr 2;
     mgoAll := fun _ _ _ _ => ([], Some (mgoFailure "connection reset", None));
     mgoOne := fun _ _ _ _ => (None, Some (mgoFailure "connection reset"));
     mgoRun := fun _ _ _ => None |}.

(** A destination that holds the object at location 0. *)
Definition shelf : ContentIdentifiable :=
  {| ContentIdentity := Sample.things; Element := Sample.thing "" 0;
     List := [Some 0%nat]; Spare := [] |}.

Definition lost : State :=
  {| heap := {[ 0%nat := Sample.thing "a" 0; 1%nat := Sample.thing "c" 5 ]};
     transactions := ∅; events := []; oids := 0; tids := 0; sids := 0 |}.

(** A context naming the transaction [tid], without filter or finalizer. *)
Definition under (tid : string) : Context :=
  {| ctxFilter := None; Page := 0; PageSize := 0; TransactionID := tid;
     CreateFinalizer := None |}.

(** An object of another identity. *)
Definition gadget (id : string) : Object :=
  {| identifier := id; identity := Sample.gadgets; fields := ∅; specification := None |}.

Definition mixed : State :=
  {| heap := {[ 0%nat := Sample.thing "a" 0; 1%nat := gadget "g" ]};
     transactions := ∅; events := []; oids := 0; tids := 0; sids := 0 |}.

End Demo.

(** One replace-by-identifier operation per object: the selector is the
    identifier the object carries in heap [h], the document is the object
    itself. *)
Definition updates (h : gmap loc Object) (objects : list loc) : list BulkOp :=
  omap (λ l, (λ o, OpUpdate (identifier o) l) <$> h !! l) objects.

(** Events that stay inside the process: opening a session and calling the
    finalizer.  Everything else is a query, a bulk run or a close. *)
Definition isLocal (e : Event) : bool :=
  match e with
  | SessionCopy _ | Finalize _ _ => true
  | _ => false
  end.

(** The categories that have a batch in the transaction registered as
    [key], in batch-creation order. *)
Definition batchKeys (key : string) (st : State) : list Identity :=
  match transactions st !! key with
  | Some t => (bulks t).*1
  | None => []
  end.

(** How [Commit] reports the outcome of a bulk run. *)
Definition commitResult (r : option mgoError) : option Error :=
  match r with
  | None => None
  | Some err =>
      Some (if IsDup err then ErrConstraintViolation "duplicate key."
            else ErrCannotCommit (mgoErrorText err))
  end.

(** The world in which a write commits or returns: the objects as [h], the
    operations [ops] staged behind the batch of [k], the rest as on entry. *)
Definition stagedWorld (context : Context) (k : Identity) (h : gmap loc Object)
    (ops : list BulkOp) (st : State) : State :=
  {| heap := h;
     transactions :=
       <[keyOf context st := stageAll k ops (bulkForIdentity k (enteredTx context st))]>
         (transactions st);
     events := events (entered context k st);
     oids := oids st;
     tids := tids (entered context k st);
     sids := sids (entered context k st) |}.

(** A write that stays inside the process: it returns, adds nothing to the
    log but session copies and finalizer calls, and leaves the transaction
    [tid] registered. *)
Definition staysLocal (out : Outcome (option Error) * State) (tid : string) (st : State)
  : Prop :=
  (∃ e, out.1 = Done e) ∧
  forallb isLocal (since st out.2) = true ∧
  is_Some (transactions out.2 !! tid).

(** A transaction opened and retired since [st]: the registry is as in
    [st], and the log grew by one session copy, one run of the batch of [k]
    carrying [n] operations, and the close of that session; the result is
    [Commit]'s report of that run. *)
Definition retiresAtOnce (out : Outcome (option Error) * State) (k : Identity) (n : nat)
    (st : State) : Prop :=
  transactions out.2 = transactions st ∧
  ∃ wire r,
    length wire = n ∧
    since st out.2 = [SessionCopy (sids st); BulkRun k wire r; SessionClose (sids st)] ∧
    out.1 = Done (commitResult r).

(** A single-object lookup in collection [c] whose query is [filter] with
    the identifier predicate added or overridden. *)
Definition looksUpIn (c : Identity) (filter : gmap string bsonValue) (e : Event) : Prop :=
  ∃ q res, e = QueryOne c q res ∧
           (∀ key, key ≠ "_id" → q !! key = filter !! key) ∧
           is_Some (q !! "_id").

(** * snip: redacting a token from an error *)

Module Snip.

(** A Go string is a sequence of bytes. *)
Definition GoString := list Ascii.ascii.

Definition snipped : GoString := String.list_ascii_of_string "[snip]".

(** [strings.HasPrefix(s, old)] *)
Fixpoint hasPrefix (old s : GoString) : bool :=
  match old, s with
  | [], _ => true
  | o :: old', c :: s' => if decide (o = c) then hasPrefix old' s' else false
  | _ :: _, [] => false
  end.

(** [strings.Replace(s, old, new, -1)] for a non-empty [old]: the matches
    are taken from the left and do not overlap.  [skip] counts the bytes of
    the current match that are still to be dropped. *)
Fixpoint replaceFrom (old new : GoString) (skip : nat) (s : GoString) : GoString :=
  match s with
  | [] => []
  | c :: s' =>
      match skip with
      | S k => replaceFrom old new k s'
      | O =>
          if hasPrefix old s
          then new ++ replaceFrom old new (length old - 1) s'
          else c :: replaceFrom old new 0 s'
      end
  end.

Definition Replace (s old new : GoString) : GoString := replaceFrom old new 0 s.

(** An [error] is nil or carries the text its [Error()] returns;
    [fmt.Errorf("%s", text)] is the error with that text. *)
Definition Snip (err : option GoString) (token : GoString) : option GoString :=
  match err with
  | Some text =>
      if bool_decide (length token = 0%nat) then err
      else Some (Replace text token snipped)
  | None => err
  end.

(** [token] occurs somewhere in [s]. *)
Definition occurs (token s : GoString) : Prop := ∃ a b, s = a ++ token ++ b.

End Snip.

(** * maniphttp: TLS configuration and accessors *)

Module ManipHTTP.

Record TLSConfiguration := mkTLSConfiguration {
  PkcsPath : string;
  Password : string;
  CAPath : string;
  SkipInsecure : bool;
}.

Definition NewTLSConfiguration (pkcs password ca : string) (skip : bool) : TLSConfiguration :=
  {| PkcsPath := pkcs; Password := password; CAPath := ca; SkipInsecure := skip |}.

Section Client.

(** Bytes of files, PEM blocks, key pairs, CA certificates, the index
    built by [BuildNameToCertificate], and the errors of the libraries. *)
Variables (Byte Block Certificate Authority Names Failure : Type).

(** [tls.Config], as far as this package sets or reads it: a nil
    [RootCAs] and a nil [NameToCertificate] are [None]. *)
Record tlsConfig := mkTlsConfig {
  Certificates : list Certificate;
  InsecureSkipVerify : bool;
  RootCAs : option (list Authority);
  NameToCertificate : option Names;
}.

(** [ioutil.ReadFile], [pkcs12.ToPEM], [pem.EncodeToMemory],
    [tls.X509KeyPair], the certificates [AppendCertsFromPEM] finds, and
    [BuildNameToCertificate]. *)
Variable ReadFile : string → Failure + list Byte.
Variable ToPEM : list Byte → string → Failure + list Block.
Variable EncodeToMemory : Block → list Byte.
Variable X509KeyPair : list Byte → list Byte → Failure + Certificate.
Variable certsFromPEM : list Byte → list Authority.
Variable buildNames : list Certificate → Names.

(** The client is the TLS configuration of its transport; the second
    component lists the files that were read, in order. *)
Definition makeHTTPClient (t : TLSConfiguration) : (Failure + tlsConfig) * list string :=
  if decide (PkcsPath t = "") then
    (inr {| Certificates := []; InsecureSkipVerify := SkipInsecure t;
            RootCAs := None; NameToCertificate := None |}, [])
  else
    match ReadFile (PkcsPath t) with
    | inl err => (inl err, [PkcsPath t])
    | inr data =>
        match ToPEM data (Password t) with
        | inl err => (inl err, [PkcsPath t])
        | inr blocks =>
            let pemData := foldl (λ acc b, acc ++ EncodeToMemory b) [] blocks in
            match X509KeyPair pemData pemData with
            | inl err => (inl err, [PkcsPath t])
            | inr cert =>
                match ReadFile (CAPath t) with
                | inl err => (inl err, [PkcsPath t; CAPath t])
                | inr caCert =>
                    let pool := certsFromPEM caCert in
                    (inr {| Certificates := [cert];
                            InsecureSkipVerify := SkipInsecure t;
                            RootCAs := Some pool;
                            NameToCertificate := Some (buildNames [cert]) |},
                     [PkcsPath t; CAPath t])
                end
            end
        end
    end.

(** [httpManipulator], by the fields the accessors touch, and a
    [manipulate.Manipulator] that is this one or another. *)
Record httpManipulator := mkHTTPManipulator {
  username : string;
  password : string;
  url : string;
  namespace : string;
  tlsConfigOf : tlsConfig;
  globalHeaders : list (string * list string);
}.

Inductive Manipulator :=
| HTTPManipulator (m : httpManipulator)
| OtherManipulator.

Definition ExtractCredentials (manipulator : Manipulator) : Outcome (string * string) :=
  match manipulator with
  | HTTPManipulator m => Done (username m, password m)
  | OtherManipulator => Panic
  end.

Definition ExtractEndpoint (manipulator : Manipulator) : Outcome string :=
  match manipulator with
  | HTTPManipulator m => Done (url m)
  | OtherManipulator => Panic
  end.

Definition ExtractNamespace (manipulator : Manipulator) : Outcome string :=
  match manipulator with
  | HTTPManipulator m => Done (namespace m)
  | OtherManipulator => Panic
  end.

Definition ExtractTLSConfig (manipulator : Manipulator) : Outcome tlsConfig :=
  match manipulator with
  | HTTPManipulator m =>
      Done {| Certificates := Certificates (tlsConfigOf m);
              InsecureSkipVerify := InsecureSkipVerify (tlsConfigOf m);
              RootCAs := RootCAs (tlsConfigOf m);
              NameToCertificate := None |}
  | OtherManipulator => Panic
  end.

(** The manipulator is changed in place: the result is its new state. *)
Definition SetGlobalHeaders (manipulator : Manipulator) (headers : list (string * list string))
  : Outcome Manipulator :=
  match manipulator with
  | HTTPManipulator m =>
      Done (HTTPManipulator
              {| username := username m; password := password m; url := url m;
                 namespace := namespace m; tlsConfigOf := tlsConfigOf m;
                 globalHeaders := headers |})
  | OtherManipulator => Panic
  end.

End Client.

End ManipHTTP.

(** * Properties *)

(** ** Go integers *)

Lemma wrap_id z : GoInt.in_range z -> GoInt.wrap z = z.
Proof.
  unfold GoInt.in_range, GoInt.wrap, GoInt.min_int, GoInt.max_int. intros H.
  rewrite Z.mod_small; lia.
Qed.

Lemma wrap_in_range z : GoInt.in_range (GoInt.wrap z).
Proof.
  unfold GoInt.in_range, GoInt.wrap, GoInt.min_int, GoInt.max_int.
  pose proof (Z.mod_pos_bound (z + 2 ^ 63) (2 ^ 64)). lia.
Qed.

(** [ceilDiv] is the least number of pages of size [S] that hold [N] records. *)
Lemma ceilDiv_spec N S :
  0 < S -> S * (ceilDiv N S - 1) < N <= S * ceilDiv N S.
Proof.
  intros HS. unfold ceilDiv.
  pose proof (Z.div_mod (- N) S ltac:(lia)) as E.
  pose proof (Z.mod_pos_bound (- N) S HS) as B.
  nia.
Qed.

Lemma ceilDiv_quot N S :
  0 <= N -> 0 < S ->
  ceilDiv N S = if negb (Z.rem N S =? 0) then Z.quot N S + 1 else Z.quot N S.
Proof.
  intros HN HS.
  rewrite Z.rem_mod_nonneg, Z.quot_div_nonneg by lia.
  pose proof (ceilDiv_spec N S HS) as C.
  pose proof (Z.div_mod N S ltac:(lia)) as E.
  pose proof (Z.mod_pos_bound N S HS) as B.
  destruct (Z.eqb_spec (N mod S) 0) as [Z0|NZ]; simpl; nia.
Qed.

(** ** Reverse paging *)

(** The window computed by the code is the window of section 4.4 as long as
    the product page*S fits Go's [int]. *)
Lemma reversePage_refines N P S :
  P < 0 -> 0 < S -> 0 <= N <= GoInt.max_int -> - P * S <= GoInt.max_int ->
  reversePage N P S = Done (reverseWindow N P S).
Proof.
  intros HP HS HN HPS.
  assert (HP' : - P <= GoInt.max_int) by nia.
  unfold reversePage, reverseWindow.
  unfold GoInt.neg, GoInt.sub, GoInt.mul, GoInt.add, GoInt.quot, GoInt.rem.
  rewrite (wrap_id (- P)) by (unfold GoInt.in_range, GoInt.min_int, GoInt.max_int in *; lia).
  rewrite (wrap_id (- P * S)) by (unfold GoInt.in_range, GoInt.min_int, GoInt.max_int in *; nia).
  rewrite (wrap_id (N - - P * S)) by (unfold GoInt.in_range, GoInt.min_int, GoInt.max_int in *; nia).
  destruct (Z.ltb_spec (N - - P * S) 0) as [Hneg|Hpos];
    destruct (Z.leb_spec 0 (N - - P * S)); try lia; [|reflexivity].
  destruct (Z.eqb_spec S 0); [lia|].
  pose proof (ceilDiv_quot N S ltac:(lia) HS) as C.
  assert (Hq : 0 <= Z.quot N S <= N).
  { rewrite Z.quot_div_nonneg by lia. split; [apply Z.div_pos; lia|].
    apply Z.div_le_upper_bound; nia. }
  rewrite (wrap_id (Z.quot N S)) by (unfold GoInt.in_range, GoInt.min_int, GoInt.max_int in *; lia).
  assert (Hc : (if negb (Z.rem N S =? 0) then GoInt.wrap (Z.quot N S + 1) else Z.quot N S)
               = ceilDiv N S).
  { rewrite C. destruct (negb (Z.rem N S =? 0)) eqn:Hb; [|reflexivity].
    apply wrap_id. unfold GoInt.in_range, GoInt.min_int, GoInt.max_int in *.
    apply negb_true_iff, Z.eqb_neq in Hb.
    rewrite Z.rem_mod_nonneg in Hb by lia.
    assert (Z.quot N S < N); [|lia].
    rewrite Z.quot_div_nonneg by lia.
    pose proof (Z.div_mod N S ltac:(lia)). pose proof (Z.mod_pos_bound N S HS). nia. }
  rewrite Hc. rewrite Z.rem_mod_nonneg by lia.
  destruct (Z.gtb_spec (- P) (ceilDiv N S)); destruct (Z.ltb_spec (ceilDiv N S) (- P));
    try lia; reflexivity.
Qed.

Lemma since_app st st' new : events st' = events st ++ new -> since st st' = new.
Proof. intros E. unfold since. rewrite E. apply drop_app_length. Qed.

(** ** What [Iter.All] and the backport loop do to the heap *)

Lemma decodeAll_allocated zero docs :
  ∀ slots h ls rest h',
  decodeAll zero slots docs h = (ls, rest, h') →
  (∀ l, l ∈ ls → is_Some (h' !! l)) ∧ (∀ l, is_Some (h !! l) → is_Some (h' !! l)).
Proof.
  induction docs as [|doc docs IH]; intros slots h ls rest h' E; simpl in E.
  - injection E as <- <- <-. split; [intros l Hl; inversion Hl|auto].
  - destruct (decodeAll zero (tail slots) docs _) as [[ls0 rest0] h0] eqn:E0.
    injection E as <- <- <-.
    destruct (IH _ _ _ _ _ E0) as [Hin Hkeep]. split.
    + intros l Hl. apply elem_of_cons in Hl as [->|Hl]; [|apply Hin, Hl].
      apply Hkeep. rewrite lookup_insert_eq. eauto.
    + intros l Hl. apply Hkeep, lookup_insert_is_Some'. right. exact Hl.
Qed.

Lemma decodeBroken_allocated zero rest broken h l :
  is_Some (h !! l) → is_Some ((decodeBroken zero rest broken h).2 !! l).
Proof.
  intros Hl. unfold decodeBroken. destruct broken as [doc|]; [|exact Hl].
  destruct rest as [|s rest']; [exact Hl|]. cbn [snd].
  apply lookup_insert_is_Some'. right. exact Hl.
Qed.

Lemma IterAll_allocated dest r h :
  ∃ ls, List (IterAll dest r h).1 = Some <$> ls ∧
        (∀ l, l ∈ ls → is_Some ((IterAll dest r h).2 !! l)) ∧
        (∀ l, is_Some (h !! l) → is_Some ((IterAll dest r h).2 !! l)).
Proof.
  unfold IterAll.
  destruct (decodeAll _ _ _ _) as [[ls rest] h1] eqn:E.
  destruct (decodeAll_allocated _ _ _ _ _ _ _ E) as [Hin Hkeep].
  pose proof (decodeBroken_allocated (Element dest) rest (r.2 ≫= snd) h1) as Hb.
  destruct (decodeBroken _ _ _ _) as [rest' h2]. cbn [fst snd List] in *.
  exists ls. split; [reflexivity|]. split; intros l Hl; apply Hb; auto.
Qed.

Lemma restoreAll_cons l ls h :
  restoreAll (Some l :: ls) h = restoreAll ls (alter ResetDefaultForZeroValues l h).
Proof. reflexivity. Qed.

Lemma backportAll_run (ls : list loc) :
  ∀ st, (∀ l, l ∈ ls → is_Some (heap st !! l)) →
  backportAll (Some <$> ls) st = (Done tt, set_heap (restoreAll (Some <$> ls) (heap st)) st).
Proof.
  induction ls as [|l ls IH]; intros st Hall.
  - destruct st; reflexivity.
  - destruct (Hall l ltac:(left)) as [o Ho].
    cbn [fmap list_fmap backportAll]. unfold bind at 1, deref. rewrite Ho.
    unfold bind at 1, store. rewrite IH.
    + rewrite restoreAll_cons. cbn [set_heap heap transactions events oids tids sids].
      rewrite (alter_alt_Some _ _ _ _ Ho). reflexivity.
    + intros l' Hl'. cbn [set_heap heap]. apply lookup_insert_is_Some'. right.
      apply Hall. right. exact Hl'.
Qed.

(** A query followed by lines 150-165: one event, the result and the heap
    of [fetched], and nothing else. *)
Lemma queryAll_handBack mgo c q w dest st :
  let r := mgoAll mgo (events st) c q w in
  bind (queryAll mgo c q w dest) (handBack dest) st
  = (Done (fetched dest r (heap st)).1,
     {| heap := (fetched dest r (heap st)).2; transactions := transactions st;
        events := events st ++ [QueryAll c q w r];
        oids := oids st; tids := tids st; sids := sids st |}).
Proof.
  intros r. unfold bind at 1, queryAll, fetched. fold r.
  destruct (IterAll_allocated dest r (heap st)) as (ls & HL & Hin & _).
  destruct (IterAll dest r (heap st)) as [dest' h] eqn:E. cbn [fst snd] in *.
  destruct (r.2) as [[err broken]|]; cbn [fmap option_fmap option_map fst handBack].
  - reflexivity.
  - unfold bind at 1. rewrite HL, backportAll_run by exact Hin. reflexivity.
Qed.

(** The three branches of the paging code. *)
Lemma RetrieveMany_unpaged mgo CF ctx dest st :
  let context := default NewContext ctx in
  (Page context =? 0) || (PageSize context =? 0) = true →
  RetrieveMany mgo CF ctx dest st
  = let '(r, st') :=
      bind (queryAll mgo (ContentIdentity dest) (compiled CF context) None dest) (handBack dest)
        {| heap := heap st; transactions := transactions st;
           events := events st ++ [SessionCopy (sids st)];
           oids := oids st; tids := tids st; sids := S (sids st) |} in
    (r, sessionClose (sids st) st').
Proof.
  intros context H. unfold RetrieveMany, defer. fold context. unfold bind at 1, sessionCopy.
  rewrite H. reflexivity.
Qed.

Lemma RetrieveMany_forward mgo CF ctx dest st :
  let context := default NewContext ctx in
  (Page context =? 0) || (PageSize context =? 0) = false →
  (Page context >? 0) = true →
  RetrieveMany mgo CF ctx dest st
  = let '(r, st') :=
      bind (queryAll mgo (ContentIdentity dest) (compiled CF context)
              (Some (GoInt.mul (GoInt.sub (Page context) 1) (PageSize context),
                     PageSize context)) dest) (handBack dest)
        {| heap := heap st; transactions := transactions st;
           events := events st ++ [SessionCopy (sids st)];
           oids := oids st; tids := tids st; sids := S (sids st) |} in
    (r, sessionClose (sids st) st').
Proof.
  intros context H1 H2. unfold RetrieveMany, defer. fold context.
  unfold bind at 1, sessionCopy. rewrite H1, H2. reflexivity.
Qed.

Lemma RetrieveMany_reverse mgo CF ctx dest st :
  let context := default NewContext ctx in
  let c := ContentIdentity dest in
  let q := compiled CF context in
  (Page context =? 0) || (PageSize context =? 0) = false →
  (Page context >? 0) = false →
  let answer := mgoCount mgo (events st ++ [SessionCopy (sids st); SessionCopy (S (sids st))]) c q in
  let counted :=
    {| heap := heap st; transactions := transactions st;
       events := events st ++ [SessionCopy (sids st); SessionCopy (S (sids st));
                               QueryCount c q answer; SessionClose (S (sids st))];
       oids := oids st; tids := tids st; sids := S (S (sids st)) |} in
  RetrieveMany mgo CF ctx dest st
  = let '(r, st') :=
      match answer with
      | inl err => (Done (dest, Some (ErrCannotExecuteQuery (mgoErrorText err))), counted)
      | inr n =>
          match reversePage n (Page context) (PageSize context) with
          | Panic => (Panic, counted)
          | Done None => (Done (dest, None), counted)
          | Done (Some w) => bind (queryAll mgo c q (Some w) dest) (handBack dest) counted
          end
      end in
    (r, sessionClose (sids st) st').
Proof.
  intros context c q H1 H2 answer counted.
  unfold RetrieveMany, defer. fold context. unfold bind at 1, sessionCopy.
  rewrite H1, H2. unfold bind at 1. unfold bind at 1.
  unfold Count, defer. cbn [default from_option]. unfold Datatypes.id.
  unfold bind at 1, sessionCopy. unfold bind at 1, queryCount.
  unfold collectionFromIdentity, sessionClose, log.
  cbn [events heap transactions oids tids sids].
  rewrite <- !app_assoc. cbn [app]. subst counted answer. fold c q.
  destruct (mgoCount mgo _ c q) as [err|n]; unfold ret.
  - cbn [handBack]. unfold ret. cbn [heap transactions events oids tids sids].
    rewrite <- ?app_assoc. reflexivity.
  - unfold bind at 1, lift. cbn [heap transactions events oids tids sids].
    rewrite <- ?app_assoc. cbn [app].
    destruct (reversePage n (Page context) (PageSize context)) as [[[skip limit]|]|];
      reflexivity.
Qed.

(** C1 (as amended).  A [RetrieveMany] call with page P < 0 and page size
    S > 0 over a result set of N records, where the product (-P)*S fits
    Go's [int], counts the records and then computes page = -P and
    skip = N - page*S; when skip >= 0 it queries with (skip, S); when
    skip < 0 and page > ceil(N/S) it returns nil without running the query
    and leaves the destination alone; otherwise it queries with
    (0, N mod S). *)
Theorem RetrieveMany_reverse_page mgo CF ctx dest st N :
  Page ctx < 0 -> 0 < PageSize ctx ->
  0 <= N <= GoInt.max_int ->
  - Page ctx * PageSize ctx <= GoInt.max_int ->
  (forall tr, mgoCount mgo (events st ++ tr) (ContentIdentity dest) (compiled CF ctx) = inr N) ->
  reversePaging mgo CF ctx dest st N.
Proof.
  intros HP HS HN HPS Hcount.
  pose proof (reversePage_refines N _ _ HP HS HN HPS) as Hw.
  unfold reversePaging.
  rewrite (RetrieveMany_reverse mgo CF (Some ctx) dest st); cbn [default from_option];
    unfold Datatypes.id.
  2:{ destruct (Z.eqb_spec (Page ctx) 0); [lia|].
      destruct (Z.eqb_spec (PageSize ctx) 0); [lia|]. reflexivity. }
  2:{ destruct (Z.gtb_spec (Page ctx) 0); [lia|reflexivity]. }
  rewrite Hcount, Hw.
  destruct (reverseWindow N (Page ctx) (PageSize ctx)) as [[skip limit]|].
  - rewrite queryAll_handBack. cbn [fst snd]. eexists. apply since_app.
    unfold sessionClose, log. cbn [events]. rewrite <- !app_assoc. reflexivity.
  - cbn [fst snd]. split; [reflexivity|]. apply since_app.
    unfold sessionClose, log. cbn [events]. rewrite <- !app_assoc. reflexivity.
Qed.

Lemma RetrieveMany_reverse_page_witness :
  reversePaging (Sample.steady 10) Sample.noFilter (Sample.paging (-4) 3)
    Sample.nothing Sample.start 10.
Proof.
  apply RetrieveMany_reverse_page; simpl; unfold GoInt.max_int; try lia.
  intros tr. reflexivity.
Defined.

Lemma RetrieveMany_reverse_page_overflow :
  Page (Sample.paging (- 2 ^ 62) 4) < 0 ∧ PageSize (Sample.paging (- 2 ^ 62) 4) > 0 ∧
  ¬ reversePaging (Sample.steady 0) Sample.noFilter (Sample.paging (- 2 ^ 62) 4)
      Sample.nothing Sample.start 0.
Proof.
  split; [reflexivity|]. split; [reflexivity|].
  unfold reversePaging.
  replace (reverseWindow 0 (Page (Sample.paging (- 2 ^ 62) 4))
             (PageSize (Sample.paging (- 2 ^ 62) 4))) with (@None (Z * Z))
    by (vm_compute; reflexivity).
  intros [_ H]. vm_compute in H. discriminate H.
Qed.

Example scenario_A_reverse : reversePage 10 (-4) 3 = Done (Some (0, 1)).
Proof. reflexivity. Qed.

Example scenario_A_last : reversePage 10 (-1) 3 = Done (Some (7, 3)).
Proof. reflexivity. Qed.

Example scenario_B : reversePage 9 (-3) 3 = Done (Some (0, 3)).
Proof. reflexivity. Qed.

Example beyond_first_page : reversePage 10 (-5) 3 = Done None.
Proof. reflexivity. Qed.

Example overflow_wraps : reversePage 0 (- 2 ^ 62) 4 = Done (Some (0, 4)).
Proof. reflexivity. Qed.

(** ** The fetch-all guard *)

Lemma reversePage_no_panic n P S : S <> 0 -> reversePage n P S <> Panic.
Proof.
  intros HS. unfold reversePage.
  destruct (_ <? 0); [|discriminate].
  destruct (Z.eqb_spec S 0); [contradiction|].
  destruct (_ >? _); discriminate.
Qed.

(** C4 (as amended).  [RetrieveMany] never panics, so the paging formula is
    never evaluated with a page size of zero; it takes the unpaginated path
    (one [query.All] without a window) exactly when Page = 0 or
    PageSize = 0, and in every other case, a negative page size included,
    it runs no unpaginated query. *)
Theorem RetrieveMany_fetch_all_guard mgo CF ctx dest st :
  let context := default NewContext ctx in
  let out := RetrieveMany mgo CF ctx dest st in
  out.1 <> Panic ∧
  if (Page context =? 0) || (PageSize context =? 0)
  then fetchesAll mgo CF ctx dest st
  else existsb isFetchAll (since st out.2) = false.
Proof.
  cbv zeta. unfold fetchesAll.
  destruct ((Page (default NewContext ctx) =? 0) || (PageSize (default NewContext ctx) =? 0)) eqn:G.
  - rewrite (RetrieveMany_unpaged mgo CF ctx dest st G), queryAll_handBack. cbn [fst snd].
    split; [discriminate|]. eexists. apply since_app.
    unfold sessionClose, log. cbn [events]. rewrite <- !app_assoc. reflexivity.
  - pose proof G as G'. apply orb_false_iff in G' as [_ HS]. apply Z.eqb_neq in HS.
    destruct (Page (default NewContext ctx) >? 0) eqn:G2.
    + rewrite (RetrieveMany_forward mgo CF ctx dest st G G2), queryAll_handBack. cbn [fst snd].
      split; [discriminate|].
      erewrite since_app;
        [|unfold sessionClose, log; cbn [events]; rewrite <- !app_assoc; reflexivity].
      reflexivity.
    + rewrite (RetrieveMany_reverse mgo CF ctx dest st G G2).
      destruct (mgoCount mgo _ _ _) as [e|n].
      * cbn [fst snd]. split; [discriminate|].
        erewrite since_app;
          [|unfold sessionClose, log; cbn [events]; rewrite <- !app_assoc; reflexivity].
        reflexivity.
      * pose proof (reversePage_no_panic n (Page (default NewContext ctx)) _ HS) as NP.
        destruct (reversePage n _ _) as [[[skip limit]|]|]; [| |contradiction].
        -- rewrite queryAll_handBack. cbn [fst snd]. split; [discriminate|].
           erewrite since_app;
             [|unfold sessionClose, log; cbn [events]; rewrite <- !app_assoc; reflexivity].
           reflexivity.
        -- cbn [fst snd]. split; [discriminate|].
           erewrite since_app;
             [|unfold sessionClose, log; cbn [events]; rewrite <- !app_assoc; reflexivity].
           reflexivity.
Qed.

Lemma RetrieveMany_negative_page_size :
  Page (Sample.paging (-1) (-3)) <= 0 ∧ PageSize (Sample.paging (-1) (-3)) <= 0 ∧
  ¬ fetchesAll (Sample.steady 10) Sample.noFilter (Some (Sample.paging (-1) (-3)))
      Sample.nothing Sample.start.
Proof.
  split; [vm_compute; discriminate|]. split; [vm_compute; discriminate|].
  intros [r H]. vm_compute in H. discriminate H.
Qed.

Example negative_page_size_window :
  since Sample.start
    (RetrieveMany (Sample.steady 10) Sample.noFilter (Some (Sample.paging (-1) (-3)))
       Sample.nothing Sample.start).2
  = [SessionCopy 0%nat; SessionCopy 1%nat; QueryCount Sample.things ∅ (inr 10);
     SessionClose 1%nat;
     QueryAll Sample.things ∅ (Some (13, -3)) ([], None); SessionClose 0%nat].
Proof. vm_compute. reflexivity. Qed.

(** ** Commit *)

(** Running batches only talks to the backend: the heap, the registry and
    the generators stay as they are, and the log grows by bulk runs. *)
Lemma runBulks_effects mgo bs st :
  ∃ r runs,
    runBulks mgo bs st
    = (Done r, {| heap := heap st; transactions := transactions st;
                  events := events st ++ runs;
                  oids := oids st; tids := tids st; sids := sids st |})
    ∧ forallb isBulkRun runs = true.
Proof.
  revert st. induction bs as [|[k b] bs IH]; intros st; simpl.
  - exists None, []. rewrite app_nil_r. destruct st; split; reflexivity.
  - unfold bind, bulkRun. simpl.
    destruct (mgoRun mgo (events st) (bulkCollection b) (serialise (heap st) <$> bulkOps b))
      as [err|] eqn:E.
    + destruct (IsDup err); eexists _, [_]; (split; [reflexivity|reflexivity]).
    + destruct (IH (log (BulkRun (bulkCollection b) (serialise (heap st) <$> bulkOps b) None) st))
        as (r & runs & -> & Hruns).
      exists r, (BulkRun (bulkCollection b) (serialise (heap st) <$> bulkOps b) None :: runs).
      split; [|exact Hruns]. simpl. rewrite <- app_assoc. reflexivity.
Qed.

Lemma Commit_unknown mgo tid st :
  transactions st !! tid = None → Commit mgo tid st = (Done (Some notFound), st).
Proof. intros H. unfold Commit, bind, transactionWithID. rewrite H. reflexivity. Qed.

Lemma Commit_registered mgo tid t st :
  transactions st !! tid = Some t →
  ∃ r runs,
    Commit mgo tid st
    = (Done r, {| heap := heap st; transactions := delete tid (transactions st);
                  events := events st ++ runs ++ [SessionClose (session t)];
                  oids := oids st; tids := tids st; sids := sids st |})
    ∧ runBulks mgo (bulks t) st
      = (Done r, {| heap := heap st; transactions := transactions st;
                    events := events st ++ runs;
                    oids := oids st; tids := tids st; sids := sids st |})
    ∧ forallb isBulkRun runs = true.
Proof.
  intros Ht. unfold Commit, bind, transactionWithID, defer. rewrite Ht.
  destruct (runBulks_effects mgo (bulks t) st) as (r & runs & -> & Hruns).
  exists r, runs. split; [|split; [reflexivity|exact Hruns]].
  unfold unregisterTransaction, closeSession, sessionClose, log, set_transactions. simpl.
  rewrite <- app_assoc. reflexivity.
Qed.

(** C2.  [Commit] of an id that is not registered returns TransactionNotFound
    and leaves the world exactly as it was.  [Commit] of a registered id
    returns, whatever the outcome of its batches, with the id deleted from the
    registry and with one [SessionClose] of the transaction's session behind
    the bulk runs; committing the same id again, or committing an id that was
    aborted, returns TransactionNotFound and does nothing. *)
Theorem Commit_retires mgo st tid :
  let out := Commit mgo tid st in
  match transactions st !! tid with
  | None => out = (Done (Some notFound), st)
  | Some t =>
      (∃ r, out.1 = Done r) ∧
      transactions out.2 = delete tid (transactions st) ∧
      (∃ runs, since st out.2 = runs ++ [SessionClose (session t)]
               ∧ forallb isBulkRun runs = true) ∧
      Commit mgo tid out.2 = (Done (Some notFound), out.2) ∧
      Commit mgo tid (Abort tid st).2 = (Done (Some notFound), (Abort tid st).2)
  end.
Proof.
  cbv zeta.
  destruct (transactions st !! tid) as [t|] eqn:Ht; [|apply Commit_unknown, Ht].
  destruct (Commit_registered mgo tid t st Ht) as (r & runs & -> & _ & Hruns). simpl.
  split; [eauto|]. split; [reflexivity|]. split; [|split].
  - exists runs. split; [|exact Hruns]. apply since_app. reflexivity.
  - apply Commit_unknown. simpl. apply lookup_delete_eq.
  - apply Commit_unknown. unfold Abort, bind, transactionWithID. rewrite Ht. simpl.
    apply lookup_delete_eq.
Qed.

Lemma ranOk_app h xs ys : ranOk h (xs ++ ys) = ranOk h xs ++ ranOk h ys.
Proof. unfold ranOk. apply fmap_app. Qed.

(** Batches accepted by the backend run one after the other, in the order
    of the list. *)
Lemma runBulks_prefix mgo pre rest st :
  allSucceed mgo st pre →
  runBulks mgo (pre ++ rest) st
  = runBulks mgo rest
      {| heap := heap st; transactions := transactions st;
         events := events st ++ ranOk (heap st) pre;
         oids := oids st; tids := tids st; sids := sids st |}.
Proof.
  revert st. induction pre as [|[k b] pre IH]; intros st Hok.
  - simpl. rewrite app_nil_r. destruct st; reflexivity.
  - simpl. unfold bind at 1, bulkRun.
    pose proof (Hok [] (k, b) pre eq_refl) as H0. simpl in H0.
    rewrite app_nil_r in H0. rewrite H0.
    rewrite IH.
    + simpl. rewrite <- app_assoc. reflexivity.
    + intros before kb after E. simpl.
      rewrite <- app_assoc. apply (Hok ((k, b) :: before) kb after).
      rewrite E. reflexivity.
Qed.

(** C3.  When the batches of a registered transaction are [pre], then [kb],
    then [post], the batches of [pre] are accepted in turn and [kb] is
    refused with [err], [Commit] returns ConstraintViolation if [err] is a
    duplicate-key error and CannotCommit otherwise; the log shows the
    batches of [pre] run once each, in order and successfully, then [kb]
    run once, then the session closed: nothing of [post] runs, nothing is
    retried and nothing is undone. *)
Theorem Commit_first_failure mgo st tid t pre kb post err :
  transactions st !! tid = Some t →
  bulks t = pre ++ kb :: post →
  allSucceed mgo st pre →
  mgoRun mgo (events st ++ ranOk (heap st) pre)
    (bulkCollection kb.2) (serialise (heap st) <$> bulkOps kb.2) = Some err →
  let out := Commit mgo tid st in
  out.1 = Done (Some (if IsDup err then ErrConstraintViolation "duplicate key."
                      else ErrCannotCommit (mgoErrorText err))) ∧
  since st out.2
  = ranOk (heap st) pre
    ++ [BulkRun (bulkCollection kb.2) (serialise (heap st) <$> bulkOps kb.2) (Some err);
        SessionClose (session t)].
Proof.
  intros Ht Hb Hok Hfail out. subst out.
  unfold Commit, bind, transactionWithID, defer. rewrite Ht, Hb.
  rewrite (runBulks_prefix mgo pre (kb :: post) st Hok).
  destruct kb as [k b]. simpl in *. unfold bind, bulkRun. simpl. rewrite Hfail.
  destruct (IsDup err); simpl; (split; [reflexivity|]); apply since_app; simpl;
    rewrite <- !app_assoc; reflexivity.
Qed.

Lemma Commit_first_failure_witness :
  let out := Commit Sample.picky "t1" Sample.pending in
  out.1 = Done (Some (ErrConstraintViolation "duplicate key.")) ∧
  since Sample.pending out.2
  = [BulkRun Sample.things [WInsert (Some (Sample.thing "a" 0))] None;
     BulkRun Sample.gadgets [WRemove "g"] (Some (mgoDuplicateKey "E11000 duplicate key"));
     SessionClose 0%nat].
Proof.
  apply (Commit_first_failure Sample.picky Sample.pending "t1" Sample.staged
           [(Sample.things, {| bulkCollection := Sample.things; bulkOps := [OpInsert 0%nat] |})]
           (Sample.gadgets, {| bulkCollection := Sample.gadgets; bulkOps := [OpRemove "g"] |})
           [(mkIdentity "late" "lates",
             {| bulkCollection := mkIdentity "late" "lates"; bulkOps := [OpRemove "z"] |})]
           (mgoDuplicateKey "E11000 duplicate key")).
  - reflexivity.
  - reflexivity.
  - intros before kb after E.
    destruct before as [|x before]; simpl in E.
    + injection E as <- _. reflexivity.
    + injection E as _ E. destruct before; discriminate E.
  - reflexivity.
Defined.

(** X7.  When every batch is accepted, all of them run, in order, and [Commit]
    succeeds. *)
Lemma Commit_success mgo st tid t :
  transactions st !! tid = Some t →
  allSucceed mgo st (bulks t) →
  let out := Commit mgo tid st in
  out.1 = Done None ∧
  since st out.2 = ranOk (heap st) (bulks t) ++ [SessionClose (session t)].
Proof.
  intros Ht Hok out. subst out.
  unfold Commit, bind, transactionWithID, defer. rewrite Ht.
  pose proof (runBulks_prefix mgo (bulks t) [] st Hok) as E.
  rewrite app_nil_r in E. rewrite E. simpl.
  split; [reflexivity|]. apply since_app. simpl. rewrite <- app_assoc. reflexivity.
Qed.

(** ** The default-value backport *)

Lemma Reset_restores o defaults k d v :
  specification o = Some defaults → defaults !! k = Some d →
  fields o !! k = Some v → isZero v = true →
  fields (ResetDefaultForZeroValues o) !! k = Some d.
Proof.
  intros Hs Hd Hv Hz. unfold ResetDefaultForZeroValues. rewrite Hs. simpl.
  rewrite map_lookup_imap, Hv. simpl. unfold resetField. rewrite Hz, Hd. reflexivity.
Qed.

Lemma Reset_keeps o k v :
  fields o !! k = Some v → isZero v = false →
  fields (ResetDefaultForZeroValues o) !! k = Some v.
Proof.
  intros Hv Hz. unfold ResetDefaultForZeroValues.
  destruct (specification o) as [defaults|]; [|exact Hv]. simpl.
  rewrite map_lookup_imap, Hv. simpl. unfold resetField. rewrite Hz. reflexivity.
Qed.

Lemma Reset_specification o :
  specification (ResetDefaultForZeroValues o) = specification o.
Proof.
  unfold ResetDefaultForZeroValues. destruct (specification o) eqn:E; simpl; congruence.
Qed.

Lemma Reset_identifier o :
  identifier (ResetDefaultForZeroValues o) = identifier o.
Proof. unfold ResetDefaultForZeroValues. destruct (specification o); reflexivity. Qed.

Lemma Reset_defaultsRestored o : defaultsRestored (ResetDefaultForZeroValues o).
Proof.
  intros defaults k d v Hs Hd Hnz Hv.
  rewrite Reset_specification in Hs.
  unfold ResetDefaultForZeroValues in Hv. rewrite Hs in Hv. simpl in Hv.
  rewrite map_lookup_imap in Hv.
  destruct (fields o !! k) as [v0|] eqn:E; [|discriminate]. simpl in Hv.
  unfold resetField in Hv. rewrite Hd in Hv.
  destruct (isZero v0) eqn:Hz; congruence.
Qed.

(** ** Decoding a document, then the backport *)

Lemma Reset_identity o : identity (ResetDefaultForZeroValues o) = identity o.
Proof. unfold ResetDefaultForZeroValues. destruct (specification o); reflexivity. Qed.

Lemma isZero_zeroValue v : isZero (zeroValue v) = true.
Proof. destruct v; reflexivity. Qed.

Lemma zero_is_zeroValue d v : sameType d v = true → isZero d = true → d = zeroValue v.
Proof.
  destruct d as [z|x|b], v; try discriminate; simpl; intros _ H.
  - apply bool_decide_eq_true in H. congruence.
  - apply bool_decide_eq_true in H. congruence.
  - destruct b; [discriminate|reflexivity].
Qed.

(** A field after the backport, whatever it held before. *)
Lemma Reset_field o k v :
  fields o !! k = Some v →
  fields (ResetDefaultForZeroValues o) !! k
  = Some (if isZero v then default v (specification o ≫= (.!! k)) else v).
Proof.
  intros Hv. unfold ResetDefaultForZeroValues.
  destruct (specification o) as [defaults|] eqn:Hs; cbn [mbind option_bind fields].
  - rewrite map_lookup_imap, Hv. cbn [mbind option_bind]. unfold resetField.
    destruct (isZero v); [|reflexivity]. destruct (defaults !! k); reflexivity.
  - rewrite Hv. destruct (isZero v); reflexivity.
Qed.

Lemma Reset_no_field o k :
  fields o !! k = None → fields (ResetDefaultForZeroValues o) !! k = None.
Proof.
  intros Hv. unfold ResetDefaultForZeroValues.
  destruct (specification o) as [defaults|]; [|exact Hv].
  cbn [fields]. rewrite map_lookup_imap, Hv. reflexivity.
Qed.

(** What a successful lookup leaves in the object, field by field. *)
Lemma decode_restoredFrom o doc :
  restoredFrom doc o (ResetDefaultForZeroValues (decodeInto o doc)).
Proof.
  unfold restoredFrom.
  rewrite Reset_identity, Reset_specification, Reset_identifier.
  split; [reflexivity|]. split; [reflexivity|]. split; [reflexivity|]. split.
  - intros k Hk. apply Reset_no_field. cbn [decodeInto fields].
    rewrite map_lookup_imap, Hk. reflexivity.
  - intros k v Hv.
    assert (Hd : fields (decodeInto o doc) !! k = decodeField doc k v).
    { cbn [decodeInto fields]. rewrite map_lookup_imap, Hv. reflexivity. }
    unfold decodeField in Hd. split.
    + destruct (doc !! k) as [d|]; [|exact I]. intros Hty Hnz. rewrite Hty in Hd.
      rewrite (Reset_field _ _ _ Hd), Hnz. reflexivity.
    + intros Hno.
      assert (Hz : fields (decodeInto o doc) !! k = Some (zeroValue v)).
      { destruct (doc !! k) as [d|]; [|exact Hd].
        destruct (sameType d v) eqn:Hty; [|exact Hd].
        destruct (Hno d eq_refl) as [?|Hzero]; [congruence|].
        rewrite Hd. f_equal. apply zero_is_zeroValue; assumption. }
      rewrite (Reset_field _ _ _ Hz), isZero_zeroValue. reflexivity.
Qed.

Lemma afterLookup_defaultsRestored o a : a.2 = None → defaultsRestored (afterLookup o a).
Proof. intros H. unfold afterLookup. rewrite H. apply Reset_defaultsRestored. Qed.

(** ** Retrieve *)

(** One turn of the loop of [Retrieve]. *)
Lemma retrieveObjects_step mgo c filter (l : loc) (rest : list loc) st o :
  heap st !! l = Some o →
  let q := <["_id" := BString (identifier o)]> filter in
  let a := mgoOne mgo (events st) c q o in
  let st1 := {| heap := alter (λ o, afterLookup o a) l (heap st);
                transactions := transactions st;
                events := events st ++ [QueryOne c q a];
                oids := oids st; tids := tids st; sids := sids st |} in
  retrieveObjects mgo c filter (l :: rest) st
  = match a.2 with
    | Some mgoErrNotFound =>
        (Done (Some (ErrObjectNotFound "cannot find the object for the given ID")), st1)
    | Some err => (Done (Some (ErrCannotExecuteQuery (mgoErrorText err))), st1)
    | None => retrieveObjects mgo c q rest st1
    end.
Proof.
  intros Ho q a st1. cbn [retrieveObjects]. unfold bind at 1, deref. rewrite Ho.
  unfold bind at 1, queryOne. rewrite Ho. fold q a. subst st1.
  rewrite (alter_alt_Some _ _ _ _ Ho). unfold afterLookup.
  destruct a as [[doc|] [err|]]; cbn [fst snd set_heap log heap transactions events oids tids sids].
  - destruct err; reflexivity.
  - unfold bind at 1. cbn [set_heap log heap transactions events oids tids sids].
    rewrite lookup_insert_eq.
    unfold bind at 1, store. cbn [set_heap heap transactions events oids tids sids].
    rewrite insert_insert_eq. reflexivity.
  - rewrite (insert_id _ _ _ Ho). destruct err; reflexivity.
  - unfold bind at 1. cbn [set_heap log heap transactions events oids tids sids].
    rewrite Ho. unfold bind at 1, store. reflexivity.
Qed.

Lemma lookedUp_cons h (l : loc) objects a answers :
  lookedUp h (l :: objects) (a :: answers)
  = lookedUp (alter (λ o, afterLookup o a) l h) objects answers.
Proof. reflexivity. Qed.

Lemma lookedUp_nil h (objects : list loc) : lookedUp h objects [] = h.
Proof. destruct objects; reflexivity. Qed.

Lemma lookedUp_is_Some objects :
  ∀ h answers l, is_Some (h !! l) → is_Some (lookedUp h objects answers !! l).
Proof.
  induction objects as [|l0 objects IH]; intros h answers l Hl; [exact Hl|].
  destruct answers as [|a answers]; [exact Hl|]. rewrite lookedUp_cons. apply IH.
  apply lookup_alter_is_Some. exact Hl.
Qed.

Lemma lookedUp_other objects :
  ∀ h answers l, l ∉ take (length answers) objects → lookedUp h objects answers !! l = h !! l.
Proof.
  induction objects as [|l0 objects IH]; intros h answers l Hl; [reflexivity|].
  destruct answers as [|a answers]; [reflexivity|]. rewrite lookedUp_cons.
  cbn [length take] in Hl. apply not_elem_of_cons in Hl as [Hne Hl].
  rewrite (IH _ _ _ Hl). apply lookup_alter_ne. congruence.
Qed.

Lemma lookedUp_once objects :
  ∀ h answers i l o a,
  objects !! i = Some l → (∀ j, objects !! j = Some l → j = i) →
  h !! l = Some o → answers !! i = Some a →
  lookedUp h objects answers !! l = Some (afterLookup o a).
Proof.
  induction objects as [|l0 objects IH]; intros h answers i l o a Hi Honce Ho Ha;
    [discriminate|].
  destruct answers as [|a0 answers]; [destruct i; discriminate|]. rewrite lookedUp_cons.
  destruct i as [|i].
  - injection Hi as ->. injection Ha as ->.
    rewrite lookedUp_other.
    + rewrite lookup_alter_eq, Ho. reflexivity.
    + intros Hin. apply elem_of_take in Hin as (j & Hj & _).
      specialize (Honce (S j) Hj). discriminate Honce.
  - assert (l0 ≠ l).
    { intros ->. specialize (Honce 0%nat eq_refl). discriminate Honce. }
    apply (IH _ _ i l o a); [exact Hi| |rewrite lookup_alter_ne by assumption; exact Ho|exact Ha].
    intros j Hj. specialize (Honce (S j) Hj). congruence.
Qed.

Lemma retrieveObjects_spec mgo c (objects : list loc) :
  ∀ filter st,
  (∀ l, l ∈ objects → is_Some (heap st !! l)) →
  ∃ r answers tr,
    retrieveObjects mgo c filter objects st
    = (Done r, {| heap := lookedUp (heap st) objects answers;
                  transactions := transactions st;
                  events := events st ++ tr;
                  oids := oids st; tids := tids st; sids := sids st |}) ∧
    lookups tr = answers ∧
    match r with
    | None => length answers = length objects ∧ Forall (λ a, a.2 = None) answers
    | Some e =>
        ∃ found a err,
          answers = found ++ [a] ∧ (length found < length objects)%nat ∧
          Forall (λ a, a.2 = None) found ∧ a.2 = Some err ∧ reportsLookupFailure err e
    end.
Proof.
  induction objects as [|l rest IH]; intros filter st Hvalid.
  - exists None, [], []. cbn [retrieveObjects]. unfold ret, lookedUp. cbn [zip zip_with foldl].
    rewrite app_nil_r. split; [destruct st; reflexivity|]. split; [reflexivity|].
    split; [reflexivity|constructor].
  - destruct (Hvalid l ltac:(left)) as [o Ho].
    rewrite (retrieveObjects_step mgo c filter l rest st o Ho). cbv zeta.
    set (q := <["_id" := BString (identifier o)]> filter).
    set (a := mgoOne mgo (events st) c q o).
    destruct (a.2) as [err|] eqn:Ha.
    + assert (∃ e, reportsLookupFailure err e ∧
                (match err with
                 | mgoErrNotFound =>
                     Some (ErrObjectNotFound "cannot find the object for the given ID")
                 | _ => Some (ErrCannotExecuteQuery (mgoErrorText err))
                 end) = Some e) as (e & He & Hres).
      { destruct err; eexists; (split; [|reflexivity]);
          [left; eauto | right; split; [discriminate|reflexivity]
          | right; split; [discriminate|reflexivity]]. }
      exists (Some e), [a], [QueryOne c q a].
      split; [rewrite lookedUp_cons, lookedUp_nil; destruct err; injection Hres as <-;
              reflexivity|].
      split; [reflexivity|].
      exists [], a, err. cbn [length]. repeat split; [lia|constructor|exact Ha|exact He].
    + match goal with |- context [retrieveObjects mgo c q rest ?s] =>
        destruct (IH q s) as (r & answers & tr & Hrun & Hlk & Hres)
      end.
      { intros l' Hl'. cbn [heap]. apply lookup_alter_is_Some, Hvalid. right. exact Hl'. }
      cbn [heap transactions events oids tids sids] in Hrun.
      exists r, (a :: answers), (QueryOne c q a :: tr).
      split; [rewrite Hrun, <- app_assoc; reflexivity|].
      split; [unfold lookups in *; cbn [omap list_omap lookupResult]; rewrite Hlk; reflexivity|].
      destruct r as [e|].
      * destruct Hres as (found & a' & err & -> & Hlen & Hfound & Ha' & Hrep).
        exists (a :: found), a', err. cbn [length].
        repeat split; [lia|constructor; assumption|exact Ha'|exact Hrep].
      * destruct Hres as [Hlen Hall]. cbn [length]. split; [lia|constructor; assumption].
Qed.

Lemma Retrieve_unfold mgo CF ctx (first : loc) (rest : list loc) st o0 :
  heap st !! first = Some o0 →
  Retrieve mgo CF ctx (first :: rest) st
  = let '(r, st') :=
      retrieveObjects mgo (identity o0) (compiled CF (default NewContext ctx)) (first :: rest)
        {| heap := heap st; transactions := transactions st;
           events := events st ++ [SessionCopy (sids st)];
           oids := oids st; tids := tids st; sids := S (sids st) |} in
    (r, sessionClose (sids st) st').
Proof.
  intros H. unfold Retrieve, defer. unfold bind at 1, sessionCopy. unfold bind at 1, deref.
  cbn [heap]. rewrite H. reflexivity.
Qed.

(** C8.  A [Retrieve] of a non-empty list of objects looks them up one by
    one and stops at the first lookup that fails: it then returns
    ObjectNotFound when the lookup matched nothing and CannotExecuteQuery,
    with the driver's message, for any other failure, two different kinds of
    error; it returns nil when every lookup succeeded.  The objects are left
    as the lookups made them, one after the other: what the driver decoded
    is in the object, and the object has been through the default-value
    backport exactly when its lookup succeeded, before the next lookup is
    made.  So an object listed once whose lookup found a document holds that
    document with its defaults restored: the document's identifier, the
    document's value in each field to which it gives a non-zero value, and
    in each other field the declared default, or the zero value when none is
    declared.  The objects that were not looked up are untouched. *)
Theorem Retrieve_lookups mgo CF ctx (objects : list loc) st :
  objects ≠ [] →
  (∀ l, l ∈ objects → is_Some (heap st !! l)) →
  let out := Retrieve mgo CF ctx objects st in
  ∃ r answers,
    out.1 = Done r ∧
    lookups (since st out.2) = answers ∧
    match r with
    | None => length answers = length objects ∧ Forall (λ a, a.2 = None) answers
    | Some e =>
        ∃ found a err,
          answers = found ++ [a] ∧ (length found < length objects)%nat ∧
          Forall (λ a, a.2 = None) found ∧ a.2 = Some err ∧ reportsLookupFailure err e
    end ∧
    heap out.2 = lookedUp (heap st) objects answers ∧
    (∀ i l o doc,
       objects !! i = Some l → (∀ j, objects !! j = Some l → j = i) →
       heap st !! l = Some o → answers !! i = Some (Some doc, None) →
       ∃ o', heap out.2 !! l = Some o' ∧ restoredFrom doc o o' ∧ defaultsRestored o') ∧
    (∀ l, l ∉ take (length answers) objects → heap out.2 !! l = heap st !! l) ∧
    (∀ msg msg', ErrObjectNotFound msg ≠ ErrCannotExecuteQuery msg').
Proof.
  intros Hne Hvalid out. subst out.
  destruct objects as [|first rest]; [contradiction|].
  destruct (Hvalid first ltac:(left)) as [o0 Ho0].
  rewrite (Retrieve_unfold mgo CF ctx first rest st o0 Ho0).
  match goal with |- context [retrieveObjects mgo ?c ?f ?os ?s] =>
    destruct (retrieveObjects_spec mgo c os f s) as (r & answers & tr & Hrun & Hlk & Hres);
      [exact Hvalid|]
  end.
  cbn [heap transactions events oids tids sids] in Hrun. rewrite Hrun.
  cbn [fst snd heap sessionClose log].
  exists r, answers. split; [reflexivity|]. split.
  { erewrite since_app;
      [|unfold sessionClose, log; cbn [events]; rewrite <- !app_assoc; reflexivity].
    subst answers. unfold lookups. simpl. rewrite omap_app. simpl. apply app_nil_r. }
  split; [exact Hres|]. split; [reflexivity|]. split; [|split].
  - intros i l o doc Hi Honce Ho Ha.
    rewrite (lookedUp_once _ _ _ _ _ _ _ Hi Honce Ho Ha).
    eexists. split; [reflexivity|]. split.
    + apply decode_restoredFrom.
    + apply afterLookup_defaultsRestored. reflexivity.
  - intros l Hl. apply lookedUp_other, Hl.
  - discriminate.
Qed.

(** ** Bulk batches and the registry *)

Lemma bulkLookup_app k bs b :
  bulkLookup k bs = None → bulkLookup k (bs ++ [(k, b)]) = Some b.
Proof.
  induction bs as [|[k' b'] bs IH]; simpl; intros H.
  - rewrite decide_True by reflexivity. reflexivity.
  - destruct (decide (k' = k)); [discriminate|]. apply IH, H.
Qed.

Lemma bulkStage_lookup k op bs b :
  bulkLookup k bs = Some b →
  bulkLookup k (bulkStage k op bs)
  = Some {| bulkCollection := bulkCollection b; bulkOps := bulkOps b ++ [op] |}.
Proof.
  induction bs as [|[k' b'] bs IH]; simpl; intros H; [discriminate|].
  destruct (decide (k' = k)) as [->|Hne]; simpl.
  - rewrite decide_True by reflexivity. congruence.
  - rewrite decide_False by exact Hne. apply IH, H.
Qed.

(** Staging never reorders the batches of a transaction. *)
Lemma bulkStage_keys k op bs : (bulkStage k op bs).*1 = bs.*1.
Proof.
  induction bs as [|[k' b'] bs IH]; simpl; [reflexivity|].
  destruct (decide (k' = k)); rewrite !fmap_cons; simpl; [reflexivity|].
  f_equal. exact IH.
Qed.

(** A batch is created behind the existing ones, which keep their order. *)
Lemma bulkForIdentity_order k t :
  bulks (bulkForIdentity k t) = bulks t ∨
  (bulkLookup k (bulks t) = None ∧
   bulks (bulkForIdentity k t)
   = bulks t ++ [(k, {| bulkCollection := k; bulkOps := [] |})]).
Proof.
  unfold bulkForIdentity. destruct (bulkLookup k (bulks t)) eqn:E; [left|right]; auto.
Qed.

Lemma bulkForIdentity_lookup k t :
  ∃ b, bulkLookup k (bulks (bulkForIdentity k t)) = Some b ∧
       bulkOps b = match bulkLookup k (bulks t) with
                   | Some b0 => bulkOps b0
                   | None => []
                   end.
Proof.
  unfold bulkForIdentity. destruct (bulkLookup k (bulks t)) as [b0|] eqn:E.
  - exists b0. rewrite E. auto.
  - eexists. simpl. rewrite bulkLookup_app by exact E. split; reflexivity.
Qed.

Lemma stageAll_fields k ops t :
  id (stageAll k ops t) = id t ∧ session (stageAll k ops t) = session t ∧
  (bulks (stageAll k ops t)).*1 = (bulks t).*1.
Proof.
  revert t. induction ops as [|op ops IH]; intros t; [auto|].
  unfold stageAll in *. simpl. destruct (IH (stageOp k op t)) as (-> & -> & ->).
  simpl. rewrite bulkStage_keys. auto.
Qed.

Lemma stageAll_lookup k ops t b :
  bulkLookup k (bulks t) = Some b →
  bulkLookup k (bulks (stageAll k ops t))
  = Some {| bulkCollection := bulkCollection b; bulkOps := bulkOps b ++ ops |}.
Proof.
  revert t b. induction ops as [|op ops IH]; intros t b H.
  - simpl. rewrite app_nil_r. destruct b; exact H.
  - unfold stageAll in *. simpl.
    rewrite (IH (stageOp k op t) _ (bulkStage_lookup k op _ b H)). simpl.
    rewrite <- app_assoc. reflexivity.
Qed.

Lemma stageAll_snoc k ops op t :
  stageAll k (ops ++ [op]) t = stageOp k op (stageAll k ops t).
Proof. unfold stageAll. rewrite foldl_snoc. reflexivity. Qed.

Lemma withTransaction_registered key f t st :
  transactions st !! key = Some t →
  withTransaction key f st
  = (Done tt, set_transactions (<[key := f t]> (transactions st)) st).
Proof. intros H. unfold withTransaction. rewrite (alter_alt_Some _ _ _ _ H). reflexivity. Qed.

Lemma retrieveTransaction_spec context st :
  let key := keyOf context st in
  let implicit := bool_decide (TransactionID context = "") in
  let tids' := if implicit then S (tids st) else tids st in
  retrieveTransaction context st
  = match transactions st !! key with
    | Some t =>
        (Done (key, t, implicit),
         {| heap := heap st; transactions := transactions st; events := events st;
            oids := oids st; tids := tids'; sids := sids st |})
    | None =>
        let t := {| id := key; bulks := []; session := sids st |} in
        (Done (key, t, implicit),
         {| heap := heap st; transactions := <[key := t]> (transactions st);
            events := events st ++ [SessionCopy (sids st)];
            oids := oids st; tids := tids'; sids := S (sids st) |})
    end.
Proof.
  unfold retrieveTransaction, keyOf, bind, transactionWithID, NewTransactionID, newTransaction,
    registerTransaction, sessionCopy, ret, bind.
  destruct (decide (TransactionID context = "")) as [E|E]; simpl.
  - rewrite bool_decide_eq_true_2 by exact E.
    destruct (transactions st !! pretty (tids st)); reflexivity.
  - rewrite bool_decide_eq_false_2 by exact E.
    destruct (transactions st !! TransactionID context); [destruct st|]; reflexivity.
Qed.

(** ** The loop of Create *)

Lemma finalizations_finalizeEvents calls : finalizations (finalizeEvents calls) = calls.
Proof.
  unfold finalizations, finalizeEvents.
  induction calls as [|[a r] calls IH]; simpl; [reflexivity|]. f_equal. exact IH.
Qed.

Lemma finalize_step fin child o1 s :
  heap s !! child = Some o1 →
  ∃ o' res,
    (match fin with
     | Some f => callFinalizer f child
     | None => ret None
     end) s
    = (Done res,
       {| heap := <[child := o']> (heap s); transactions := transactions s;
          events := events s
                    ++ finalizeEvents (match fin with Some _ => [(o1, res)] | None => [] end);
          oids := oids s; tids := tids s; sids := sids s |}) ∧
    (fin = None → res = None) ∧
    (keepsIdentifier fin → identifier o' = identifier o1).
Proof.
  intros H. destruct fin as [f|].
  - unfold callFinalizer, bind, deref, store, log. rewrite H.
    destruct (f o1) as [o' res] eqn:E. exists o', res. simpl.
    split; [reflexivity|]. split; [discriminate|].
    intros K. specialize (K f o1 eq_refl). rewrite E in K. exact K.
  - exists o1, None. unfold ret. simpl. rewrite app_nil_r, (insert_id _ _ _ H).
    destruct s; auto.
Qed.

Lemma createObjects_spec fin key k (children : list loc) :
  ∀ st t,
  transactions st !! key = Some t →
  (∀ l, l ∈ children → is_Some (heap st !! l)) →
  ∃ r calls h' (n m : nat),
    createObjects fin key k children st
    = (Done r,
       {| heap := h';
          transactions :=
            <[key := stageAll k (OpInsert <$> take n children) t]> (transactions st);
          events := events st ++ finalizeEvents calls;
          oids := (oids st + m)%nat; tids := tids st; sids := sids st |}) ∧
    match r with
    | None =>
        n = length children ∧ m = length children ∧ Forall (λ c, c.2 = None) calls
    | Some e =>
        ∃ oks arg, calls = ((λ a, (a, None)) <$> oks) ++ [(arg, Some e)] ∧
                   n = length oks ∧ m = S n ∧ (n < length children)%nat
    end ∧
    (fin = None → calls = []) ∧
    (∀ i c, calls !! i = Some c → identifier c.1 = pretty (oids st + i)%nat) ∧
    (∀ l, l ∉ take m children → h' !! l = heap st !! l) ∧
    (keepsIdentifier fin →
     ∀ l, l ∈ take m children →
          ∃ i o, (i < m)%nat ∧ children !! i = Some l ∧ h' !! l = Some o ∧
                 identifier o = pretty (oids st + i)%nat).
Proof.
  induction children as [|child rest IH]; intros st t Ht Hvalid.
  - exists None, [], (heap st), 0%nat, 0%nat. simpl.
    rewrite app_nil_r, Nat.add_0_r, (insert_id _ _ _ Ht).
    split; [destruct st; reflexivity|]. split; [auto|]. split; [auto|].
    split; [intros i c Hc; inversion Hc|]. split; [auto|].
    intros _ l Hl. inversion Hl.
  - destruct (Hvalid child ltac:(left)) as [o Ho].
    set (o1 := SetIdentifier (pretty (oids st)) o).
    set (s0 := {| heap := <[child := o1]> (heap st); transactions := transactions st;
                  events := events st; oids := S (oids st); tids := tids st;
                  sids := sids st |}).
    destruct (finalize_step fin child o1 s0) as (o' & res & Hfin & Hnone & Hkeep).
    { apply lookup_insert_eq. }
    assert (Hhead :
      createObjects fin key k (child :: rest) st
      = (let* failed := (match fin with
                         | Some f => callFinalizer f child
                         | None => ret None
                         end) in
         match failed with
         | Some err => ret (Some err)
         | None => run withTransaction key (stageOp k (OpInsert child)) in
                   createObjects fin key k rest
         end) s0).
    { simpl. unfold bind at 1, NewObjectId. unfold bind at 1, deref.
      cbn [heap]. rewrite Ho. unfold bind at 1, store. reflexivity. }
    rewrite Hhead. clear Hhead.
    unfold bind at 1. rewrite Hfin. subst s0. cbn [heap transactions events oids tids sids].
    rewrite insert_insert_eq.
    destruct res as [e|].
    + (* the finalizer refuses this object *)
      destruct fin as [f|]; [|specialize (Hnone eq_refl); discriminate].
      exists (Some e), [(o1, Some e)], (<[child := o']> (heap st)), 0%nat, 1%nat.
      simpl. rewrite (insert_id _ _ _ Ht), Nat.add_1_r.
      split; [reflexivity|]. split.
      { exists [], o1. simpl. split; [reflexivity|]. split; [reflexivity|].
        split; [reflexivity|lia]. }
      split; [discriminate|]. split.
      { intros [|i] c Hc; simpl in Hc; [|inversion Hc].
        injection Hc as <-. simpl. rewrite Nat.add_0_r. reflexivity. }
      split.
      { intros l Hl. apply lookup_insert_ne. intros ->. apply Hl. left. }
      intros K l Hl. apply list_elem_of_singleton in Hl as ->.
      exists 0%nat, o'. split; [lia|]. split; [reflexivity|].
      rewrite lookup_insert_eq. split; [reflexivity|].
      rewrite (Hkeep K), Nat.add_0_r. reflexivity.
    + (* the object is staged and the loop goes on *)
      unfold bind at 1.
      match goal with |- context [withTransaction key ?f ?s] =>
        rewrite (withTransaction_registered key f t s Ht)
      end.
      unfold set_transactions. cbn [heap transactions events oids tids sids].
      match goal with |- context [createObjects fin key k rest ?s] => set (s1 := s) end.
      destruct (IH s1 (stageOp k (OpInsert child) t)) as
        (r & calls & h' & n & m & Hrun & Hres & Hnil & Hids & Hout & Hin).
      { apply lookup_insert_eq. }
      { intros l Hl. subst s1. cbn [heap]. apply lookup_insert_is_Some'. right.
        apply Hvalid. right. exact Hl. }
      rewrite Hrun. subst s1. cbn [heap transactions events oids tids sids].
      exists r, (match fin with Some _ => [(o1, None)] | None => [] end ++ calls), h',
        (S n), (S m).
      split.
      { rewrite insert_insert_eq. unfold finalizeEvents. rewrite fmap_app, <- app_assoc.
        rewrite Nat.add_succ_r. reflexivity. }
      split.
      { destruct r as [e|].
        - destruct Hres as (oks & arg & -> & -> & -> & Hlt).
          destruct fin as [f|].
          + exists (o1 :: oks), arg. simpl. split; [reflexivity|]. split; [reflexivity|].
            split; [reflexivity|lia].
          + specialize (Hnil eq_refl). destruct oks; discriminate Hnil.
        - destruct Hres as (-> & -> & Hall). simpl. split; [reflexivity|].
          split; [reflexivity|]. destruct fin; [constructor; [reflexivity|exact Hall]|exact Hall]. }
      split.
      { intros ->. rewrite (Hnil eq_refl). reflexivity. }
      split.
      { destruct fin as [f|].
        - intros [|i] c Hc; simpl in Hc.
          + injection Hc as <-. simpl. rewrite Nat.add_0_r. reflexivity.
          + rewrite (Hids i c Hc). simpl. rewrite Nat.add_succ_r. reflexivity.
        - rewrite (Hnil eq_refl). intros i c Hc. inversion Hc. }
      split.
      { intros l Hl. simpl in Hl. apply not_elem_of_cons in Hl as [Hne Hl].
        rewrite (Hout l Hl). simpl. apply lookup_insert_ne. congruence. }
      intros K l Hl. simpl in Hl.
      destruct (decide (l ∈ take m rest)) as [Hd|Hd].
      * destruct (Hin K l Hd) as (i & ob & Hi & Hch & Hh & Hid).
        exists (S i), ob. split; [lia|]. split; [exact Hch|]. split; [exact Hh|].
        rewrite Hid. simpl. rewrite Nat.add_succ_r. reflexivity.
      * apply elem_of_cons in Hl as [->|?]; [|contradiction].
        exists 0%nat, o'. split; [lia|]. split; [reflexivity|].
        rewrite (Hout child Hd). simpl. rewrite lookup_insert_eq. split; [reflexivity|].
        rewrite (Hkeep K), Nat.add_0_r. reflexivity.
Qed.

(** ** Entering a write *)

Lemma Create_unfold mgo ctx (first : loc) (rest : list loc) st o0 :
  heap st !! first = Some o0 →
  let context := default NewContext ctx in
  Create mgo ctx (first :: rest) st
  = match createObjects (CreateFinalizer context) (keyOf context st) (identity o0)
            (first :: rest) (entered context (identity o0) st) with
    | (Done (Some err), st2) => (Done (Some err), st2)
    | (Done None, st2) =>
        if bool_decide (TransactionID context = "")
        then Commit mgo (id (enteredTx context st)) st2
        else (Done None, st2)
    | (Panic, st2) => (Panic, st2)
    end.
Proof.
  intros Ho context. unfold Create. fold context.
  unfold bind at 1. rewrite retrieveTransaction_spec.
  unfold entered, enteredTx.
  destruct (transactions st !! keyOf context st) as [t|] eqn:Ht; cbn zeta iota beta.
  - unfold bind at 1, deref. cbn [heap]. rewrite Ho.
    unfold bind at 1.
    rewrite (withTransaction_registered _ _ t) by exact Ht.
    unfold set_transactions. cbn [heap transactions events oids tids sids].
    rewrite (bool_decide_eq_true_2 (is_Some (Some t))) by (eexists; reflexivity).
    rewrite app_nil_r.
    unfold bind at 1.
    destruct (createObjects _ _ _ _ _) as [[[e|]|] st2]; try reflexivity.
    destruct (bool_decide _); reflexivity.
  - unfold bind at 1, deref. cbn [heap]. rewrite Ho.
    unfold bind at 1.
    rewrite (withTransaction_registered _ _ {| id := keyOf context st; bulks := [];
                                              session := sids st |})
      by apply lookup_insert_eq.
    unfold set_transactions. cbn [heap transactions events oids tids sids].
    rewrite insert_insert_eq.
    rewrite (bool_decide_eq_false_2 (is_Some (@None transaction)))
      by (intros [? ?]; discriminate).
    unfold bind at 1.
    destruct (createObjects _ _ _ _ _) as [[[e|]|] st2]; try reflexivity.
    destruct (bool_decide _); reflexivity.
Qed.

Lemma finalizations_app xs ys :
  finalizations (xs ++ ys) = finalizations xs ++ finalizations ys.
Proof. apply omap_app. Qed.

Lemma finalizations_runs runs : forallb isBulkRun runs = true → finalizations runs = [].
Proof.
  induction runs as [|e runs IH]; simpl; [reflexivity|].
  intros H. apply andb_true_iff in H as [He Hr]. destruct e; try discriminate He.
  apply IH, Hr.
Qed.

Lemma Commit_no_finalization mgo tid st :
  ∃ tail, events (Commit mgo tid st).2 = events st ++ tail ∧ finalizations tail = [].
Proof.
  destruct (transactions st !! tid) as [t|] eqn:Ht.
  - destruct (Commit_registered mgo tid t st Ht) as (r & runs & -> & _ & Hruns).
    exists (runs ++ [SessionClose (session t)]). split; [reflexivity|].
    rewrite finalizations_app, (finalizations_runs runs Hruns). reflexivity.
  - rewrite (Commit_unknown mgo tid st Ht). exists []. rewrite app_nil_r. auto.
Qed.

Lemma entered_events context k st :
  ∃ opened, events (entered context k st) = events st ++ opened ∧
            finalizations opened = [] ∧
            forallb (λ ev, negb (isBulkRun ev)) opened = true.
Proof.
  unfold entered. cbn [events]. destruct (bool_decide _); eexists; split; reflexivity || auto.
Qed.

Lemma finalizeEvents_no_run calls :
  forallb (λ ev, negb (isBulkRun ev)) (finalizeEvents calls) = true.
Proof. induction calls as [|c calls IH]; simpl; auto. Qed.

Lemma staged_entered context k st :
  staged (keyOf context st) k st
  = match bulkLookup k (bulks (enteredTx context st)) with
    | Some b => bulkOps b
    | None => []
    end.
Proof.
  unfold staged, enteredTx. destruct (transactions st !! keyOf context st); reflexivity.
Qed.

(** The batch of category [k] once [ops] have been staged on entering. *)
Lemma staged_after context k st ops h ev o ti si :
  staged (keyOf context st) k
    {| heap := h;
       transactions :=
         <[keyOf context st := stageAll k ops (bulkForIdentity k (enteredTx context st))]>
           (transactions st);
       events := ev; oids := o; tids := ti; sids := si |}
  = staged (keyOf context st) k st ++ ops.
Proof.
  unfold staged at 1. cbn [transactions]. rewrite lookup_insert_eq.
  destruct (bulkForIdentity_lookup k (enteredTx context st)) as (b & Hb & Hops).
  rewrite (stageAll_lookup k ops _ b Hb). cbn [bulkOps].
  rewrite Hops, staged_entered. reflexivity.
Qed.

Lemma Create_run mgo ctx (first : loc) (rest : list loc) st o0 :
  heap st !! first = Some o0 →
  (∀ l, l ∈ first :: rest → is_Some (heap st !! l)) →
  let children := first :: rest in
  let context := default NewContext ctx in
  let key := keyOf context st in
  let k := identity o0 in
  let fin := CreateFinalizer context in
  ∃ r calls h' (n m : nat) st2,
    st2 = {| heap := h';
             transactions :=
               <[key := stageAll k (OpInsert <$> take n children)
                          (bulkForIdentity k (enteredTx context st))]> (transactions st);
             events := events (entered context k st) ++ finalizeEvents calls;
             oids := (oids st + m)%nat;
             tids := tids (entered context k st);
             sids := sids (entered context k st) |} ∧
    Create mgo ctx children st
    = match r with
      | Some err => (Done (Some err), st2)
      | None =>
          if bool_decide (TransactionID context = "")
          then Commit mgo (id (enteredTx context st)) st2
          else (Done None, st2)
      end ∧
    match r with
    | None =>
        n = length children ∧ m = length children ∧ Forall (λ c, c.2 = None) calls
    | Some e =>
        ∃ oks arg, calls = ((λ a, (a, None)) <$> oks) ++ [(arg, Some e)] ∧
                   n = length oks ∧ m = S n ∧ (n < length children)%nat
    end ∧
    (fin = None → calls = []) ∧
    (∀ i c, calls !! i = Some c → identifier c.1 = pretty (oids st + i)%nat) ∧
    (∀ l, l ∉ take m children → h' !! l = heap st !! l) ∧
    (keepsIdentifier fin →
     ∀ l, l ∈ take m children →
          ∃ i o, (i < m)%nat ∧ children !! i = Some l ∧ h' !! l = Some o ∧
                 identifier o = pretty (oids st + i)%nat) ∧
    finalizations (since st (Create mgo ctx children st).2) = calls.
Proof.
  intros Ho Hvalid children context key k fin.
  destruct (createObjects_spec fin key k children (entered context k st)
              (bulkForIdentity k (enteredTx context st)))
    as (r & calls & h' & n & m & Hrun & Hres & Hnil & Hids & Hout & Hin).
  { apply lookup_insert_eq. }
  { exact Hvalid. }
  change (transactions (entered context k st))
    with (<[key := bulkForIdentity k (enteredTx context st)]> (transactions st)) in Hrun.
  change (oids (entered context k st)) with (oids st) in Hrun, Hids, Hin.
  change (heap (entered context k st)) with (heap st) in Hout.
  rewrite insert_insert_eq in Hrun.
  assert (Hcreate : Create mgo ctx children st
    = match r with
      | Some err =>
          (Done (Some err),
           {| heap := h';
              transactions :=
                <[key := stageAll k (OpInsert <$> take n children)
                           (bulkForIdentity k (enteredTx context st))]> (transactions st);
              events := events (entered context k st) ++ finalizeEvents calls;
              oids := (oids st + m)%nat;
              tids := tids (entered context k st);
              sids := sids (entered context k st) |})
      | None =>
          if bool_decide (TransactionID context = "")
          then Commit mgo (id (enteredTx context st))
                 {| heap := h';
                    transactions :=
                      <[key := stageAll k (OpInsert <$> take n children)
                                 (bulkForIdentity k (enteredTx context st))]> (transactions st);
                    events := events (entered context k st) ++ finalizeEvents calls;
                    oids := (oids st + m)%nat;
                    tids := tids (entered context k st);
                    sids := sids (entered context k st) |}
          else (Done None,
                {| heap := h';
                   transactions :=
                     <[key := stageAll k (OpInsert <$> take n children)
                                (bulkForIdentity k (enteredTx context st))]> (transactions st);
                   events := events (entered context k st) ++ finalizeEvents calls;
                   oids := (oids st + m)%nat;
                   tids := tids (entered context k st);
                   sids := sids (entered context k st) |})
      end).
  { unfold children. rewrite (Create_unfold mgo ctx first rest st o0 Ho).
    fold context key k fin children. rewrite Hrun. destruct r; reflexivity. }
  exists r, calls, h', n, m. eexists. split; [reflexivity|].
  split; [exact Hcreate|].
  repeat (split; [assumption|]).
  destruct (entered_events context k st) as (opened & Hopen & Hofin & _).
  rewrite Hcreate. destruct r as [err|].
  - erewrite since_app; [|cbn [snd events]; rewrite Hopen, <- app_assoc; reflexivity].
    rewrite finalizations_app, Hofin, finalizations_finalizeEvents. reflexivity.
  - destruct (bool_decide (TransactionID context = "")).
    + match goal with |- context [Commit mgo ?i ?s] =>
        destruct (Commit_no_finalization mgo i s) as (tail & Htail & Hnone)
      end.
      erewrite since_app; [|rewrite Htail; cbn [events]; rewrite Hopen, <- !app_assoc;
                             reflexivity].
      rewrite !finalizations_app, Hofin, Hnone, finalizations_finalizeEvents.
      apply app_nil_r.
    + erewrite since_app; [|cbn [snd events]; rewrite Hopen, <- app_assoc; reflexivity].
      rewrite finalizations_app, Hofin, finalizations_finalizeEvents. reflexivity.
Qed.


(** A failed finalizer call is the last one of its loop. *)
Lemma failed_call_last (calls : list (Object * option Error)) oks arg' err n arg e :
  calls = ((λ a, (a, None)) <$> oks) ++ [(arg', Some err)] →
  calls !! n = Some (arg, Some e) →
  n = length oks ∧ err = e.
Proof.
  intros -> Hcall. destruct (decide (n < length oks)%nat) as [Hl|Hl].
  - rewrite lookup_app_l in Hcall by (rewrite length_fmap; exact Hl).
    rewrite list_lookup_fmap in Hcall.
    destruct (oks !! n); simpl in Hcall; discriminate Hcall || congruence.
  - rewrite lookup_app_r in Hcall by (rewrite length_fmap; lia).
    rewrite length_fmap in Hcall.
    destruct (n - length oks)%nat as [|d] eqn:Hd; simpl in Hcall; [|discriminate Hcall].
    split; [lia|congruence].
Qed.

(** C5.  In a [Create] whose n-th finalizer call (counting from 0) fails
    with [e]: every finalizer call received its object carrying the
    identifier generated for it just before, all of them distinct; the
    calls before the n-th succeeded and the n-th is the last one; the call
    returns [e]; the batch holds what it held before followed by one insert
    for each of the first n objects and nothing for the others; and no
    batch was run. *)
Theorem Create_finalizer_failure mgo ctx (first : loc) (rest : list loc) st o0 n arg e :
  heap st !! first = Some o0 →
  (∀ l, l ∈ first :: rest → is_Some (heap st !! l)) →
  let children := first :: rest in
  let context := default NewContext ctx in
  let out := Create mgo ctx children st in
  let calls := finalizations (since st out.2) in
  calls !! n = Some (arg, Some e) →
  out.1 = Done (Some e) ∧
  length calls = S n ∧
  (∀ i c, calls !! i = Some c →
          identifier c.1 = pretty (oids st + i)%nat ∧ ((i < n)%nat → c.2 = None)) ∧
  (∀ i j ci cj, calls !! i = Some ci → calls !! j = Some cj → i ≠ j →
                identifier ci.1 ≠ identifier cj.1) ∧
  staged (keyOf context st) (identity o0) out.2
  = staged (keyOf context st) (identity o0) st ++ (OpInsert <$> take n children) ∧
  forallb (λ ev, negb (isBulkRun ev)) (since st out.2) = true.
Proof.
  intros Ho Hvalid children context out calls Hcall.
  destruct (Create_run mgo ctx first rest st o0 Ho Hvalid)
    as (r & calls' & h' & n' & m & st2 & Hst2 & Hrun & Hres & _ & Hids & _ & _ & Hcalls).
  subst children calls out. fold context in Hst2, Hrun, Hres, Hids.
  destruct (entered_events context (identity o0) st) as (opened & Hopen & Hofin & Horun).
  rewrite Hcalls in *. clear Hcalls.
  destruct r as [err|].
  - destruct Hres as (oks & arg' & Hc & Hn & Hm & Hlt).
    destruct (failed_call_last _ _ _ _ _ _ _ Hc Hcall) as [-> ->].
    subst n'. rewrite Hrun. cbn [fst snd].
    split; [reflexivity|]. split; [rewrite Hc, length_app, length_fmap; simpl; lia|].
    split.
    { intros i c Hic. split; [apply Hids, Hic|]. intros Hlt'.
      rewrite Hc in Hic. rewrite lookup_app_l in Hic by (rewrite length_fmap; exact Hlt').
      rewrite list_lookup_fmap in Hic. destruct (oks !! i); simpl in Hic; [|discriminate Hic].
      injection Hic as <-. reflexivity. }
    split.
    { intros i j ci cj Hi Hj Hne. rewrite (Hids i ci Hi), (Hids j cj Hj).
      intros Heq. apply (inj pretty) in Heq. lia. }
    split.
    { rewrite Hst2. apply staged_after. }
    erewrite since_app; [|rewrite Hst2; cbn [events]; rewrite Hopen, <- app_assoc;
                           reflexivity].
    rewrite forallb_app, Horun, finalizeEvents_no_run. reflexivity.
  - destruct Hres as (_ & _ & Hall).
    apply (proj1 (Forall_lookup _ _) Hall) in Hcall. discriminate Hcall.
Qed.

(** ** Implicit transactions *)

Lemma bulkForIdentity_fields k t :
  id (bulkForIdentity k t) = id t ∧ session (bulkForIdentity k t) = session t.
Proof. unfold bulkForIdentity. destruct (bulkLookup k (bulks t)); auto. Qed.

Lemma Commit_keeps_others mgo tid key st :
  tid ≠ key → transactions (Commit mgo tid st).2 !! key = transactions st !! key.
Proof.
  intros Hne. destruct (transactions st !! tid) as [t|] eqn:Ht.
  - destruct (Commit_registered mgo tid t st Ht) as (r & runs & -> & _ & _).
    simpl. apply lookup_delete_ne, Hne.
  - rewrite (Commit_unknown mgo tid st Ht). reflexivity.
Qed.

Lemma Abort_keeps_others tid key st :
  tid ≠ key → transactions (Abort tid st).2 !! key = transactions st !! key.
Proof.
  intros Hne. unfold Abort, bind, transactionWithID.
  destruct (transactions st !! tid) as [t|] eqn:Ht; [|reflexivity].
  simpl. apply lookup_delete_ne, Hne.
Qed.

Lemma keyOf_implicit context st :
  TransactionID context = "" → keyOf context st = pretty (tids st).
Proof. intros H. unfold keyOf. rewrite decide_True by exact H. reflexivity. Qed.

Lemma entered_fresh context k st :
  TransactionID context = "" →
  transactions st !! pretty (tids st) = None →
  enteredTx context st = {| id := pretty (tids st); bulks := []; session := sids st |} ∧
  events (entered context k st) = events st ++ [SessionCopy (sids st)].
Proof.
  intros Himp Hfresh. unfold entered, enteredTx. cbn [events].
  rewrite (keyOf_implicit context st Himp), Hfresh.
  rewrite bool_decide_eq_false_2 by (intros [? ?]; discriminate). auto.
Qed.

(** C10.  When the finalizer fails with [e] during a [Create] under an
    implicit transaction whose generated id is not in use, the call returns
    [e] and nothing else; the transaction stays registered under the
    generated id, its session was opened and not closed, no batch was run,
    and a later [Commit] or [Abort] of any other id leaves it registered. *)
Theorem Create_implicit_leak mgo ctx (first : loc) (rest : list loc) st o0 n arg e :
  heap st !! first = Some o0 →
  (∀ l, l ∈ first :: rest → is_Some (heap st !! l)) →
  let context := default NewContext ctx in
  let key := pretty (tids st) in
  let out := Create mgo ctx (first :: rest) st in
  TransactionID context = "" →
  transactions st !! key = None →
  finalizations (since st out.2) !! n = Some (arg, Some e) →
  out.1 = Done (Some e) ∧
  (∃ t, transactions out.2 !! key = Some t ∧ id t = key ∧ session t = sids st ∧
        ∀ tid, tid ≠ key →
               transactions (Commit mgo tid out.2).2 !! key = Some t ∧
               transactions (Abort tid out.2).2 !! key = Some t) ∧
  SessionCopy (sids st) ∈ since st out.2 ∧
  (∀ s, SessionClose s ∉ since st out.2) ∧
  forallb (λ ev, negb (isBulkRun ev)) (since st out.2) = true.
Proof.
  intros Ho Hvalid context key out Himp Hfresh Hcall.
  destruct (Create_run mgo ctx first rest st o0 Ho Hvalid)
    as (r & calls & h' & n' & m & st2 & Hst2 & Hrun & Hres & _ & _ & _ & _ & Hcalls).
  subst out. fold context in Hst2, Hrun, Hres.
  rewrite Hcalls in Hcall.
  destruct (entered_fresh context (identity o0) st Himp Hfresh) as [Htx Hev].
  rewrite (keyOf_implicit context st Himp) in Hst2. fold key in Hst2.
  destruct r as [err|].
  2:{ destruct Hres as (_ & _ & Hall).
      apply (proj1 (Forall_lookup _ _) Hall) in Hcall. discriminate Hcall. }
  destruct Hres as (oks & arg' & Hc & Hn & Hm & Hlt).
  destruct (failed_call_last _ _ _ _ _ _ _ Hc Hcall) as [-> ->].
  rewrite Hrun. cbn [fst snd].
  assert (Hsince : since st st2 = SessionCopy (sids st) :: finalizeEvents calls).
  { apply since_app. rewrite Hst2. cbn [events]. rewrite Hev, <- app_assoc. reflexivity. }
  split; [reflexivity|]. split; [|split; [|split]].
  - eexists. split; [rewrite Hst2; cbn [transactions]; apply lookup_insert_eq|].
    destruct (stageAll_fields (identity o0) (OpInsert <$> take n' (first :: rest))
                (bulkForIdentity (identity o0) (enteredTx context st))) as (Hid & Hs & _).
    destruct (bulkForIdentity_fields (identity o0) (enteredTx context st)) as [Hid' Hs'].
    split; [rewrite Hid, Hid', Htx; reflexivity|].
    split; [rewrite Hs, Hs', Htx; reflexivity|].
    intros tid Hne.
    rewrite (Commit_keeps_others mgo tid key st2 Hne), (Abort_keeps_others tid key st2 Hne).
    rewrite Hst2. cbn [transactions]. rewrite lookup_insert_eq. auto.
  - rewrite Hsince. left.
  - intros s Hs. rewrite Hsince in Hs. apply elem_of_cons in Hs as [Hs|Hs]; [discriminate Hs|].
    unfold finalizeEvents in Hs. apply list_elem_of_fmap in Hs as (c & Hs & _).
    discriminate Hs.
  - rewrite Hsince. simpl. apply finalizeEvents_no_run.
Qed.

Lemma stageAll_single k ops i c pre s :
  stageAll k ops {| id := i; bulks := [(k, {| bulkCollection := c; bulkOps := pre |})];
                    session := s |}
  = {| id := i; bulks := [(k, {| bulkCollection := c; bulkOps := pre ++ ops |})];
       session := s |}.
Proof.
  revert pre. induction ops as [|op ops IH]; intros pre.
  - simpl. rewrite app_nil_r. reflexivity.
  - unfold stageAll in *. simpl. unfold stageOp at 2. simpl.
    rewrite decide_True by reflexivity. simpl.
    rewrite IH, <- app_assoc. reflexivity.
Qed.

(** C6 (as amended).  A [Create] of a non-empty list of objects under an
    implicit transaction whose generated id is not in use, with a finalizer
    (if any) that fails on none of the objects and leaves their identifiers
    alone, is the [Commit] of the single transaction it registered, which
    holds one batch with an insert per object; the registry ends as it
    began; and each object carries an identifier generated during the call,
    different objects carrying different identifiers. *)
Theorem Create_implicit mgo ctx (first : loc) (rest : list loc) st o0 :
  heap st !! first = Some o0 →
  (∀ l, l ∈ first :: rest → is_Some (heap st !! l)) →
  let context := default NewContext ctx in
  let out := Create mgo ctx (first :: rest) st in
  TransactionID context = "" →
  transactions st !! pretty (tids st) = None →
  keepsIdentifier (CreateFinalizer context) →
  Forall (λ c, c.2 = None) (finalizations (since st out.2)) →
  implicitCreate mgo ctx (first :: rest) (identity o0) st.
Proof.
  intros Ho Hvalid context out Himp Hfresh Hkeep Hok.
  destruct (Create_run mgo ctx first rest st o0 Ho Hvalid)
    as (r & calls & h' & n & m & st2 & Hst2 & Hrun & Hres & _ & _ & _ & Hin & Hcalls).
  subst out. fold context in Hst2, Hrun, Hres, Hin.
  rewrite Hcalls in Hok. specialize (Hin Hkeep).
  destruct (entered_fresh context (identity o0) st Himp Hfresh) as [Htx Hev].
  rewrite (keyOf_implicit context st Himp) in Hst2.
  destruct r as [err|].
  { destruct Hres as (oks & arg & -> & _).
    apply Forall_app in Hok as [_ Hok]. rewrite Forall_singleton in Hok. simpl in Hok.
    discriminate Hok. }
  destruct Hres as (-> & -> & _).
  rewrite bool_decide_eq_true_2 in Hrun by exact Himp.
  rewrite Htx in Hrun, Hst2. cbn [id] in Hrun.
  rewrite firstn_all in Hst2, Hin.
  assert (Hb : bulkForIdentity (identity o0)
                 {| id := pretty (tids st); bulks := []; session := sids st |}
               = {| id := pretty (tids st);
                    bulks := [(identity o0, {| bulkCollection := identity o0; bulkOps := [] |})];
                    session := sids st |}) by reflexivity.
  rewrite Hb, stageAll_single in Hst2. cbn [app] in Hst2.
  assert (Hreg : transactions st2 !! pretty (tids st)
                 = Some {| id := pretty (tids st);
                           bulks := [(identity o0,
                                      {| bulkCollection := identity o0;
                                         bulkOps := OpInsert <$> first :: rest |})];
                           session := sids st |}).
  { rewrite Hst2. cbn [transactions]. apply lookup_insert_eq. }
  destruct (Commit_registered mgo _ _ st2 Hreg) as (res & runs & Hcommit & _ & _).
  assert (Hheap : heap (Create mgo ctx (first :: rest) st).2 = h').
  { rewrite Hrun, Hcommit, Hst2. reflexivity. }
  assert (Hids : ∀ l, l ∈ first :: rest →
            ∃ i o, (first :: rest) !! i = Some l ∧
                   heap (Create mgo ctx (first :: rest) st).2 !! l = Some o ∧
                   identifier o = pretty (oids st + i)%nat).
  { intros l Hl. destruct (Hin l Hl) as (i & o & _ & Hi & Hh & Hid).
    exists i, o. rewrite Hheap. auto. }
  unfold implicitCreate. cbv zeta. split; [|split; [|split]].
  - exists st2. split; [exact Hrun|]. rewrite Hst2. reflexivity.
  - rewrite Hrun, Hcommit. cbn [snd transactions]. rewrite Hst2. cbn [transactions].
    apply delete_insert_id, Hfresh.
  - exact Hids.
  - intros l1 l2 o1 o2 H1 H2 Hne Hh1 Hh2.
    destruct (Hids l1 H1) as (i1 & o1' & Hi1 & Ho1 & Hid1).
    destruct (Hids l2 H2) as (i2 & o2' & Hi2 & Ho2 & Hid2).
    rewrite Hh1 in Ho1. rewrite Hh2 in Ho2.
    injection Ho1 as <-. injection Ho2 as <-.
    rewrite Hid1, Hid2. intros Heq. apply (inj pretty) in Heq.
    assert (i1 = i2) by lia. subst i2. congruence.
Qed.

Lemma Create_implicit_witness :
  implicitCreate (Sample.steady 10) None [0%nat; 1%nat] Sample.things Sample.start.
Proof.
  apply (Create_implicit (Sample.steady 10) None 0%nat [1%nat] Sample.start
           (Sample.thing "a" 0)).
  - reflexivity.
  - intros l Hl. apply elem_of_cons in Hl as [->|Hl]; [eexists; reflexivity|].
    apply list_elem_of_singleton in Hl as ->. eexists; reflexivity.
  - reflexivity.
  - reflexivity.
  - intros f o H. discriminate H.
  - vm_compute. constructor.
Defined.

Lemma Create_implicit_refused :
  length [0%nat; 1%nat] = 2%nat ∧ TransactionID Sample.refusing = "" ∧
  ¬ implicitCreate (Sample.steady 10) (Some Sample.refusing) [0%nat; 1%nat]
      Sample.things Sample.start.
Proof.
  split; [reflexivity|]. split; [reflexivity|].
  intros (_ & Hreg & _).
  apply (f_equal (lookup "0")) in Hreg. vm_compute in Hreg. discriminate Hreg.
Qed.

(** ** Delete *)

Lemma Reset_idempotent o :
  ResetDefaultForZeroValues (ResetDefaultForZeroValues o) = ResetDefaultForZeroValues o.
Proof.
  unfold ResetDefaultForZeroValues at 2.
  destruct (specification o) as [defaults|] eqn:E.
  - unfold ResetDefaultForZeroValues. cbn [specification]. rewrite E.
    cbn [identifier identity fields]. f_equal.
    apply map_eq. intros f. rewrite !map_lookup_imap.
    destruct (fields o !! f) as [v|]; [|reflexivity]. simpl.
    unfold resetField. destruct (isZero v) eqn:Hz.
    + destruct (defaults !! f) as [d|] eqn:Hd; simpl.
      * destruct (isZero d); reflexivity.
      * rewrite Hz. reflexivity.
    + simpl. rewrite Hz. reflexivity.
  - unfold ResetDefaultForZeroValues. rewrite E. reflexivity.
Qed.

Lemma removals_cons h (l : loc) rest o :
  h !! l = Some o → removals h (l :: rest) = OpRemove (identifier o) :: removals h rest.
Proof. intros H. unfold removals. simpl. rewrite H. reflexivity. Qed.

Lemma removals_reset h (l : loc) o (objects : list loc) :
  h !! l = Some o →
  removals (<[l := ResetDefaultForZeroValues o]> h) objects = removals h objects.
Proof.
  intros H. unfold removals. apply list_omap_ext, Forall_Forall2_diag, Forall_forall.
  intros x _. destruct (decide (l = x)) as [->|Hne].
  - rewrite lookup_insert_eq, H. simpl. rewrite Reset_identifier. reflexivity.
  - rewrite lookup_insert_ne by exact Hne. reflexivity.
Qed.

Lemma removals_each h (objects : list loc) :
  (∀ l, l ∈ objects → is_Some (h !! l)) →
  Forall2 (λ l op, ∃ o, h !! l = Some o ∧ op = OpRemove (identifier o))
    objects (removals h objects).
Proof.
  induction objects as [|l rest IH]; intros Hvalid; [constructor|].
  destruct (Hvalid l ltac:(left)) as [o Ho]. rewrite (removals_cons h l rest o Ho).
  constructor; [eauto|]. apply IH. intros x Hx. apply Hvalid. right. exact Hx.
Qed.

Lemma deleteObjects_spec key k (objects : list loc) :
  ∀ st t,
  transactions st !! key = Some t →
  (∀ l, l ∈ objects → is_Some (heap st !! l)) →
  ∃ h',
    deleteObjects key k objects st
    = (Done tt,
       {| heap := h';
          transactions := <[key := stageAll k (removals (heap st) objects) t]> (transactions st);
          events := events st; oids := oids st; tids := tids st; sids := sids st |}) ∧
    ∀ l, h' !! l = if decide (l ∈ objects)
                   then ResetDefaultForZeroValues <$> heap st !! l
                   else heap st !! l.
Proof.
  induction objects as [|l rest IH]; intros st t Ht Hvalid.
  - exists (heap st). simpl. rewrite (insert_id _ _ _ Ht).
    split; [destruct st; reflexivity|]. intros l.
    destruct (decide (l ∈ [])) as [H|]; [inversion H|reflexivity].
  - destruct (Hvalid l ltac:(left)) as [o Ho].
    cbn [deleteObjects]. unfold bind at 1, deref. rewrite Ho.
    unfold bind at 1. rewrite (withTransaction_registered _ _ t) by exact Ht.
    unfold bind at 1, store, set_heap, set_transactions.
    cbn [heap transactions events oids tids sids].
    match goal with |- context [deleteObjects key k rest ?s] => set (s1 := s) end.
    destruct (IH s1 (stageOp k (OpRemove (identifier o)) t)) as (h' & Hrun & Hheap).
    { apply lookup_insert_eq. }
    { intros x Hx. subst s1. cbn [heap]. apply lookup_insert_is_Some'. right.
      apply Hvalid. right. exact Hx. }
    exists h'. rewrite Hrun. subst s1. cbn [heap transactions events oids tids sids] in *.
    split.
    { rewrite insert_insert_eq, (removals_reset _ _ _ _ Ho), (removals_cons _ _ _ _ Ho).
      reflexivity. }
    intros x. rewrite Hheap. destruct (decide (x = l)) as [->|Hne].
    + rewrite lookup_insert_eq, Ho, (decide_True (P := l ∈ l :: rest)) by left.
      destruct (decide (l ∈ rest)); simpl; [rewrite Reset_idempotent|]; reflexivity.
    + rewrite lookup_insert_ne by congruence.
      destruct (decide (x ∈ rest)) as [Hin|Hnin].
      * rewrite decide_True by (right; exact Hin). reflexivity.
      * rewrite decide_False; [reflexivity|].
        intros H. apply elem_of_cons in H as [?|?]; contradiction.
Qed.

Lemma Delete_unfold mgo ctx (first : loc) (rest : list loc) st o0 :
  heap st !! first = Some o0 →
  let context := default NewContext ctx in
  Delete mgo ctx (first :: rest) st
  = match deleteObjects (keyOf context st) (identity o0) (first :: rest)
            (entered context (identity o0) st) with
    | (Done _, st2) =>
        if bool_decide (TransactionID context = "")
        then Commit mgo (id (enteredTx context st)) st2
        else (Done None, st2)
    | (Panic, st2) => (Panic, st2)
    end.
Proof.
  intros Ho context. unfold Delete. fold context.
  unfold bind at 1. rewrite retrieveTransaction_spec.
  unfold entered, enteredTx.
  destruct (transactions st !! keyOf context st) as [t|] eqn:Ht; cbn zeta iota beta.
  - unfold bind at 1, deref. cbn [heap]. rewrite Ho.
    unfold bind at 1.
    rewrite (withTransaction_registered _ _ t) by exact Ht.
    unfold set_transactions. cbn [heap transactions events oids tids sids].
    rewrite (bool_decide_eq_true_2 (is_Some (Some t))) by (eexists; reflexivity).
    rewrite app_nil_r.
    unfold bind at 1.
    destruct (deleteObjects _ _ _ _) as [[[]|] st2]; try reflexivity.
    destruct (bool_decide _); reflexivity.
  - unfold bind at 1, deref. cbn [heap]. rewrite Ho.
    unfold bind at 1.
    rewrite (withTransaction_registered _ _ {| id := keyOf context st; bulks := [];
                                              session := sids st |})
      by apply lookup_insert_eq.
    unfold set_transactions. cbn [heap transactions events oids tids sids].
    rewrite insert_insert_eq.
    rewrite (bool_decide_eq_false_2 (is_Some (@None transaction)))
      by (intros [? ?]; discriminate).
    unfold bind at 1.
    destruct (deleteObjects _ _ _ _) as [[[]|] st2]; try reflexivity.
    destruct (bool_decide _); reflexivity.
Qed.

Lemma Commit_heap mgo tid st : heap (Commit mgo tid st).2 = heap st.
Proof.
  destruct (transactions st !! tid) as [t|] eqn:Ht.
  - destruct (Commit_registered mgo tid t st Ht) as (r & runs & -> & _ & _). reflexivity.
  - rewrite (Commit_unknown mgo tid st Ht). reflexivity.
Qed.

(** C7.  A [Delete] of a non-empty list of objects stages one
    remove-by-identifier operation per object behind what the batch held,
    then commits if the transaction is implicit; and whatever the outcome,
    each object passed in has been through the default-value backport: a
    field that held the zero value and has a declared non-zero default
    holds that default when the call returns. *)
Theorem Delete_backports mgo ctx (first : loc) (rest : list loc) st o0 :
  heap st !! first = Some o0 →
  (∀ l, l ∈ first :: rest → is_Some (heap st !! l)) →
  let objects := first :: rest in
  let context := default NewContext ctx in
  let key := keyOf context st in
  let k := identity o0 in
  let out := Delete mgo ctx objects st in
  (∃ mid t ops,
     Forall2 (λ l op, ∃ o, heap st !! l = Some o ∧ op = OpRemove (identifier o)) objects ops ∧
     staged key k mid = staged key k st ++ ops ∧
     transactions mid !! key = Some t ∧
     out = if bool_decide (TransactionID context = "")
           then Commit mgo (id t) mid
           else (Done None, mid)) ∧
  (∀ l o, l ∈ objects → heap st !! l = Some o →
          heap out.2 !! l = Some (ResetDefaultForZeroValues o)) ∧
  (∀ l o defaults f d v,
     l ∈ objects → heap st !! l = Some o →
     specification o = Some defaults → defaults !! f = Some d → isZero d = false →
     fields o !! f = Some v → isZero v = true →
     ∃ o', heap out.2 !! l = Some o' ∧ fields o' !! f = Some d).
Proof.
  intros Ho Hvalid objects context key k out.
  destruct (deleteObjects_spec key k objects (entered context k st)
              (bulkForIdentity k (enteredTx context st)))
    as (h' & Hrun & Hheap).
  { apply lookup_insert_eq. }
  { exact Hvalid. }
  change (transactions (entered context k st))
    with (<[key := bulkForIdentity k (enteredTx context st)]> (transactions st)) in Hrun.
  change (heap (entered context k st)) with (heap st) in Hrun, Hheap.
  rewrite insert_insert_eq in Hrun.
  match type of Hrun with _ = (_, ?s) => set (mid := s) in * end.
  assert (Hout : out = if bool_decide (TransactionID context = "")
                       then Commit mgo (id (enteredTx context st)) mid
                       else (Done None, mid)).
  { unfold out, objects. rewrite (Delete_unfold mgo ctx first rest st o0 Ho).
    fold context key k objects. rewrite Hrun. reflexivity. }
  assert (Hfinal : heap out.2 = h').
  { rewrite Hout. destruct (bool_decide _); [rewrite Commit_heap|]; reflexivity. }
  assert (Hback : ∀ l o, l ∈ objects → heap st !! l = Some o →
                         heap out.2 !! l = Some (ResetDefaultForZeroValues o)).
  { intros l o Hl Hlo. rewrite Hfinal, Hheap, decide_True by exact Hl.
    rewrite Hlo. reflexivity. }
  split; [|split; [exact Hback|]].
  - exists mid, (stageAll k (removals (heap st) objects)
                   (bulkForIdentity k (enteredTx context st))),
      (removals (heap st) objects).
    split; [apply removals_each, Hvalid|].
    split; [apply staged_after|].
    split; [apply lookup_insert_eq|].
    rewrite Hout.
    destruct (stageAll_fields k (removals (heap st) objects)
                (bulkForIdentity k (enteredTx context st))) as (-> & _ & _).
    destruct (bulkForIdentity_fields k (enteredTx context st)) as [-> _]. reflexivity.
  - intros l o defaults f d v Hl Hlo Hs Hd _ Hv Hz.
    exists (ResetDefaultForZeroValues o). split; [apply Hback; assumption|].
    apply (Reset_restores o defaults f d v); assumption.
Qed.

(** ** Empty object lists *)

(** C9.  [Create] with no object panics, whereas [Update], [Delete] and
    [Retrieve] with no object return nil and leave the registry, the batches
    and the log as they were. *)
Theorem empty_object_list mgo CF ctx st :
  (Create mgo ctx [] st).1 = Panic ∧
  Update mgo ctx [] st = (Done None, st) ∧
  Delete mgo ctx [] st = (Done None, st) ∧
  Retrieve mgo CF ctx [] st = (Done None, st).
Proof.
  split; [|split; [|split]]; try reflexivity.
  unfold Create, bind. rewrite retrieveTransaction_spec.
  destruct (transactions st !! keyOf (default NewContext ctx) st); reflexivity.
Qed.

(** ** The model at work *)

Lemma Create_finalizer_failure_witness :
  let out := Create (Sample.steady 10) (Some Sample.choosy) [0%nat; 1%nat] Sample.start in
  out.1 = Done (Some (ErrCustom "refused")) ∧
  staged "tx" Sample.things out.2 = [OpInsert 0%nat].
Proof.
  pose proof (Create_finalizer_failure (Sample.steady 10) (Some Sample.choosy)
                0%nat [1%nat] Sample.start (Sample.thing "a" 0) 1%nat
                (SetIdentifier "1" (Sample.thing "b" 5)) (ErrCustom "refused")
                eq_refl ltac:(valid_locs) eq_refl) as (H1 & _ & _ & _ & H5 & _).
  split; [exact H1|exact H5].
Defined.

Lemma Create_implicit_leak_witness :
  let out := Create (Sample.steady 10) (Some Sample.refusing) [0%nat; 1%nat] Sample.start in
  out.1 = Done (Some (ErrCustom "refused")) ∧
  ∃ t, transactions out.2 !! "0" = Some t ∧ session t = 0%nat.
Proof.
  pose proof (Create_implicit_leak (Sample.steady 10) (Some Sample.refusing)
                0%nat [1%nat] Sample.start (Sample.thing "a" 0) 0%nat
                (SetIdentifier "0" (Sample.thing "a" 0)) (ErrCustom "refused")
                eq_refl ltac:(valid_locs) eq_refl eq_refl eq_refl)
    as (H1 & (t & Ht & _ & Hs & _) & _).
  split; [exact H1|]. exists t. split; [exact Ht|exact Hs].
Defined.

Lemma Delete_backports_witness :
  let out := Delete (Sample.steady 10) None [0%nat; 1%nat] Sample.start in
  ∃ o', heap out.2 !! 0%nat = Some o' ∧ fields o' !! "count" = Some (VInt 7).
Proof.
  pose proof (Delete_backports (Sample.steady 10) None 0%nat [1%nat] Sample.start
                (Sample.thing "a" 0) eq_refl ltac:(valid_locs)) as (_ & _ & H).
  apply (H 0%nat (Sample.thing "a" 0) {[ "count" := VInt 7 ]} "count" (VInt 7) (VInt 0));
    try reflexivity.
  left.
Defined.

Lemma Retrieve_lookups_witness :
  let out := Retrieve Demo.halfway Sample.noFilter None [0%nat; 1%nat] Sample.start in
  ∃ r answers,
    out.1 = Done r ∧
    lookups (since Sample.start out.2) = answers ∧
    heap out.2 = lookedUp (heap Sample.start) [0%nat; 1%nat] answers ∧
    (∀ o doc,
       heap Sample.start !! 0%nat = Some o → answers !! 0%nat = Some (Some doc, None) →
       ∃ o', heap out.2 !! 0%nat = Some o' ∧ restoredFrom doc o o' ∧ defaultsRestored o').
Proof.
  destruct (Retrieve_lookups Demo.halfway Sample.noFilter None [0%nat; 1%nat] Sample.start
              ltac:(discriminate) ltac:(valid_locs))
    as (r & answers & H1 & H2 & _ & H4 & H5 & _).
  exists r, answers. split; [exact H1|]. split; [exact H2|]. split; [exact H4|].
  intros o doc Ho Ha. apply (H5 0%nat 0%nat o doc eq_refl); [|exact Ho|exact Ha].
  intros [|[|j]] Hj; [reflexivity|discriminate Hj|discriminate Hj].
Defined.

(** The first object is found and holds what was found, with the declared
    default in place of the zero the document gave; the second is not found
    and stays as it was. *)
Example found_then_missing :
  let out := Retrieve Demo.halfway Sample.noFilter None [0%nat; 1%nat] Sample.start in
  out.1 = Done (Some (ErrObjectNotFound "cannot find the object for the given ID")) ∧
  lookups (since Sample.start out.2)
  = [(Some {[ "_id" := VString "a"; "count" := VInt 0; "colour" := VString "red" ]}, None);
     (None, Some mgoErrNotFound)] ∧
  heap out.2 !! 0%nat = Some (Sample.thing "a" 7) ∧
  heap out.2 !! 1%nat = Some (Sample.thing "b" 5).
Proof. vm_compute. auto. Qed.

(** A lookup that fails once the driver has decoded what it received leaves
    the object as the driver wrote it, without the backport. *)
Example failed_lookup_overwrites :
  let out := Retrieve Demo.halfway Sample.noFilter None [1%nat] Demo.lost in
  out.1 = Done (Some (ErrCannotExecuteQuery "cursor lost")) ∧
  heap Demo.lost !! 1%nat = Some (Sample.thing "c" 5) ∧
  heap out.2 !! 1%nat = Some (Sample.thing "" 0).
Proof. vm_compute. auto. Qed.

(** Scenario D: the object is restored in memory while the backend receives
    a removal and nothing else. *)
Example scenario_D :
  let out := Delete (Sample.steady 10) None [0%nat] Sample.start in
  out.1 = Done None ∧
  since Sample.start out.2
  = [SessionCopy 0%nat; BulkRun Sample.things [WRemove "a"] None; SessionClose 0%nat] ∧
  (heap out.2 !! 0%nat) ≫= (λ o, fields o !! "count") = Some (VInt 7).
Proof. vm_compute. auto. Qed.

(** Scenario C on two objects. *)
Example scenario_C :
  let out := Create (Sample.steady 10) None [0%nat; 1%nat] Sample.start in
  out.1 = Done None ∧
  transactions out.2 = ∅ ∧
  identifier <$> heap out.2 !! 0%nat = Some "0" ∧
  identifier <$> heap out.2 !! 1%nat = Some "1" ∧
  since Sample.start out.2
  = [SessionCopy 0%nat;
     BulkRun Sample.things
       [WInsert (Some (SetIdentifier "0" (Sample.thing "a" 0)));
        WInsert (Some (SetIdentifier "1" (Sample.thing "b" 5)))] None;
     SessionClose 0%nat].
Proof. vm_compute. auto 6. Qed.

(** Scenario E: the state is untouched. *)
Example scenario_E :
  Commit (Sample.steady 10) "never" Sample.pending = (Done (Some notFound), Sample.pending).
Proof. reflexivity. Qed.

(** A lookup that matches nothing. *)
Example lookup_not_found :
  (Retrieve Sample.picky Sample.noFilter None [0%nat; 1%nat] Sample.start).1
  = Done (Some (ErrObjectNotFound "cannot find the object for the given ID")).
Proof. reflexivity. Qed.

(** A finalizer receives the object by reference: one that renames what it
    is given leaves both objects with the same identifier. *)
Example finalizer_overrides_identifier :
  let out := Create (Sample.steady 10) (Some Sample.renaming) [0%nat; 1%nat] Sample.start in
  out.1 = Done None ∧
  identifier <$> heap out.2 !! 0%nat = Some "same" ∧
  identifier <$> heap out.2 !! 1%nat = Some "same".
Proof. vm_compute. auto. Qed.

(** * Further properties of the manipulator *)

(** ** Forward and reverse pages *)

(** X2.  The reverse pages 1, 2, ... tile the result set from its end: page p
    stops where page p-1 starts (page 1 stops at N), no page is empty or longer
    than S, the page that reaches the front starts at 0, and beyond the last
    page there is nothing to fetch. *)
Theorem reversePage_tiles N S p :
  0 <= N <= GoInt.max_int → 0 < S → 1 <= p → p * S <= GoInt.max_int →
  if p <=? ceilDiv N S
  then ∃ skip limit,
         reversePage N (- p) S = Done (Some (skip, limit)) ∧
         skip = Z.max 0 (N - p * S) ∧
         skip + limit = N - (p - 1) * S ∧
         0 < limit <= S
  else reversePage N (- p) S = Done None.
Proof.
  intros HN HS Hp Hfit.
  rewrite (reversePage_refines N (- p) S) by (rewrite ?Z.opp_involutive; lia).
  unfold reverseWindow. rewrite Z.opp_involutive.
  pose proof (ceilDiv_spec N S HS) as [Hc1 Hc2].
  pose proof (Z.div_mod N S ltac:(lia)) as Hdm.
  pose proof (Z.mod_pos_bound N S HS) as Hmod.
  destruct (Z.leb_spec p (ceilDiv N S)) as [Hle|Hgt].
  - destruct (Z.leb_spec 0 (N - p * S)) as [Hpos|Hneg].
    + exists (N - p * S), S. split; [reflexivity|]. lia.
    + destruct (Z.ltb_spec (ceilDiv N S) p); [lia|].
      exists 0, (N mod S). split; [reflexivity|].
      assert (p = ceilDiv N S) by nia. subst p.
      assert (ceilDiv N S = N / S + 1) by nia.
      split; [lia|]. split; nia.
  - destruct (Z.leb_spec 0 (N - p * S)) as [Hpos|Hneg]; [nia|].
    destruct (Z.ltb_spec (ceilDiv N S) p); [reflexivity|lia].
Qed.

Lemma reversePage_tiles_witness :
  ∃ skip limit,
    reversePage 10 (- 4) 3 = Done (Some (skip, limit)) ∧
    skip = Z.max 0 (10 - 4 * 3) ∧ skip + limit = 10 - (4 - 1) * 3 ∧ 0 < limit <= 3.
Proof.
  apply (reversePage_tiles 10 3 4); unfold GoInt.max_int; lia.
Defined.

(** ** What [RetrieveMany] does to the destination and to the heap *)

Lemma fresh_unallocated (h : gmap loc Object) : h !! fresh (dom h) = None.
Proof. apply not_elem_of_dom, is_fresh. Qed.

Lemma slotTarget_cases slots (h : gmap loc Object) :
  (∃ t, slots = Some (slotTarget slots h) :: t) ∨
  (slotTarget slots h = fresh (dom h) ∧ ∀ l, Some l ∈ slots → Some l ∈ tail slots).
Proof.
  destruct slots as [|[l|] t]; cbn [slotTarget tail].
  - right. split; [reflexivity|auto].
  - left. eauto.
  - right. split; [reflexivity|]. intros l Hl.
    apply elem_of_cons in Hl as [?|Hl]; [discriminate|exact Hl].
Qed.

Lemma elem_of_tail {A} (x : A) l : x ∈ tail l → x ∈ l.
Proof. destruct l; [auto|]. cbn [tail]. intros H. apply elem_of_cons. right. exact H. Qed.

Lemma decodeAll_length zero docs :
  ∀ slots h ls rest h',
  decodeAll zero slots docs h = (ls, rest, h') →
  length ls = length docs ∧ rest = drop (length docs) slots.
Proof.
  induction docs as [|doc docs IH]; intros slots h ls rest h' E; cbn [decodeAll] in E.
  - injection E as <- <- <-. auto.
  - destruct (decodeAll zero (tail slots) docs _) as [[ls0 rest0] h0] eqn:E0.
    injection E as <- <- <-. destruct (IH _ _ _ _ _ E0) as [Hlen ->].
    cbn [length]. split; [lia|]. destruct slots; cbn [tail]; [rewrite !drop_nil|];
      reflexivity.
Qed.

(** The slots that hold a pointer are filled through that pointer. *)
Lemma decodeAll_reuse zero docs :
  ∀ slots h ls rest h' i (l : loc),
  decodeAll zero slots docs h = (ls, rest, h') →
  slots !! i = Some (Some l) → (i < length docs)%nat → ls !! i = Some l.
Proof.
  induction docs as [|doc docs IH]; intros slots h ls rest h' i l E Hi Hlt;
    cbn [decodeAll length] in *; [lia|].
  destruct (decodeAll zero (tail slots) docs _) as [[ls0 rest0] h0] eqn:E0.
  injection E as <- <- <-. destruct slots as [|s t]; [discriminate|].
  destruct i as [|i].
  - injection Hi as ->. reflexivity.
  - cbn [tail] in E0. apply (IH _ _ _ _ _ i l E0 Hi). lia.
Qed.

(** What is filled is a slot of the destination or was not allocated. *)
Lemma decodeAll_origin zero docs :
  ∀ slots h ls rest h' (l : loc),
  decodeAll zero slots docs h = (ls, rest, h') →
  l ∈ ls → Some l ∈ slots ∨ h !! l = None.
Proof.
  induction docs as [|doc docs IH]; intros slots h ls rest h' l E Hl; cbn [decodeAll] in E.
  - injection E as <- <- <-. inversion Hl.
  - destruct (decodeAll zero (tail slots) docs _) as [[ls0 rest0] h0] eqn:E0.
    injection E as <- <- <-. apply elem_of_cons in Hl as [->|Hl].
    + destruct (slotTarget_cases slots h) as [[t Ht]|[Hf _]].
      * left. rewrite Ht at 2. left.
      * right. rewrite Hf. apply fresh_unallocated.
    + destruct (IH _ _ _ _ _ l E0 Hl) as [Hin|Hnone].
      * left. apply elem_of_tail, Hin.
      * destruct (decide (l = slotTarget slots h)) as [->|Hne].
        -- rewrite lookup_insert_eq in Hnone. discriminate.
        -- right. rewrite lookup_insert_ne in Hnone by congruence. exact Hnone.
Qed.

(** An object that no slot points to is left alone. *)
Lemma decodeAll_frame zero docs :
  ∀ slots h ls rest h' (l : loc),
  decodeAll zero slots docs h = (ls, rest, h') →
  is_Some (h !! l) → Some l ∉ slots → h' !! l = h !! l.
Proof.
  induction docs as [|doc docs IH]; intros slots h ls rest h' l E Hl Hout; cbn [decodeAll] in E.
  - injection E as <- <- <-. reflexivity.
  - destruct (decodeAll zero (tail slots) docs _) as [[ls0 rest0] h0] eqn:E0.
    injection E as <- <- <-.
    assert (Hne : slotTarget slots h ≠ l).
    { intros <-. destruct (slotTarget_cases slots h) as [[t Ht]|[Hf _]].
      - apply Hout. rewrite Ht at 2. left.
      - rewrite Hf, fresh_unallocated in Hl. destruct Hl; discriminate. }
    rewrite (IH _ _ _ _ _ l E0).
    + apply lookup_insert_ne, Hne.
    + rewrite lookup_insert_ne by exact Hne. exact Hl.
    + intros Hin. apply Hout, elem_of_tail, Hin.
Qed.

Lemma sound_tail slots (h : gmap loc Object) o :
  sound slots h →
  (Some (slotTarget slots h) ∉ tail slots) ∧
  sound (tail slots) (<[slotTarget slots h := o]> h).
Proof.
  intros [Hnd Hall]. split.
  - intros Hin. destruct (slotTarget_cases slots h) as [[t Ht]|[Hf _]].
    + rewrite Ht in Hnd, Hin. cbn [omap list_omap Datatypes.id tail] in *.
      apply NoDup_cons in Hnd as [Hnot _]. apply Hnot.
      apply list_elem_of_omap. eexists. split; [exact Hin|reflexivity].
    + destruct (Hall _ (elem_of_tail _ _ Hin)) as [x Hx].
      rewrite Hf, fresh_unallocated in Hx. discriminate.
  - split.
    + destruct slots as [|[l0|] t]; cbn [tail omap list_omap Datatypes.id] in *;
        [exact Hnd|apply NoDup_cons in Hnd as [_ Hnd]; exact Hnd|exact Hnd].
    + intros l' Hl'. apply lookup_insert_is_Some'. right. apply Hall, elem_of_tail, Hl'.
Qed.

(** On a sound destination the [i]-th element that is filled holds the
    [i]-th document, read into the object its slot pointed to, and it is no
    slot that is left over. *)
Lemma decodeAll_filled zero docs :
  ∀ slots h ls rest h',
  decodeAll zero slots docs h = (ls, rest, h') →
  sound slots h →
  (∀ l, l ∈ ls → Some l ∉ rest) ∧
  ∀ i doc, docs !! i = Some doc →
    ∃ l, ls !! i = Some l ∧ h' !! l = Some (decodeInto (slotObject zero slots h i) doc).
Proof.
  induction docs as [|doc docs IH]; intros slots h ls rest h' E Hs; cbn [decodeAll] in E.
  - injection E as <- <- <-. split; [intros l Hl; inversion Hl|intros i d Hd; discriminate].
  - destruct (decodeAll zero (tail slots) docs _) as [[ls0 rest0] h0] eqn:E0.
    injection E as <- <- <-.
    set (l0 := slotTarget slots h) in *.
    set (o0 := decodeInto (default zero (h !! l0)) doc) in *.
    destruct (sound_tail slots h o0 Hs) as [Hnot Hs']. fold l0 in Hnot, Hs'.
    destruct (IH _ _ _ _ _ E0 Hs') as [Hrest Hdocs].
    destruct (decodeAll_length _ _ _ _ _ _ _ E0) as [_ Hdrop].
    split.
    + intros l Hl. apply elem_of_cons in Hl as [->|Hl]; [|apply Hrest, Hl].
      intros Hin. apply Hnot. rewrite Hdrop in Hin. eapply subseteq_drop, Hin.
    + intros [|i] d Hd.
      * injection Hd as ->. exists l0. split; [reflexivity|].
        rewrite (decodeAll_frame _ _ _ _ _ _ _ l0 E0).
        -- rewrite lookup_insert_eq. f_equal. subst o0. f_equal. unfold slotObject.
           destruct (slotTarget_cases slots h) as [[t Ht]|[Hf _]]; fold l0 in Ht || fold l0 in Hf.
           ++ rewrite Ht. reflexivity.
           ++ rewrite Hf, fresh_unallocated.
              destruct slots as [|[l1|] t]; [reflexivity| |reflexivity].
              cbn [slotTarget] in l0. subst l0. cbn [slotTarget] in Hf.
              destruct Hs as [_ Hall]. destruct (Hall l1 ltac:(left)) as [x Hx].
              rewrite Hf, fresh_unallocated in Hx. discriminate.
        -- rewrite lookup_insert_eq. eauto.
        -- exact Hnot.
      * destruct (Hdocs i d Hd) as (l & Hl & Hh). exists l. split; [exact Hl|].
        rewrite Hh. f_equal. f_equal. unfold slotObject.
        destruct slots as [|s t]; [reflexivity|]. cbn [tail lookup list_lookup].
        change ((s :: t) !! S i) with (t !! i).
        destruct (t !! i) as [[l1|]|] eqn:Hi; [|reflexivity|reflexivity].
        rewrite lookup_insert_ne; [reflexivity|].
        intros Heq. apply Hnot. cbn [tail]. rewrite Heq.
        apply list_elem_of_lookup. eauto.
Qed.

Lemma omap_Some {A} (l : list A) : omap Datatypes.id (Some <$> l) = l.
Proof. induction l as [|x l IH]; [reflexivity|]. cbn. rewrite IH. reflexivity. Qed.

Lemma restoreAll_lookup (ls : list loc) :
  ∀ h l,
  restoreAll (Some <$> ls) h !! l
  = if decide (l ∈ ls) then ResetDefaultForZeroValues <$> h !! l else h !! l.
Proof.
  induction ls as [|l0 ls IH]; intros h l.
  - rewrite decide_False by (intros H; inversion H). reflexivity.
  - cbn [fmap list_fmap]. rewrite restoreAll_cons, IH.
    destruct (decide (l = l0)) as [->|Hne].
    + rewrite lookup_alter_eq, (decide_True (P := l0 ∈ l0 :: ls)) by left.
      destruct (decide (l0 ∈ ls)); [|reflexivity].
      destruct (h !! l0); [|reflexivity]. cbn. rewrite Reset_idempotent. reflexivity.
    + rewrite lookup_alter_ne by congruence.
      destruct (decide (l ∈ ls)) as [Hin|Hout].
      * rewrite decide_True by (right; exact Hin). reflexivity.
      * rewrite decide_False; [reflexivity|].
        intros Hin. apply elem_of_cons in Hin as [?|?]; contradiction.
Qed.

(** [IterAll] taken apart. *)
Lemma IterAll_unfold dest r h :
  ∃ ls rest h1,
    decodeAll (Element dest) (List dest ++ Spare dest) r.1 h = (ls, rest, h1) ∧
    IterAll dest r h
    = ({| ContentIdentity := ContentIdentity dest; Element := Element dest;
          List := Some <$> ls;
          Spare := (decodeBroken (Element dest) rest (r.2 ≫= snd) h1).1 |},
       (decodeBroken (Element dest) rest (r.2 ≫= snd) h1).2).
Proof.
  unfold IterAll. destruct (decodeAll _ _ _ _) as [[ls rest] h1].
  exists ls, rest, h1. split; [reflexivity|].
  destruct (decodeBroken _ _ _ _). reflexivity.
Qed.

Lemma decodeBroken_frame zero rest broken (h : gmap loc Object) (l : loc) :
  is_Some (h !! l) → Some l ∉ rest → (decodeBroken zero rest broken h).2 !! l = h !! l.
Proof.
  intros Hl Hout. unfold decodeBroken. destruct broken as [doc|]; [|reflexivity].
  destruct rest as [|s rest']; [reflexivity|]. cbn [snd].
  apply lookup_insert_ne. intros Heq.
  destruct (slotTarget_cases (s :: rest') h) as [[t Ht]|[Hf _]].
  - apply Hout. rewrite Ht, Heq. left.
  - rewrite <- Heq, Hf, fresh_unallocated in Hl. destruct Hl; discriminate.
Qed.

(** What a fetch leaves outside the destination, and what it hands back. *)
Lemma fetched_frame dest r (h : gmap loc Object) (l : loc) :
  is_Some (h !! l) → l ∉ pointers dest → (fetched dest r h).2 !! l = h !! l.
Proof.
  intros Hl Hout. unfold fetched.
  destruct (IterAll_unfold dest r h) as (ls & rest & h1 & E & ->). cbn [fst snd List].
  assert (Hslot : Some l ∉ List dest ++ Spare dest).
  { intros Hin. apply Hout. unfold pointers. apply list_elem_of_omap.
    eexists. split; [exact Hin|reflexivity]. }
  pose proof (decodeAll_frame _ _ _ _ _ _ _ l E Hl Hslot) as Hh1.
  destruct (decodeAll_length _ _ _ _ _ _ _ E) as [_ Hdrop].
  assert (Hb : (decodeBroken (Element dest) rest (r.2 ≫= snd) h1).2 !! l = h !! l).
  { rewrite decodeBroken_frame; [exact Hh1|rewrite Hh1; exact Hl|].
    intros Hin. apply Hslot. rewrite Hdrop in Hin. eapply subseteq_drop, Hin. }
  destruct (r.2) as [failure|]; cbn [snd]; [exact Hb|].
  rewrite restoreAll_lookup, decide_False; [exact Hb|].
  intros Hin. destruct (decodeAll_origin _ _ _ _ _ _ _ l E Hin) as [?|Hnone]; [contradiction|].
  rewrite Hnone in Hl. destruct Hl; discriminate.
Qed.

Lemma fetched_result dest r (h : gmap loc Object) :
  let out := fetched dest r h in
  out.1.2 = (λ failure, ErrCannotExecuteQuery (mgoErrorText failure.1)) <$> r.2 ∧
  ContentIdentity out.1.1 = ContentIdentity dest ∧
  length (List out.1.1) = length r.1 ∧
  (∀ i (l : loc), (List dest ++ Spare dest) !! i = Some (Some l) → (i < length r.1)%nat →
                List out.1.1 !! i = Some (Some l)).
Proof.
  cbv zeta. unfold fetched.
  destruct (IterAll_unfold dest r h) as (ls & rest & h1 & E & ->). cbn [fst snd].
  destruct (decodeAll_length _ _ _ _ _ _ _ E) as [Hlen _].
  assert (Hreuse : ∀ i (l : loc), (List dest ++ Spare dest) !! i = Some (Some l) →
                     (i < length r.1)%nat → (Some <$> ls) !! i = Some (Some l)).
  { intros i l Hi Hlt. rewrite list_lookup_fmap, (decodeAll_reuse _ _ _ _ _ _ _ _ _ E Hi Hlt).
    reflexivity. }
  destruct (r.2) as [failure|]; cbn [fst snd List ContentIdentity fmap option_fmap option_map];
    rewrite length_fmap; auto.
Qed.

Lemma fetched_documents dest r (h : gmap loc Object) i doc :
  sound (List dest ++ Spare dest) h →
  r.1 !! i = Some doc →
  let out := fetched dest r h in
  ∃ l o',
    List out.1.1 !! i = Some (Some l) ∧ out.2 !! l = Some o' ∧
    match r.2 with
    | None => o' = ResetDefaultForZeroValues (decodeInto (target dest h i) doc)
    | Some _ => o' = decodeInto (target dest h i) doc
    end.
Proof.
  intros Hs Hdoc. cbv zeta. unfold fetched.
  destruct (IterAll_unfold dest r h) as (ls & rest & h1 & E & ->). cbn [fst snd].
  destruct (decodeAll_filled _ _ _ _ _ _ _ E Hs) as [Hrest Hdocs].
  destruct (decodeAll_allocated _ _ _ _ _ _ _ E) as [Halloc _].
  destruct (Hdocs i doc Hdoc) as (l & Hl & Hh).
  assert (Hin : l ∈ ls) by (apply list_elem_of_lookup; eauto).
  assert (HL : (Some <$> ls) !! i = Some (Some l)) by (rewrite list_lookup_fmap, Hl; reflexivity).
  change (slotObject (Element dest) (List dest ++ Spare dest) h i) with (target dest h i) in Hh.
  destruct (r.2) as [failure|]; cbn [fst snd List].
  - exists l, (decodeInto (target dest h i) doc). split; [exact HL|]. split; [|reflexivity].
    rewrite decodeBroken_frame; [exact Hh|apply Halloc, Hin|apply Hrest, Hin].
  - exists l, (ResetDefaultForZeroValues (decodeInto (target dest h i) doc)).
    split; [exact HL|]. split; [|reflexivity].
    rewrite restoreAll_lookup, decide_True by exact Hin. cbn [mbind option_bind decodeBroken snd].
    rewrite Hh. reflexivity.
Qed.

(** Every run of [RetrieveMany]: an optional count round-trip in a session
    of its own, then at most one query, all between the copy and the close
    of the call's session; without a query the destination and the heap are
    as they were, with one they are what [fetched] says. *)
Lemma RetrieveMany_shape mgo CF ctx dest st :
  let c := ContentIdentity dest in
  let q := compiled CF (default NewContext ctx) in
  ∃ counted queried res h' n,
    RetrieveMany mgo CF ctx dest st
    = (Done res,
       {| heap := h'; transactions := transactions st;
          events := events st
                    ++ SessionCopy (sids st) :: counted ++ queried ++ [SessionClose (sids st)];
          oids := oids st; tids := tids st; sids := n |}) ∧
    (counted = [] ∨
     ∃ r, counted = [SessionCopy (S (sids st)); QueryCount c q r; SessionClose (S (sids st))]) ∧
    ((queried = [] ∧ h' = heap st ∧
      (res = (dest, None) ∨ ∃ msg, res = (dest, Some (ErrCannotExecuteQuery msg)))) ∨
     (∃ w r, queried = [QueryAll c q w r] ∧ (res, h') = fetched dest r (heap st))).
Proof.
  intros c q. subst c q.
  destruct ((Page (default NewContext ctx) =? 0) || (PageSize (default NewContext ctx) =? 0))
    eqn:G.
  - rewrite (RetrieveMany_unpaged mgo CF ctx dest st G), queryAll_handBack.
    exists []. eexists [_]. eexists _, _, _.
    split; [unfold sessionClose, log; cbn [heap transactions events oids tids sids];
            rewrite <- !app_assoc; reflexivity|].
    split; [left; reflexivity|]. right. eexists _, _. split; [reflexivity|].
    cbn [heap]. destruct (fetched _ _ _); reflexivity.
  - pose proof G as G'. apply orb_false_iff in G' as [_ HS]. apply Z.eqb_neq in HS.
    destruct (Page (default NewContext ctx) >? 0) eqn:G2.
    + rewrite (RetrieveMany_forward mgo CF ctx dest st G G2), queryAll_handBack.
      exists []. eexists [_]. eexists _, _, _.
      split; [unfold sessionClose, log; cbn [heap transactions events oids tids sids];
              rewrite <- !app_assoc; reflexivity|].
      split; [left; reflexivity|]. right. eexists _, _. split; [reflexivity|].
      cbn [heap]. destruct (fetched _ _ _); reflexivity.
    + rewrite (RetrieveMany_reverse mgo CF ctx dest st G G2).
      destruct (mgoCount mgo _ _ _) as [e|n] eqn:Ec.
      * eexists [_; _; _], [], _, _, _.
        split; [unfold sessionClose, log; cbn [heap transactions events oids tids sids];
                rewrite <- !app_assoc; reflexivity|].
        split; [right; eexists; reflexivity|].
        left. split; [reflexivity|]. split; [reflexivity|]. right. eexists. reflexivity.
      * pose proof (reversePage_no_panic n (Page (default NewContext ctx)) _ HS) as NP.
        destruct (reversePage n _ _) as [[[skip limit]|]|]; [| |contradiction].
        -- rewrite queryAll_handBack.
           eexists [_; _; _], [_], _, _, _.
           split; [unfold sessionClose, log; cbn [heap transactions events oids tids sids];
                   rewrite <- !app_assoc; reflexivity|].
           split; [right; eexists; reflexivity|].
           right. eexists _, _. split; [reflexivity|].
           cbn [heap]. destruct (fetched _ _ _); reflexivity.
        -- eexists [_; _; _], [], _, _, _.
           split; [unfold sessionClose, log; cbn [heap transactions events oids tids sids];
                   rewrite <- !app_assoc; reflexivity|].
           split; [right; eexists; reflexivity|].
           left. split; [reflexivity|]. split; [reflexivity|]. left. reflexivity.
Qed.

(** X1.  A forward page P > 0 with a positive page size is fetched with
    one query, skipping the P-1 pages before it, without counting first.  The
    call hands back the destination as the iteration left it, with one
    element per document that was delivered whether the iteration failed or
    not, and reports the failure of the iteration, if any, as
    CannotExecuteQuery with the driver's text. *)
Theorem RetrieveMany_forward_page mgo CF ctx dest st :
  0 < Page ctx → 0 < PageSize ctx →
  (Page ctx - 1) * PageSize ctx <= GoInt.max_int →
  let c := ContentIdentity dest in
  let q := compiled CF ctx in
  let out := RetrieveMany mgo CF (Some ctx) dest st in
  ∃ r dest',
    since st out.2
    = [SessionCopy (sids st);
       QueryAll c q (Some ((Page ctx - 1) * PageSize ctx, PageSize ctx)) r;
       SessionClose (sids st)] ∧
    out.1 = Done (dest', reported r) ∧
    length (List dest') = length r.1 ∧
    ((dest', reported r), heap out.2) = fetched dest r (heap st).
Proof.
  intros HP HS Hfit c q out. subst out c q.
  rewrite (RetrieveMany_forward mgo CF (Some ctx) dest st); cbn [default from_option];
    unfold Datatypes.id.
  2:{ destruct (Z.eqb_spec (Page ctx) 0); [lia|].
      destruct (Z.eqb_spec (PageSize ctx) 0); [lia|]. reflexivity. }
  2:{ destruct (Z.gtb_spec (Page ctx) 0); [reflexivity|lia]. }
  assert (Hskip : GoInt.mul (GoInt.sub (Page ctx) 1) (PageSize ctx)
                  = (Page ctx - 1) * PageSize ctx).
  { unfold GoInt.mul, GoInt.sub.
    rewrite (wrap_id (Page ctx - 1))
      by (unfold GoInt.in_range, GoInt.min_int, GoInt.max_int in *; nia).
    apply wrap_id. unfold GoInt.in_range, GoInt.min_int, GoInt.max_int in *. nia. }
  rewrite Hskip, queryAll_handBack. cbn [fst snd heap events].
  set (r := mgoAll mgo _ _ _ _).
  pose proof (fetched_result dest r (heap st)) as (He & _ & Hlen & _).
  destruct (fetched dest r (heap st)) as [[dest' e] h'] eqn:E. cbn [fst snd] in *.
  exists r, dest'. unfold reported. rewrite <- He, E.
  split; [apply since_app; unfold sessionClose, log; cbn [events]; rewrite <- !app_assoc;
          reflexivity|].
  split; [reflexivity|]. split; [exact Hlen|reflexivity].
Qed.

Lemma RetrieveMany_forward_page_witness :
  ∃ r dest',
    since Sample.start
      (RetrieveMany Demo.stocked Sample.noFilter (Some (Sample.paging 2 3))
         Demo.shelf Sample.start).2
    = [SessionCopy 0%nat; QueryAll Sample.things ∅ (Some (3, 3)) r; SessionClose 0%nat] ∧
    (RetrieveMany Demo.stocked Sample.noFilter (Some (Sample.paging 2 3))
       Demo.shelf Sample.start).1 = Done (dest', reported r) ∧
    length (List dest') = length r.1.
Proof.
  destruct (RetrieveMany_forward_page Demo.stocked Sample.noFilter (Sample.paging 2 3)
              Demo.shelf Sample.start) as (r & dest' & H1 & H2 & H3 & _).
  - reflexivity.
  - reflexivity.
  - unfold GoInt.max_int. simpl. lia.
  - exists r, dest'. split; [exact H1|]. split; [exact H2|exact H3].
Defined.

(** A failing iteration leaves the destination truncated to what it
    delivered; the pointer the slice held stays in its backing array. *)
Example failed_query_truncates :
  (RetrieveMany Demo.down Sample.noFilter None Demo.shelf Sample.start).1
  = Done ({| ContentIdentity := Sample.things; Element := Sample.thing "" 0;
             List := []; Spare := [Some 0%nat] |},
          Some (ErrCannotExecuteQuery "connection reset")).
Proof. vm_compute. reflexivity. Qed.

(** The first document is read into the object the destination pointed to,
    the second into a new one, and the backport fills the field the second
    document left out. *)
Example fetch_reuses_pointers :
  let out := RetrieveMany Demo.stocked Sample.noFilter None Demo.shelf Sample.start in
  out.1 = Done ({| ContentIdentity := Sample.things; Element := Sample.thing "" 0;
                   List := [Some 0%nat; Some 2%nat]; Spare := [] |}, None) ∧
  heap out.2 !! 0%nat = Some (Sample.thing "x" 3) ∧
  heap out.2 !! 1%nat = Some (Sample.thing "b" 5) ∧
  heap out.2 !! 2%nat = Some (Sample.thing "y" 7).
Proof. vm_compute. auto. Qed.

Lemma release_head (s : Session) l :
  filter (λ x, x ≠ s) (s :: l) = filter (λ x, x ≠ s) l.
Proof. apply filter_cons_False. intros H. apply H. reflexivity. Qed.

Lemma release_keep (s x : Session) l :
  x ≠ s → filter (λ x, x ≠ s) (x :: l) = x :: filter (λ x, x ≠ s) l.
Proof. intros H. apply filter_cons_True, H. Qed.

Lemma fetches_app tr1 tr2 : fetches (tr1 ++ tr2) = fetches tr1 ++ fetches tr2.
Proof. apply omap_app. Qed.

(** The fetch queries of a run of [RetrieveMany], read off its shape. *)
Lemma RetrieveMany_fetches mgo CF ctx dest st :
  let out := RetrieveMany mgo CF ctx dest st in
  ∃ res,
    out.1 = Done res ∧
    transactions out.2 = transactions st ∧ oids out.2 = oids st ∧ tids out.2 = tids st ∧
    openAfter [] (since st out.2) = [] ∧
    forallb (λ ev, negb (isBulkRun ev)) (since st out.2) = true ∧
    ((fetches (since st out.2) = [] ∧ heap out.2 = heap st ∧
      (res = (dest, None) ∨ ∃ msg, res = (dest, Some (ErrCannotExecuteQuery msg)))) ∨
     (∃ w r, fetches (since st out.2) = [(w, r)] ∧
             (res, heap out.2) = fetched dest r (heap st))).
Proof.
  cbv zeta.
  destruct (RetrieveMany_shape mgo CF ctx dest st)
    as (counted & queried & res & h' & n & -> & Hc & Hq).
  exists res. cbn [fst snd heap transactions oids tids].
  do 4 (split; [reflexivity|]).
  erewrite since_app by reflexivity.
  assert (Hne : sids st ≠ S (sids st)) by lia.
  split; [|split].
  - destruct Hc as [->|[r ->]];
      destruct Hq as [(-> & _)|(w & r' & -> & _)]; simpl;
      rewrite ?release_head, ?(release_keep _ _ _ Hne), ?filter_nil, ?release_head,
        ?filter_nil; reflexivity.
  - destruct Hc as [->|[r ->]];
      destruct Hq as [(-> & _)|(w & r' & -> & _)]; reflexivity.
  - destruct Hq as [(-> & -> & Hres)|(w & r & -> & Hres)].
    + left. split; [|split; [reflexivity|exact Hres]].
      destruct Hc as [->|[r ->]]; reflexivity.
    + right. exists w, r. split; [|exact Hres].
      destruct Hc as [->|[r0 ->]]; reflexivity.
Qed.

(** X3.  [RetrieveMany] and [Count] do not write to the backend and leave
    the manipulator as they found it: whatever the context and the backend,
    the registry and the identifier generators are as before, no batch is
    run, and every session the call copied is closed again when it returns.
    [Count] leaves every object alone; [RetrieveMany] writes only into the
    objects the destination points to and into new ones, so an object that
    existed and that no pointer of the destination leads to is as before. *)
Theorem read_path_frame mgo CF ctx dest identity st :
  let many := (RetrieveMany mgo CF ctx dest st).2 in
  let count := (Count mgo CF ctx identity st).2 in
  (transactions many = transactions st ∧
   oids many = oids st ∧ tids many = tids st ∧
   openAfter [] (since st many) = [] ∧
   forallb (λ ev, negb (isBulkRun ev)) (since st many) = true ∧
   (∀ l, is_Some (heap st !! l) → l ∉ pointers dest → heap many !! l = heap st !! l)) ∧
  (heap count = heap st ∧ transactions count = transactions st ∧
   oids count = oids st ∧ tids count = tids st ∧
   openAfter [] (since st count) = [] ∧
   forallb (λ ev, negb (isBulkRun ev)) (since st count) = true).
Proof.
  cbv zeta. split.
  - destruct (RetrieveMany_fetches mgo CF ctx dest st)
      as (res & _ & H1 & H2 & H3 & H4 & H5 & Hq).
    do 5 (split; [assumption|]).
    intros l Hl Hout. destruct Hq as [(_ & -> & _)|(w & r & _ & Hres)]; [reflexivity|].
    replace (heap (RetrieveMany mgo CF ctx dest st).2) with (fetched dest r (heap st)).2
      by (rewrite <- Hres; reflexivity).
    apply fetched_frame; assumption.
  - unfold Count, bind, defer, sessionCopy, queryCount, ret, sessionClose, log; simpl.
    match goal with |- context [mgoCount ?b ?tr ?c ?q] =>
      destruct (mgoCount b tr c q) as [e|n] eqn:Ec end; simpl;
      do 4 (split; [reflexivity|]);
      (erewrite since_app; [|simpl; rewrite <- !app_assoc; reflexivity]); simpl;
      rewrite ?release_head, ?filter_nil; auto.
Qed.


(** X23.  When the pointers of the destination are distinct and point to
    objects, the [i]-th element [RetrieveMany] hands back is the [i]-th
    document the iteration delivered, read into the object the [i]-th slot
    of the destination pointed to, or into a new object: after an iteration
    that did not fail it holds that document with its defaults restored;
    after one that failed it holds what was decoded, without the backport. *)
Theorem RetrieveMany_documents mgo CF ctx dest st w r i doc :
  sound (List dest ++ Spare dest) (heap st) →
  let out := RetrieveMany mgo CF ctx dest st in
  fetches (since st out.2) = [(w, r)] →
  r.1 !! i = Some doc →
  ∃ dest' e l o',
    out.1 = Done (dest', e) ∧
    List dest' !! i = Some (Some l) ∧
    heap out.2 !! l = Some o' ∧
    match r.2 with
    | None => e = None ∧ restoredFrom doc (target dest (heap st) i) o' ∧ defaultsRestored o'
    | Some failure =>
        e = Some (ErrCannotExecuteQuery (mgoErrorText failure.1)) ∧
        o' = decodeInto (target dest (heap st) i) doc
    end.
Proof.
  intros Hs out Hf Hdoc. subst out.
  destruct (RetrieveMany_fetches mgo CF ctx dest st)
    as ([dest' e] & Hrun & _ & _ & _ & _ & _ & Hq).
  destruct Hq as [(Hnone & _)|(w' & r' & Hf' & Hres)]; [congruence|].
  rewrite Hf in Hf'. injection Hf' as <- <-.
  destruct (fetched_documents dest r (heap st) i doc Hs Hdoc) as (l & o' & HL & Hh & Ho).
  pose proof (fetched_result dest r (heap st)) as (He & _).
  rewrite <- Hres in HL, Hh, He. cbn [fst snd] in *.
  exists dest', e, l, o'. split; [exact Hrun|]. split; [exact HL|]. split; [exact Hh|].
  destruct (r.2) as [failure|]; cbn in He.
  - split; [exact He|exact Ho].
  - split; [exact He|]. subst o'. split; [apply decode_restoredFrom|apply Reset_defaultsRestored].
Qed.

Lemma RetrieveMany_documents_witness :
  ∃ dest' e l o',
    (RetrieveMany Demo.stocked Sample.noFilter None Demo.shelf Sample.start).1
    = Done (dest', e) ∧
    List dest' !! 1%nat = Some (Some l) ∧
    heap (RetrieveMany Demo.stocked Sample.noFilter None Demo.shelf Sample.start).2 !! l
    = Some o' ∧
    e = None ∧
    restoredFrom {[ "_id" := VString "y" ]} (target Demo.shelf (heap Sample.start) 1) o' ∧
    defaultsRestored o'.
Proof.
  apply (RetrieveMany_documents Demo.stocked Sample.noFilter None Demo.shelf Sample.start
           None (mgoAll Demo.stocked [] Sample.things ∅ None) 1%nat
           {[ "_id" := VString "y" ]}).
  - split.
    + vm_compute. apply NoDup_singleton.
    + intros l Hl.
      apply elem_of_cons in Hl as [Hl|Hl]; [injection Hl as ->; eexists; reflexivity|].
      inversion Hl.
  - vm_compute. reflexivity.
  - reflexivity.
Defined.

(** ** Abort, and what Commit and Abort leave alone *)

(** X5.  [Abort] of an id that is not registered answers false and changes
    nothing.  [Abort] of a registered id answers true, closes the session of the
    transaction and deletes the id, without sending any of the staged operations
    and without touching the objects; aborting the same id once more answers
    false and changes nothing. *)
Theorem Abort_retires st tid :
  let out := Abort tid st in
  match transactions st !! tid with
  | None => out = (Done false, st)
  | Some t =>
      out.1 = Done true ∧
      since st out.2 = [SessionClose (session t)] ∧
      transactions out.2 = delete tid (transactions st) ∧
      heap out.2 = heap st ∧
      Abort tid out.2 = (Done false, out.2)
  end.
Proof.
  cbv zeta.
  assert (Hgone : ∀ s, transactions s !! tid = None → Abort tid s = (Done false, s)).
  { intros s H. unfold Abort, bind, transactionWithID. rewrite H. reflexivity. }
  destruct (transactions st !! tid) as [t|] eqn:Ht; [|apply Hgone, Ht].
  assert (Hreg : Abort tid st
                 = (Done true, unregisterTransaction tid (closeSession t st))).
  { unfold Abort, bind, transactionWithID. rewrite Ht. reflexivity. }
  rewrite Hreg. cbn [fst snd].
  split; [reflexivity|]. split; [apply since_app; reflexivity|].
  split; [reflexivity|]. split; [reflexivity|].
  apply Hgone. simpl. apply lookup_delete_eq.
Qed.

(** X6.  Neither [Commit] nor [Abort] of one id changes the objects in memory or
    any transaction registered under another id: its batches, its session and
    its registration stay as they are. *)
Theorem Commit_Abort_frame mgo st tid other :
  other ≠ tid →
  transactions (Commit mgo tid st).2 !! other = transactions st !! other ∧
  transactions (Abort tid st).2 !! other = transactions st !! other ∧
  heap (Commit mgo tid st).2 = heap st ∧
  heap (Abort tid st).2 = heap st.
Proof.
  intros Hne.
  split; [apply Commit_keeps_others; congruence|].
  split; [apply Abort_keeps_others; congruence|].
  split; [apply Commit_heap|].
  unfold Abort, bind, transactionWithID.
  destruct (transactions st !! tid); reflexivity.
Qed.

Lemma Commit_Abort_frame_witness :
  transactions (Commit Sample.picky "t1" Demo.crowded).2 !! "t2" = Some Demo.other ∧
  transactions (Abort "t1" Demo.crowded).2 !! "t2" = Some Demo.other.
Proof.
  destruct (Commit_Abort_frame Sample.picky Demo.crowded "t1" "t2" ltac:(discriminate))
    as (H1 & H2 & _).
  split; [rewrite H1|rewrite H2]; reflexivity.
Defined.

Lemma Commit_success_witness :
  let out := Commit (Sample.steady 10) "t1" Sample.pending in
  out.1 = Done None ∧
  since Sample.pending out.2
  = ranOk (heap Sample.pending) (bulks Sample.staged) ++ [SessionClose 0%nat].
Proof.
  apply (Commit_success (Sample.steady 10) Sample.pending "t1" Sample.staged).
  - reflexivity.
  - intros before kb after E. reflexivity.
Defined.

(** ** Resolving the transaction of a write *)

(** X8.  [retrieveTransaction] under an explicit id registers the transaction at
    most once: the first call leaves it registered and answers that the caller
    commits, and a second call under the same id returns that very transaction
    and changes nothing, opening no further session. *)
Theorem retrieveTransaction_shared context st :
  TransactionID context ≠ "" →
  ∃ t st1,
    retrieveTransaction context st = (Done (TransactionID context, t, false), st1) ∧
    transactions st1 !! TransactionID context = Some t ∧
    (∀ other, other ≠ TransactionID context →
              transactions st1 !! other = transactions st !! other) ∧
    retrieveTransaction context st1 = (Done (TransactionID context, t, false), st1).
Proof.
  intros E.
  assert (Hk : ∀ s, keyOf context s = TransactionID context).
  { intros s. unfold keyOf. rewrite decide_False by exact E. reflexivity. }
  assert (Hagain : ∀ t s, transactions s !! TransactionID context = Some t →
            retrieveTransaction context s = (Done (TransactionID context, t, false), s)).
  { intros t s H.
    rewrite retrieveTransaction_spec, Hk, H, bool_decide_eq_false_2 by exact E.
    destruct s; reflexivity. }
  destruct (transactions st !! TransactionID context) as [t|] eqn:Ht.
  - exists t, st. split; [apply Hagain, Ht|]. split; [exact Ht|].
    split; [reflexivity|apply Hagain, Ht].
  - rewrite retrieveTransaction_spec, Hk, Ht, bool_decide_eq_false_2 by exact E.
    cbv zeta. eexists _, _. split; [reflexivity|]. cbn [transactions].
    split; [apply lookup_insert_eq|].
    split; [intros other Hne; apply lookup_insert_ne; congruence|].
    apply Hagain. cbn [transactions]. apply lookup_insert_eq.
Qed.

Lemma retrieveTransaction_shared_witness :
  ∃ t st1,
    retrieveTransaction (Demo.under "tx") Sample.start = (Done ("tx", t, false), st1) ∧
    retrieveTransaction (Demo.under "tx") st1 = (Done ("tx", t, false), st1).
Proof.
  destruct (retrieveTransaction_shared (Demo.under "tx") Sample.start ltac:(discriminate))
    as (t & st1 & H1 & _ & _ & H2).
  exists t, st1. split; [exact H1|exact H2].
Defined.

(** ** Update, Delete and DeleteMany step by step *)

Lemma updates_cons h (l : loc) rest o :
  h !! l = Some o → updates h (l :: rest) = OpUpdate (identifier o) l :: updates h rest.
Proof. intros H. unfold updates. simpl. rewrite H. reflexivity. Qed.

Lemma updates_each h (objects : list loc) :
  (∀ l, l ∈ objects → is_Some (h !! l)) →
  Forall2 (λ l op, ∃ o, h !! l = Some o ∧ op = OpUpdate (identifier o) l)
    objects (updates h objects).
Proof.
  induction objects as [|l rest IH]; intros Hvalid; [constructor|].
  destruct (Hvalid l ltac:(left)) as [o Ho]. rewrite (updates_cons h l rest o Ho).
  constructor; [eauto|]. apply IH. intros x Hx. apply Hvalid. right. exact Hx.
Qed.

Lemma updateObjects_spec key k (objects : list loc) :
  ∀ st t,
  transactions st !! key = Some t →
  (∀ l, l ∈ objects → is_Some (heap st !! l)) →
  updateObjects key k objects st
  = (Done tt,
     {| heap := heap st;
        transactions := <[key := stageAll k (updates (heap st) objects) t]> (transactions st);
        events := events st; oids := oids st; tids := tids st; sids := sids st |}).
Proof.
  induction objects as [|l rest IH]; intros st t Ht Hvalid.
  - simpl. rewrite (insert_id _ _ _ Ht). destruct st; reflexivity.
  - destruct (Hvalid l ltac:(left)) as [o Ho].
    cbn [updateObjects]. unfold bind at 1, deref. rewrite Ho.
    unfold bind at 1. rewrite (withTransaction_registered _ _ t) by exact Ht.
    unfold set_transactions.
    rewrite (IH _ (stageOp k (OpUpdate (identifier o) l) t)).
    + cbn [heap transactions events oids tids sids].
      rewrite insert_insert_eq, (updates_cons _ _ _ _ Ho). reflexivity.
    + apply lookup_insert_eq.
    + intros x Hx. apply Hvalid. right. exact Hx.
Qed.

Lemma Update_run mgo ctx (first : loc) (rest : list loc) st o0 :
  heap st !! first = Some o0 →
  (∀ l, l ∈ first :: rest → is_Some (heap st !! l)) →
  let context := default NewContext ctx in
  let mid := stagedWorld context (identity o0) (heap st)
               (updates (heap st) (first :: rest)) st in
  Update mgo ctx (first :: rest) st
  = if bool_decide (TransactionID context = "")
    then Commit mgo (id (enteredTx context st)) mid
    else (Done None, mid).
Proof.
  intros Ho Hvalid context mid. unfold Update. fold context.
  unfold bind at 1. rewrite retrieveTransaction_spec.
  assert (Hloop : ∀ s t,
    transactions s !! keyOf context st = Some t → heap s = heap st →
    updateObjects (keyOf context st) (identity o0) (first :: rest) s
    = (Done tt,
       {| heap := heap st;
          transactions := <[keyOf context st :=
                              stageAll (identity o0) (updates (heap st) (first :: rest)) t]>
                            (transactions s);
          events := events s; oids := oids s; tids := tids s; sids := sids s |})).
  { intros s t Hs Hh. rewrite (updateObjects_spec _ _ _ s t Hs), Hh; [reflexivity|].
    rewrite Hh. exact Hvalid. }
  subst mid. unfold stagedWorld, entered, enteredTx.
  destruct (transactions st !! keyOf context st) as [t|] eqn:Ht; cbn zeta iota beta.
  - unfold bind at 1, deref. cbn [heap]. rewrite Ho.
    unfold bind at 1.
    rewrite (withTransaction_registered _ _ t) by exact Ht.
    unfold set_transactions. cbn [heap transactions events oids tids sids].
    rewrite (bool_decide_eq_true_2 (is_Some (Some t))) by (eexists; reflexivity).
    rewrite app_nil_r. unfold bind at 1.
    rewrite (Hloop _ (bulkForIdentity (identity o0) t)) by (apply lookup_insert_eq || reflexivity).
    cbn [heap transactions events oids tids sids]. rewrite insert_insert_eq.
    destruct (bool_decide _); reflexivity.
  - unfold bind at 1, deref. cbn [heap]. rewrite Ho.
    unfold bind at 1.
    rewrite (withTransaction_registered _ _ {| id := keyOf context st; bulks := [];
                                              session := sids st |})
      by apply lookup_insert_eq.
    unfold set_transactions. cbn [heap transactions events oids tids sids].
    rewrite insert_insert_eq.
    rewrite (bool_decide_eq_false_2 (is_Some (@None transaction)))
      by (intros [? ?]; discriminate).
    unfold bind at 1.
    rewrite (Hloop _ (bulkForIdentity (identity o0)
                        {| id := keyOf context st; bulks := []; session := sids st |}))
      by (apply lookup_insert_eq || reflexivity).
    cbn [heap transactions events oids tids sids]. rewrite insert_insert_eq.
    destruct (bool_decide _); reflexivity.
Qed.

Lemma Delete_run mgo ctx (first : loc) (rest : list loc) st o0 :
  heap st !! first = Some o0 →
  (∀ l, l ∈ first :: rest → is_Some (heap st !! l)) →
  let context := default NewContext ctx in
  ∃ h',
    Delete mgo ctx (first :: rest) st
    = (if bool_decide (TransactionID context = "")
       then Commit mgo (id (enteredTx context st))
              (stagedWorld context (identity o0) h' (removals (heap st) (first :: rest)) st)
       else (Done None,
             stagedWorld context (identity o0) h' (removals (heap st) (first :: rest)) st)) ∧
    ∀ l, h' !! l = if decide (l ∈ first :: rest)
                   then ResetDefaultForZeroValues <$> heap st !! l
                   else heap st !! l.
Proof.
  intros Ho Hvalid context.
  destruct (deleteObjects_spec (keyOf context st) (identity o0) (first :: rest)
              (entered context (identity o0) st)
              (bulkForIdentity (identity o0) (enteredTx context st)))
    as (h' & Hrun & Hheap).
  { apply lookup_insert_eq. }
  { exact Hvalid. }
  change (transactions (entered context (identity o0) st))
    with (<[keyOf context st := bulkForIdentity (identity o0) (enteredTx context st)]>
            (transactions st)) in Hrun.
  change (heap (entered context (identity o0) st)) with (heap st) in Hrun, Hheap.
  rewrite insert_insert_eq in Hrun.
  exists h'. split; [|exact Hheap].
  rewrite (Delete_unfold mgo ctx first rest st o0 Ho). fold context. rewrite Hrun.
  reflexivity.
Qed.

Lemma DeleteMany_run mgo CF ctx identity st :
  let context := default NewContext ctx in
  let mid := stagedWorld context identity (heap st)
               [OpRemoveAll (CF (ctxFilter context))] st in
  DeleteMany mgo CF ctx identity st
  = if bool_decide (TransactionID context = "")
    then Commit mgo (id (enteredTx context st)) mid
    else (Done None, mid).
Proof.
  intros context mid. unfold DeleteMany. fold context.
  unfold bind at 1. rewrite retrieveTransaction_spec.
  subst mid. unfold stagedWorld, entered, enteredTx.
  destruct (transactions st !! keyOf context st) as [t|] eqn:Ht; cbn zeta iota beta.
  - unfold bind at 1.
    rewrite (withTransaction_registered _ _ t) by exact Ht.
    unfold set_transactions. cbn [heap transactions events oids tids sids].
    unfold bind at 1.
    rewrite (withTransaction_registered _ _ (bulkForIdentity identity t))
      by apply lookup_insert_eq.
    unfold set_transactions. cbn [heap transactions events oids tids sids].
    rewrite (bool_decide_eq_true_2 (is_Some (Some t))) by (eexists; reflexivity).
    rewrite app_nil_r, !insert_insert_eq.
    destruct (bool_decide _); reflexivity.
  - unfold bind at 1.
    rewrite (withTransaction_registered _ _ {| id := keyOf context st; bulks := [];
                                              session := sids st |})
      by apply lookup_insert_eq.
    unfold set_transactions. cbn [heap transactions events oids tids sids].
    unfold bind at 1.
    rewrite (withTransaction_registered _ _
               (bulkForIdentity identity {| id := keyOf context st; bulks := [];
                                            session := sids st |}))
      by apply lookup_insert_eq.
    unfold set_transactions. cbn [heap transactions events oids tids sids].
    rewrite (bool_decide_eq_false_2 (is_Some (@None transaction)))
      by (intros [? ?]; discriminate).
    rewrite !insert_insert_eq.
    destruct (bool_decide _); reflexivity.
Qed.

Lemma stagedWorld_staged context k h ops st :
  staged (keyOf context st) k (stagedWorld context k h ops st)
  = staged (keyOf context st) k st ++ ops.
Proof. apply staged_after. Qed.

Lemma stagedWorld_id context k h ops st :
  ∃ t, transactions (stagedWorld context k h ops st) !! keyOf context st = Some t ∧
       id t = id (enteredTx context st) ∧ session t = session (enteredTx context st).
Proof.
  eexists. split; [apply lookup_insert_eq|].
  destruct (stageAll_fields k ops (bulkForIdentity k (enteredTx context st))) as (-> & -> & _).
  apply bulkForIdentity_fields.
Qed.

Lemma stagedWorld_since context k h ops st :
  since st (stagedWorld context k h ops st)
  = if bool_decide (is_Some (transactions st !! keyOf context st))
    then [] else [SessionCopy (sids st)].
Proof. apply since_app. reflexivity. Qed.

Lemma finalizeEvents_local calls : forallb isLocal (finalizeEvents calls) = true.
Proof. induction calls as [|c calls IH]; simpl; auto. Qed.

Lemma stagedWorld_local context k h ops st :
  forallb isLocal (since st (stagedWorld context k h ops st)) = true.
Proof. rewrite stagedWorld_since. destruct (bool_decide _); reflexivity. Qed.

(** X9.  [Update] stages one replace-by-identifier operation per object, behind
    what the batch of the first object's identity held, selecting by the
    identifier the object carries at that moment; then it commits if the
    transaction is implicit and returns nil otherwise.  The objects in memory
    are never changed. *)
Theorem Update_stages mgo ctx (first : loc) (rest : list loc) st o0 :
  heap st !! first = Some o0 →
  (∀ l, l ∈ first :: rest → is_Some (heap st !! l)) →
  let objects := first :: rest in
  let context := default NewContext ctx in
  let key := keyOf context st in
  let out := Update mgo ctx objects st in
  (∃ mid t ops,
     Forall2 (λ l op, ∃ o, heap st !! l = Some o ∧ op = OpUpdate (identifier o) l)
       objects ops ∧
     staged key (identity o0) mid = staged key (identity o0) st ++ ops ∧
     transactions mid !! key = Some t ∧
     out = if bool_decide (TransactionID context = "")
           then Commit mgo (id t) mid
           else (Done None, mid)) ∧
  heap out.2 = heap st.
Proof.
  intros Ho Hvalid objects context key out.
  pose proof (Update_run mgo ctx first rest st o0 Ho Hvalid) as Hrun.
  fold context in Hrun. cbv zeta in Hrun.
  set (mid := stagedWorld context (identity o0) (heap st) (updates (heap st) (first :: rest)) st)
    in *.
  split.
  - destruct (stagedWorld_id context (identity o0) (heap st)
                (updates (heap st) (first :: rest)) st) as (t & Ht & Hid & _).
    exists mid, t, (updates (heap st) objects).
    split; [apply updates_each, Hvalid|].
    split; [apply stagedWorld_staged|].
    split; [exact Ht|]. rewrite Hid. exact Hrun.
  - unfold out, objects. rewrite Hrun.
    destruct (bool_decide _); [rewrite Commit_heap|]; reflexivity.
Qed.

Lemma Update_stages_witness :
  heap (Update (Sample.steady 10) (Some (Demo.under "tx")) [0%nat; 1%nat] Sample.start).2
  = heap Sample.start.
Proof.
  exact (proj2 (Update_stages (Sample.steady 10) (Some (Demo.under "tx")) 0%nat [1%nat]
                  Sample.start (Sample.thing "a" 0) eq_refl ltac:(valid_locs))).
Defined.

Example Update_stages_in_order :
  staged "tx" Sample.things
    (Update (Sample.steady 10) (Some (Demo.under "tx")) [0%nat; 1%nat] Sample.start).2
  = [OpUpdate "a" 0%nat; OpUpdate "b" 1%nat].
Proof. reflexivity. Qed.

(** X10.  [DeleteMany] stages exactly one remove-matching operation, carrying
    the compilation of whatever filter the context holds (none included), behind
    what the batch of the identity held; then it commits if the transaction is
    implicit and returns nil otherwise.  No object is read or changed. *)
Theorem DeleteMany_stages mgo CF ctx identity st :
  let context := default NewContext ctx in
  let key := keyOf context st in
  let out := DeleteMany mgo CF ctx identity st in
  (∃ mid t,
     staged key identity mid
     = staged key identity st ++ [OpRemoveAll (CF (ctxFilter context))] ∧
     transactions mid !! key = Some t ∧
     out = if bool_decide (TransactionID context = "")
           then Commit mgo (id t) mid
           else (Done None, mid)) ∧
  heap out.2 = heap st.
Proof.
  intros context key out.
  pose proof (DeleteMany_run mgo CF ctx identity st) as Hrun.
  fold context in Hrun. cbv zeta in Hrun.
  set (mid := stagedWorld context identity (heap st)
                [OpRemoveAll (CF (ctxFilter context))] st) in *.
  split.
  - destruct (stagedWorld_id context identity (heap st)
                [OpRemoveAll (CF (ctxFilter context))] st) as (t & Ht & Hid & _).
    exists mid, t. split; [apply stagedWorld_staged|].
    split; [exact Ht|]. rewrite Hid. exact Hrun.
  - unfold out. rewrite Hrun.
    destruct (bool_decide _); [rewrite Commit_heap|]; reflexivity.
Qed.

(** ** Explicit transactions stay in the process *)

(** X11.  Under an explicit transaction id, [Create], [Update], [Delete] and
    [DeleteMany] return without running a batch, issuing a query or closing a
    session: the log grows at most by the copy of the transaction's session and
    by finalizer calls, and the transaction is registered when the call returns.
    *)
Theorem explicit_write_is_local mgo CF ctx (first : loc) (rest : list loc) identity st o0 :
  heap st !! first = Some o0 →
  (∀ l, l ∈ first :: rest → is_Some (heap st !! l)) →
  TransactionID ctx ≠ "" →
  let tid := TransactionID ctx in
  staysLocal (Create mgo (Some ctx) (first :: rest) st) tid st ∧
  staysLocal (Update mgo (Some ctx) (first :: rest) st) tid st ∧
  staysLocal (Delete mgo (Some ctx) (first :: rest) st) tid st ∧
  staysLocal (DeleteMany mgo CF (Some ctx) identity st) tid st.
Proof.
  intros Ho Hvalid Hexp tid.
  assert (Hk : keyOf ctx st = tid).
  { unfold keyOf. rewrite decide_False by exact Hexp. reflexivity. }
  assert (Hworld : ∀ k h ops, staysLocal (Done None, stagedWorld ctx k h ops st) tid st).
  { intros k h ops. split; [eexists; reflexivity|]. cbn [snd].
    split; [apply stagedWorld_local|].
    destruct (stagedWorld_id ctx k h ops st) as (t & Ht & _). rewrite Hk in Ht. eauto. }
  split; [|split; [|split]].
  - destruct (Create_run mgo (Some ctx) first rest st o0 Ho Hvalid)
      as (r & calls & h' & n & m & st2 & Hst2 & Hrun & _).
    cbn [default from_option] in Hst2, Hrun. unfold Datatypes.id in Hst2, Hrun.
    rewrite bool_decide_eq_false_2 in Hrun by exact Hexp.
    assert (Hst : staysLocal (Done r, st2) tid st).
    { split; [eexists; reflexivity|]. cbn [snd]. split.
      - erewrite since_app; [|rewrite Hst2; cbn [events]; unfold entered; cbn [events];
                               rewrite <- app_assoc; reflexivity].
        rewrite forallb_app. apply andb_true_iff. split.
        + destruct (bool_decide _); reflexivity.
        + apply finalizeEvents_local.
      - rewrite Hst2. cbn [transactions]. rewrite Hk, lookup_insert_eq. eauto. }
    rewrite Hrun. destruct r; exact Hst.
  - pose proof (Update_run mgo (Some ctx) first rest st o0 Ho Hvalid) as Hrun.
    cbn [default from_option] in Hrun. unfold Datatypes.id in Hrun.
    rewrite bool_decide_eq_false_2 in Hrun by exact Hexp. rewrite Hrun. apply Hworld.
  - destruct (Delete_run mgo (Some ctx) first rest st o0 Ho Hvalid) as (h' & Hrun & _).
    cbn [default from_option] in Hrun. unfold Datatypes.id in Hrun.
    rewrite bool_decide_eq_false_2 in Hrun by exact Hexp. rewrite Hrun. apply Hworld.
  - pose proof (DeleteMany_run mgo CF (Some ctx) identity st) as Hrun.
    cbn [default from_option] in Hrun. unfold Datatypes.id in Hrun.
    rewrite bool_decide_eq_false_2 in Hrun by exact Hexp. rewrite Hrun. apply Hworld.
Qed.

Lemma explicit_write_is_local_witness :
  staysLocal (Create (Sample.steady 10) (Some (Demo.under "tx")) [0%nat; 1%nat] Sample.start)
    "tx" Sample.start ∧
  staysLocal (Delete (Sample.steady 10) (Some (Demo.under "tx")) [0%nat; 1%nat] Sample.start)
    "tx" Sample.start.
Proof.
  destruct (explicit_write_is_local (Sample.steady 10) Sample.noFilter (Demo.under "tx")
              0%nat [1%nat] Sample.things Sample.start (Sample.thing "a" 0)
              eq_refl ltac:(valid_locs) ltac:(discriminate)) as (H1 & _ & H3 & _).
  split; [exact H1|exact H3].
Defined.

(** ** Implicit transactions that retire *)

Lemma Commit_single mgo key k b t s :
  transactions s !! key = Some t →
  bulks t = [(k, b)] →
  let wire := serialise (heap s) <$> bulkOps b in
  let r := mgoRun mgo (events s) (bulkCollection b) wire in
  Commit mgo key s
  = (Done (commitResult r),
     {| heap := heap s; transactions := delete key (transactions s);
        events := events s ++ [BulkRun (bulkCollection b) wire r; SessionClose (session t)];
        oids := oids s; tids := tids s; sids := sids s |}).
Proof.
  intros Ht Hb wire r. unfold Commit, bind, transactionWithID, defer. rewrite Ht, Hb.
  simpl. unfold bind, bulkRun. simpl. fold wire r.
  destruct r as [err|]; simpl; [destruct (IsDup err)|]; simpl;
    unfold unregisterTransaction, closeSession, sessionClose, log, set_transactions; simpl;
    rewrite <- ?app_assoc; reflexivity.
Qed.

Lemma implicit_commit mgo context k h ops st :
  TransactionID context = "" →
  transactions st !! pretty (tids st) = None →
  retiresAtOnce (Commit mgo (id (enteredTx context st)) (stagedWorld context k h ops st))
    k (length ops) st.
Proof.
  intros Himp Hfresh.
  destruct (entered_fresh context k st Himp Hfresh) as [Htx Hev].
  pose proof (keyOf_implicit context st Himp) as Hk.
  assert (Hb : bulkForIdentity k
                 {| id := pretty (tids st); bulks := []; session := sids st |}
               = {| id := pretty (tids st);
                    bulks := [(k, {| bulkCollection := k; bulkOps := [] |})];
                    session := sids st |}) by reflexivity.
  set (w := stagedWorld context k h ops st).
  assert (Hreg : transactions w !! pretty (tids st)
                 = Some {| id := pretty (tids st);
                           bulks := [(k, {| bulkCollection := k; bulkOps := ops |})];
                           session := sids st |}).
  { subst w. unfold stagedWorld. cbn [transactions].
    rewrite Hk, lookup_insert_eq, Htx, Hb, stageAll_single. reflexivity. }
  rewrite Htx. cbn [id].
  rewrite (Commit_single mgo _ k {| bulkCollection := k; bulkOps := ops |} _ w Hreg eq_refl).
  cbv zeta. cbn [bulkCollection bulkOps session fst snd transactions].
  split.
  - subst w. unfold stagedWorld. cbn [transactions]. rewrite Hk.
    apply delete_insert_id, Hfresh.
  - eexists _, _. split; [|split; [|reflexivity]].
    2:{ apply since_app. cbn [events]. subst w. unfold stagedWorld. cbn [events heap].
        rewrite Hev, <- app_assoc. reflexivity. }
    rewrite length_fmap. reflexivity.
Qed.

(** X12.  Under an implicit transaction whose generated id is not in use,
    [Update], [Delete] and [DeleteMany] always retire what they registered,
    whether the backend accepts the batch or not: the registry ends as it began,
    the session that was copied is closed, exactly one batch is run, carrying
    one operation per object (one in all for [DeleteMany]), and the call returns
    [Commit]'s report of that run. *)
Theorem implicit_write_retires mgo CF ctx (first : loc) (rest : list loc) kind st o0 :
  heap st !! first = Some o0 →
  (∀ l, l ∈ first :: rest → is_Some (heap st !! l)) →
  TransactionID (default NewContext ctx) = "" →
  transactions st !! pretty (tids st) = None →
  let n := length (first :: rest) in
  retiresAtOnce (Update mgo ctx (first :: rest) st) (identity o0) n st ∧
  retiresAtOnce (Delete mgo ctx (first :: rest) st) (identity o0) n st ∧
  retiresAtOnce (DeleteMany mgo CF ctx kind st) kind 1 st.
Proof.
  intros Ho Hvalid Himp Hfresh n. subst n. split; [|split].
  - rewrite (Update_run mgo ctx first rest st o0 Ho Hvalid).
    rewrite bool_decide_eq_true_2 by exact Himp.
    rewrite (Forall2_length _ _ _ (updates_each (heap st) (first :: rest) Hvalid)).
    apply implicit_commit; assumption.
  - destruct (Delete_run mgo ctx first rest st o0 Ho Hvalid) as (h' & -> & _).
    rewrite bool_decide_eq_true_2 by exact Himp.
    rewrite (Forall2_length _ _ _ (removals_each (heap st) (first :: rest) Hvalid)).
    apply implicit_commit; assumption.
  - rewrite (DeleteMany_run mgo CF ctx kind st).
    rewrite bool_decide_eq_true_2 by exact Himp.
    apply (implicit_commit mgo (default NewContext ctx) kind (heap st)
             [OpRemoveAll (CF (ctxFilter (default NewContext ctx)))] st); assumption.
Qed.

Lemma implicit_write_retires_witness :
  retiresAtOnce (Update Sample.picky None [0%nat; 1%nat] Sample.start)
    Sample.things 2 Sample.start ∧
  retiresAtOnce (DeleteMany Sample.picky Sample.noFilter None Sample.gadgets Sample.start)
    Sample.gadgets 1 Sample.start.
Proof.
  destruct (implicit_write_retires Sample.picky Sample.noFilter None 0%nat [1%nat]
              Sample.gadgets Sample.start (Sample.thing "a" 0)
              eq_refl ltac:(valid_locs) eq_refl eq_refl) as (H1 & _ & H3).
  split; [exact H1|exact H3].
Defined.

(** ** One batch per call *)

Lemma bulkLookup_None k bs : bulkLookup k bs = None ↔ k ∉ bs.*1.
Proof.
  induction bs as [|[k' b] bs IH]; simpl.
  - split; [intros _ H; inversion H|reflexivity].
  - destruct (decide (k' = k)) as [->|Hne].
    + split; [discriminate|]. intros H. exfalso. apply H. left.
    + rewrite IH. rewrite not_elem_of_cons. split; [intros H; split; [congruence|exact H]|].
      intros [_ H]. exact H.
Qed.

Lemma stagedWorld_keys context k h ops st :
  batchKeys (keyOf context st) (stagedWorld context k h ops st)
  = batchKeys (keyOf context st) st
    ++ (if decide (k ∈ batchKeys (keyOf context st) st) then [] else [k]).
Proof.
  unfold batchKeys at 1, stagedWorld. cbn [transactions]. rewrite lookup_insert_eq.
  destruct (stageAll_fields k ops (bulkForIdentity k (enteredTx context st))) as (_ & _ & ->).
  assert (Hkeys : batchKeys (keyOf context st) st = (bulks (enteredTx context st)).*1).
  { unfold batchKeys, enteredTx. destruct (transactions st !! keyOf context st); reflexivity. }
  rewrite Hkeys. unfold bulkForIdentity.
  destruct (bulkLookup k (bulks (enteredTx context st))) as [b|] eqn:E.
  - destruct (decide (k ∈ (bulks (enteredTx context st)).*1)) as [?|Hn].
    + rewrite app_nil_r. reflexivity.
    + apply bulkLookup_None in Hn. congruence.
  - cbn [bulks]. rewrite fmap_app.
    rewrite decide_False by (apply bulkLookup_None, E). reflexivity.
Qed.

(** X13.  Under an explicit transaction, a call to [Create], [Update] or
    [Delete] adds at most one batch to the transaction, the one of the first
    object's identity, behind the batches that exist, which keep their order;
    the objects of the call that carry another identity get no batch of their
    own. *)
Theorem write_batches_by_first_identity mgo ctx (first : loc) (rest : list loc) st o0 :
  heap st !! first = Some o0 →
  (∀ l, l ∈ first :: rest → is_Some (heap st !! l)) →
  TransactionID ctx ≠ "" →
  let tid := TransactionID ctx in
  let after := batchKeys tid st
               ++ (if decide (identity o0 ∈ batchKeys tid st) then [] else [identity o0]) in
  batchKeys tid (Create mgo (Some ctx) (first :: rest) st).2 = after ∧
  batchKeys tid (Update mgo (Some ctx) (first :: rest) st).2 = after ∧
  batchKeys tid (Delete mgo (Some ctx) (first :: rest) st).2 = after.
Proof.
  intros Ho Hvalid Hexp tid after.
  assert (Hk : keyOf ctx st = tid).
  { unfold keyOf. rewrite decide_False by exact Hexp. reflexivity. }
  assert (Hworld : ∀ h ops, batchKeys tid (stagedWorld ctx (identity o0) h ops st) = after).
  { intros h ops. unfold after. rewrite <- Hk. apply stagedWorld_keys. }
  split; [|split].
  - destruct (Create_run mgo (Some ctx) first rest st o0 Ho Hvalid)
      as (r & calls & h' & n & m & st2 & Hst2 & Hrun & _).
    cbn [default from_option] in Hst2, Hrun. unfold Datatypes.id in Hst2, Hrun.
    rewrite bool_decide_eq_false_2 in Hrun by exact Hexp.
    assert (Hst : batchKeys tid st2 = after).
    { rewrite <- (Hworld h' (OpInsert <$> take n (first :: rest))).
      unfold batchKeys, stagedWorld. rewrite Hst2. reflexivity. }
    rewrite Hrun. destruct r; exact Hst.
  - pose proof (Update_run mgo (Some ctx) first rest st o0 Ho Hvalid) as Hrun.
    cbn [default from_option] in Hrun. unfold Datatypes.id in Hrun.
    rewrite bool_decide_eq_false_2 in Hrun by exact Hexp. rewrite Hrun. apply Hworld.
  - destruct (Delete_run mgo (Some ctx) first rest st o0 Ho Hvalid) as (h' & Hrun & _).
    cbn [default from_option] in Hrun. unfold Datatypes.id in Hrun.
    rewrite bool_decide_eq_false_2 in Hrun by exact Hexp. rewrite Hrun. apply Hworld.
Qed.

Lemma write_batches_by_first_identity_witness :
  batchKeys "tx" (Create (Sample.steady 10) (Some (Demo.under "tx")) [0%nat; 1%nat]
                    Demo.mixed).2
  = [Sample.things].
Proof.
  exact (proj1 (write_batches_by_first_identity (Sample.steady 10) (Demo.under "tx")
                  0%nat [1%nat] Demo.mixed (Sample.thing "a" 0)
                  eq_refl ltac:(valid_locs) ltac:(discriminate))).
Defined.

(** ** Abort does not undo what a call did in memory *)

(** X14.  A [Delete], or a [Create] without finalizer, under an explicit id that
    was not registered, followed by [Abort] of that id: the abort answers true,
    the registry is as it was before the call, and the backend saw a session
    copied and closed and nothing else; but the objects keep what the call did
    to them, the restored defaults for [Delete] and the newly assigned
    identifiers for [Create]. *)
Theorem Abort_does_not_undo mgo ctx (first : loc) (rest : list loc) st o0 :
  heap st !! first = Some o0 →
  (∀ l, l ∈ first :: rest → is_Some (heap st !! l)) →
  TransactionID ctx ≠ "" →
  transactions st !! TransactionID ctx = None →
  CreateFinalizer ctx = None →
  let tid := TransactionID ctx in
  let deleted := Abort tid (Delete mgo (Some ctx) (first :: rest) st).2 in
  let created := Abort tid (Create mgo (Some ctx) (first :: rest) st).2 in
  (deleted.1 = Done true ∧
   transactions deleted.2 = transactions st ∧
   since st deleted.2 = [SessionCopy (sids st); SessionClose (sids st)] ∧
   ∀ l o, l ∈ first :: rest → heap st !! l = Some o →
          heap deleted.2 !! l = Some (ResetDefaultForZeroValues o)) ∧
  (created.1 = Done true ∧
   transactions created.2 = transactions st ∧
   since st created.2 = [SessionCopy (sids st); SessionClose (sids st)] ∧
   ∀ l, l ∈ first :: rest →
        ∃ i o, (first :: rest) !! i = Some l ∧ heap created.2 !! l = Some o ∧
               identifier o = pretty (oids st + i)%nat).
Proof.
  intros Ho Hvalid Hexp Hnew Hfin tid deleted created.
  assert (Hk : keyOf ctx st = tid).
  { unfold keyOf. rewrite decide_False by exact Hexp. reflexivity. }
  assert (Htx : enteredTx ctx st = {| id := tid; bulks := []; session := sids st |}).
  { unfold enteredTx. rewrite Hk. fold tid in Hnew. rewrite Hnew. reflexivity. }
  assert (Hev : ∀ k, events (entered ctx k st) = events st ++ [SessionCopy (sids st)]).
  { intros k. unfold entered. cbn [events]. rewrite Hk. fold tid in Hnew. rewrite Hnew.
    rewrite bool_decide_eq_false_2 by (intros [? ?]; discriminate). reflexivity. }
  assert (Habort : ∀ h T ev o ti si,
    session T = sids st →
    Abort tid {| heap := h; transactions := <[tid := T]> (transactions st);
                 events := events st ++ [SessionCopy (sids st)] ++ ev;
                 oids := o; tids := ti; sids := si |}
    = (Done true,
       {| heap := h; transactions := transactions st;
          events := events st ++ [SessionCopy (sids st)] ++ ev ++ [SessionClose (sids st)];
          oids := o; tids := ti; sids := si |})).
  { intros h T ev o ti si Hs. unfold Abort, bind, transactionWithID.
    cbn [transactions]. rewrite lookup_insert_eq.
    unfold unregisterTransaction, closeSession, sessionClose, log, set_transactions.
    cbn [heap transactions events oids tids sids]. rewrite Hs.
    fold tid in Hnew. rewrite (delete_insert_id _ _ _ Hnew), <- !app_assoc. reflexivity. }
  split.
  - destruct (Delete_run mgo (Some ctx) first rest st o0 Ho Hvalid) as (h' & Hrun & Hheap).
    cbn [default from_option] in Hrun. unfold Datatypes.id in Hrun.
    rewrite bool_decide_eq_false_2 in Hrun by exact Hexp.
    subst deleted. rewrite Hrun. cbn [snd]. unfold stagedWorld. rewrite Hk, Hev.
    rewrite <- (app_nil_r [SessionCopy (sids st)]).
    rewrite Habort.
    2:{ destruct (stageAll_fields (identity o0) (removals (heap st) (first :: rest))
                    (bulkForIdentity (identity o0) (enteredTx ctx st))) as (_ & -> & _).
        destruct (bulkForIdentity_fields (identity o0) (enteredTx ctx st)) as [_ ->].
        rewrite Htx. reflexivity. }
    cbn [fst snd heap transactions]. split; [reflexivity|]. split; [reflexivity|].
    split; [apply since_app; reflexivity|].
    intros l o Hl Hlo. rewrite Hheap, decide_True by exact Hl. rewrite Hlo. reflexivity.
  - destruct (Create_run mgo (Some ctx) first rest st o0 Ho Hvalid)
      as (r & calls & h' & n & m & st2 & Hst2 & Hrun & Hres & Hnil & _ & _ & Hin & _).
    cbn [default from_option] in Hst2, Hrun, Hres, Hnil, Hin.
    unfold Datatypes.id in Hst2, Hrun, Hres, Hnil, Hin.
    rewrite bool_decide_eq_false_2 in Hrun by exact Hexp.
    specialize (Hnil Hfin). subst calls.
    destruct r as [err|].
    { destruct Hres as (oks & arg & Hc & _). destruct oks; discriminate Hc. }
    destruct Hres as (-> & -> & _).
    assert (Hkeep : keepsIdentifier (CreateFinalizer ctx)).
    { intros f o Hf. rewrite Hfin in Hf. discriminate Hf. }
    specialize (Hin Hkeep). rewrite firstn_all in Hin.
    subst created. rewrite Hrun. cbn [snd]. rewrite Hst2, Hk, Hev.
    cbn [finalizeEvents fmap list_fmap]. rewrite app_nil_r.
    rewrite <- (app_nil_r [SessionCopy (sids st)]).
    rewrite Habort.
    2:{ destruct (stageAll_fields (identity o0)
                    (OpInsert <$> take (length (first :: rest)) (first :: rest))
                    (bulkForIdentity (identity o0) (enteredTx ctx st))) as (_ & -> & _).
        destruct (bulkForIdentity_fields (identity o0) (enteredTx ctx st)) as [_ ->].
        rewrite Htx. reflexivity. }
    cbn [fst snd heap transactions]. split; [reflexivity|]. split; [reflexivity|].
    split; [apply since_app; reflexivity|].
    intros l Hl. destruct (Hin l Hl) as (i & o & _ & Hi & Hh & Hid). eauto.
Qed.

Lemma Abort_does_not_undo_witness :
  let deleted := Abort "tx" (Delete (Sample.steady 10) (Some (Demo.under "tx"))
                               [0%nat; 1%nat] Sample.start).2 in
  transactions deleted.2 = transactions Sample.start ∧
  since Sample.start deleted.2 = [SessionCopy 0%nat; SessionClose 0%nat] ∧
  heap deleted.2 !! 0%nat = Some (ResetDefaultForZeroValues (Sample.thing "a" 0)).
Proof.
  destruct (Abort_does_not_undo (Sample.steady 10) (Demo.under "tx") 0%nat [1%nat]
              Sample.start (Sample.thing "a" 0)
              eq_refl ltac:(valid_locs) ltac:(discriminate) eq_refl eq_refl)
    as ((_ & H2 & H3 & H4) & _).
  split; [exact H2|]. split; [exact H3|].
  apply H4; [left|reflexivity].
Defined.

(** ** What Retrieve does to the backend *)

Lemma retrieveObjects_frame mgo c (objects : list loc) :
  ∀ filter st,
  ∃ r tr h',
    retrieveObjects mgo c filter objects st
    = (r, {| heap := h'; transactions := transactions st; events := events st ++ tr;
             oids := oids st; tids := tids st; sids := sids st |}) ∧
    Forall (looksUpIn c filter) tr.
Proof.
  induction objects as [|l rest IH]; intros filter st.
  - exists (Done None), [], (heap st). simpl. rewrite app_nil_r.
    split; [destruct st; reflexivity|constructor].
  - destruct (heap st !! l) as [o|] eqn:Ho.
    2:{ exists Panic, [], (heap st). rewrite app_nil_r.
        cbn [retrieveObjects]. unfold bind at 1, deref. rewrite Ho.
        split; [destruct st; reflexivity|constructor]. }
    rewrite (retrieveObjects_step mgo c filter l rest st o Ho). cbv zeta.
    set (q := <["_id" := BString (identifier o)]> filter).
    set (a := mgoOne mgo (events st) c q o).
    assert (Hq : ∀ res, looksUpIn c filter (QueryOne c q res)).
    { intros res. exists q, res. split; [reflexivity|]. split.
      - intros key Hkey. subst q. apply lookup_insert_ne. congruence.
      - subst q. rewrite lookup_insert_eq. eauto. }
    destruct (a.2) as [err|].
    + destruct err; eexists _, [_], _;
        (split; [reflexivity|constructor; [apply Hq|constructor]]).
    + match goal with |- context [retrieveObjects mgo c q rest ?s] =>
        destruct (IH q s) as (r & tr & h' & Hrun & Htr)
      end.
      rewrite Hrun. cbn [heap transactions events oids tids sids].
      exists r, (QueryOne c q a :: tr), h'.
      split; [rewrite <- app_assoc; reflexivity|].
      constructor; [apply Hq|].
      eapply Forall_impl; [exact Htr|].
      intros e (q' & res & -> & Hkeys & Hid). exists q', res.
      split; [reflexivity|]. split; [|exact Hid].
      intros key Hkey. rewrite (Hkeys key Hkey). subst q. apply lookup_insert_ne. congruence.
Qed.

(** X15.  Whatever the objects, a nil one included, [Retrieve] of a non-empty
    list closes the session it copied, leaves the registry alone and sends
    nothing to the backend but single-object lookups; every lookup goes to the
    collection of the first object's identity, with the context's filter and an
    identifier predicate on top of it. *)
Theorem Retrieve_lookups_frame mgo CF ctx (first : loc) (rest : list loc) st :
  let out := Retrieve mgo CF ctx (first :: rest) st in
  ∃ tr,
    since st out.2 = SessionCopy (sids st) :: tr ++ [SessionClose (sids st)] ∧
    transactions out.2 = transactions st ∧
    Forall (λ e, ∃ o0, heap st !! first = Some o0 ∧
                       looksUpIn (identity o0) (compiled CF (default NewContext ctx)) e) tr.
Proof.
  cbv zeta. destruct (heap st !! first) as [o0|] eqn:Ho.
  - rewrite (Retrieve_unfold mgo CF ctx first rest st o0 Ho).
    match goal with |- context [retrieveObjects mgo ?c ?f ?os ?s] =>
      destruct (retrieveObjects_frame mgo c os f s) as (r & tr & h' & Hrun & Htr)
    end.
    cbn [heap transactions events oids tids sids] in Hrun. rewrite Hrun.
    cbn [snd heap transactions events oids tids sids sessionClose log].
    exists tr.
    split; [apply since_app; unfold sessionClose, log; cbn [events];
            rewrite <- !app_assoc; reflexivity|].
    split; [reflexivity|].
    eapply Forall_impl; [exact Htr|]. intros e He. exists o0. auto.
  - assert (Hnil : Retrieve mgo CF ctx (first :: rest) st
                   = (Panic,
                      {| heap := heap st; transactions := transactions st;
                         events := (events st ++ [SessionCopy (sids st)])
                                   ++ [SessionClose (sids st)];
                         oids := oids st; tids := tids st; sids := S (sids st) |})).
    { unfold Retrieve, defer. unfold bind at 1, sessionCopy. unfold bind at 1, deref.
      cbn [heap]. rewrite Ho. reflexivity. }
    rewrite Hnil. exists []. cbn [snd transactions].
    split; [apply since_app; cbn [events]; rewrite <- !app_assoc; reflexivity|].
    split; [reflexivity|constructor].
Qed.

(** * Properties of snip *)

Lemma hasPrefix_spec (old s : Snip.GoString) :
  Snip.hasPrefix old s = true ↔ ∃ b, s = old ++ b.
Proof.
  revert s. induction old as [|o old IH]; intros s; simpl.
  - split; [eauto|reflexivity].
  - destruct s as [|c s].
    + split; [discriminate|]. intros [b H]. discriminate H.
    + destruct (decide (o = c)) as [->|Hne].
      * rewrite IH. split; intros [b H]; exists b; congruence.
      * split; [discriminate|]. intros [b H]. congruence.
Qed.

(** Dropping the bytes of a match and resuming is the same as resuming on
    the rest. *)
Lemma replaceFrom_skip old new k (s : Snip.GoString) :
  Snip.replaceFrom old new k s = Snip.replaceFrom old new 0 (drop k s).
Proof.
  revert k. induction s as [|c s IH]; intros k.
  - destruct k; reflexivity.
  - destruct k as [|k]; [reflexivity|]. simpl. apply IH.
Qed.

Lemma Replace_match (old new s : Snip.GoString) :
  old ≠ [] → Snip.hasPrefix old s = true →
  Snip.Replace s old new = new ++ Snip.Replace (drop (length old) s) old new.
Proof.
  intros Hold Hp. unfold Snip.Replace. destruct s as [|c s].
  - destruct old; [contradiction|discriminate Hp].
  - cbn [Snip.replaceFrom]. rewrite Hp, replaceFrom_skip.
    destruct old as [|o old]; [contradiction|]. simpl. rewrite Nat.sub_0_r. reflexivity.
Qed.

Lemma Replace_step (old new : Snip.GoString) c s :
  Snip.hasPrefix old (c :: s) = false →
  Snip.Replace (c :: s) old new = c :: Snip.Replace s old new.
Proof. intros Hp. unfold Snip.Replace. cbn [Snip.replaceFrom]. rewrite Hp. reflexivity. Qed.

Lemma Replace_absent (old new s : Snip.GoString) :
  ¬ Snip.occurs old s → Snip.Replace s old new = s.
Proof.
  induction s as [|c s IH]; intros Hno; [reflexivity|].
  rewrite Replace_step.
  - f_equal. apply IH. intros (a & b & ->). apply Hno. exists (c :: a), b. reflexivity.
  - destruct (Snip.hasPrefix old (c :: s)) eqn:E; [|reflexivity].
    apply hasPrefix_spec in E as [b E]. exfalso. apply Hno. exists [], b. exact E.
Qed.

(** A prefix made of bytes foreign to [new] was copied from the source. *)
Lemma Replace_prefix_back (old new p s : Snip.GoString) :
  new ≠ [] → old ≠ [] →
  Forall (λ x, x ∉ new) p →
  Snip.hasPrefix p (Snip.Replace s old new) = true →
  Snip.hasPrefix p s = true.
Proof.
  intros Hnew Hold. revert p. induction s as [|c s IH]; intros p Hp H.
  - exact H.
  - destruct p as [|x p]; [reflexivity|].
    apply Forall_cons in Hp as [Hx Hp].
    destruct (Snip.hasPrefix old (c :: s)) eqn:E.
    + rewrite (Replace_match old new (c :: s) Hold E) in H.
      destruct new as [|n new]; [contradiction|]. simpl in H.
      destruct (decide (x = n)) as [->|]; [|discriminate H].
      exfalso. apply Hx. left.
    + rewrite (Replace_step old new c s E) in H. simpl in H. simpl.
      destruct (decide (x = c)); [|discriminate H]. apply IH; assumption.
Qed.

Lemma Replace_no_prefix (old new s : Snip.GoString) :
  new ≠ [] → old ≠ [] →
  Forall (λ x, x ∉ new) old →
  Snip.hasPrefix old (Snip.Replace s old new) = false.
Proof.
  intros Hnew Hold Hdis.
  destruct (Snip.hasPrefix old (Snip.Replace s old new)) eqn:E; [|reflexivity].
  pose proof (Replace_prefix_back old new old s Hnew Hold Hdis E) as Hs.
  rewrite (Replace_match old new s Hold Hs) in E.
  destruct old as [|o old]; [contradiction|]. destruct new as [|n new]; [contradiction|].
  apply Forall_cons in Hdis as [Ho _]. simpl in E.
  destruct (decide (o = n)) as [->|]; [|discriminate E]. exfalso. apply Ho. left.
Qed.

Lemma Replace_clean (old new : Snip.GoString) :
  new ≠ [] → old ≠ [] →
  Forall (λ x, x ∉ new) old →
  ∀ n (s : Snip.GoString), length s = n →
  ∀ i, Snip.hasPrefix old (drop i (Snip.Replace s old new)) = false.
Proof.
  intros Hnew Hold Hdis n. induction n as [n IH] using lt_wf_ind. intros s Hlen i.
  destruct s as [|c s].
  - unfold Snip.Replace. simpl. rewrite drop_nil.
    destruct old; [contradiction|reflexivity].
  - destruct (Snip.hasPrefix old (c :: s)) eqn:E.
    + rewrite (Replace_match old new (c :: s) Hold E).
      destruct (decide (i < length new)%nat) as [Hi|Hi].
      * rewrite drop_app_le by lia.
        destruct (drop i new) as [|x rest] eqn:Hd.
        { apply (f_equal length) in Hd. rewrite length_drop in Hd. simpl in Hd. lia. }
        assert (Hx : x ∈ new).
        { apply (subseteq_drop i new). rewrite Hd. left. }
        destruct old as [|o old]; [contradiction|].
        apply Forall_cons in Hdis as [Ho _]. simpl.
        destruct (decide (o = x)) as [->|]; [contradiction|reflexivity].
      * rewrite drop_app_ge by lia.
        apply (IH (length (drop (length old) (c :: s)))); [|reflexivity].
        rewrite length_drop. destruct old; [contradiction|]. simpl in *. lia.
    + rewrite (Replace_step old new c s E). destruct i as [|i].
      * simpl. rewrite <- (Replace_step old new c s E).
        apply Replace_no_prefix; assumption.
      * simpl. apply (IH (length s)); [simpl in Hlen; lia|reflexivity].
Qed.

(** X16.  [Snip] hands back the error it was given, text untouched, when the
    error is nil, when the token is empty, and when the token does not occur in
    the text. *)
Theorem Snip_unchanged err token :
  err = None ∨ token = [] ∨ (∀ text, err = Some text → ¬ Snip.occurs token text) →
  Snip.Snip err token = err.
Proof.
  intros H. unfold Snip.Snip. destruct err as [text|]; [|reflexivity].
  destruct H as [H|[->|H]]; [discriminate H|reflexivity|].
  destruct (bool_decide _); [reflexivity|].
  rewrite (Replace_absent token Snip.snipped text (H text eq_refl)). reflexivity.
Qed.

Lemma Snip_unchanged_witness :
  Snip.Snip (Some (String.list_ascii_of_string "dial tcp: refused"))
    (String.list_ascii_of_string "secret")
  = Some (String.list_ascii_of_string "dial tcp: refused").
Proof.
  apply Snip_unchanged. right. right. intros text Htext (a & b & Hocc).
  assert (Hp : ∀ i, Snip.hasPrefix (String.list_ascii_of_string "secret")
                      (drop i text) = false).
  { assert (Ht : text = String.list_ascii_of_string "dial tcp: refused") by congruence.
    rewrite Ht. intros i. do 18 (destruct i as [|i]; [reflexivity|]). reflexivity. }
  specialize (Hp (length a)). rewrite Hocc, drop_app_length in Hp.
  assert (Ht : Snip.hasPrefix (String.list_ascii_of_string "secret")
                 (String.list_ascii_of_string "secret" ++ b) = true).
  { apply hasPrefix_spec. eauto. }
  rewrite Ht in Hp. discriminate Hp.
Defined.

(** X17.  When the token is not empty and shares no byte with "[snip]", the text
    of the error that [Snip] returns contains the token nowhere. *)
Theorem Snip_redacts text token :
  token ≠ [] →
  Forall (λ x, x ∉ Snip.snipped) token →
  ∃ clean, Snip.Snip (Some text) token = Some clean ∧ ¬ Snip.occurs token clean.
Proof.
  intros Htok Hdis. unfold Snip.Snip.
  rewrite bool_decide_eq_false_2 by (destruct token; [contradiction|discriminate]).
  eexists. split; [reflexivity|]. intros (a & b & Hocc).
  pose proof (Replace_clean token Snip.snipped ltac:(discriminate) Htok Hdis
                (length text) text eq_refl (length a)) as Hp.
  rewrite Hocc, drop_app_length in Hp.
  assert (Ht : Snip.hasPrefix token (token ++ b) = true) by (apply hasPrefix_spec; eauto).
  rewrite Ht in Hp. discriminate Hp.
Qed.

Lemma Snip_redacts_witness :
  ∃ clean,
    Snip.Snip (Some (String.list_ascii_of_string "user:hexkey42@host hexkey42"))
      (String.list_ascii_of_string "hexkey42")
    = Some clean ∧
    ¬ Snip.occurs (String.list_ascii_of_string "hexkey42") clean.
Proof.
  apply Snip_redacts; [discriminate|].
  apply (bool_decide_unpack _). vm_compute. exact I.
Defined.

(** X18.  When the token is not empty and shares no byte with "[snip]",
    snipping twice is snipping once: [Snip] applied to its own result with
    the same token gives that result back. *)
Theorem Snip_idempotent err token :
  token ≠ [] →
  Forall (λ x, x ∉ Snip.snipped) token →
  Snip.Snip (Snip.Snip err token) token = Snip.Snip err token.
Proof.
  intros Htok Hdis. destruct err as [text|]; [|reflexivity].
  unfold Snip.Snip.
  rewrite bool_decide_eq_false_2 by (destruct token; [contradiction|discriminate]).
  f_equal. apply Replace_absent. intros (a & b & Hocc).
  pose proof (Replace_clean token Snip.snipped ltac:(discriminate) Htok Hdis
                (length text) text eq_refl (length a)) as Hp.
  rewrite Hocc, drop_app_length in Hp.
  assert (Ht : Snip.hasPrefix token (token ++ b) = true) by (apply hasPrefix_spec; eauto).
  rewrite Ht in Hp. discriminate Hp.
Qed.

Lemma Snip_idempotent_witness :
  Snip.Snip (Snip.Snip (Some (String.list_ascii_of_string "aXXa")) (String.list_ascii_of_string "X"))
    (String.list_ascii_of_string "X")
  = Snip.Snip (Some (String.list_ascii_of_string "aXXa")) (String.list_ascii_of_string "X").
Proof.
  apply Snip_idempotent; [discriminate|].
  apply (bool_decide_unpack _). vm_compute. exact I.
Defined.

Example Snip_replaces_every_match :
  Snip.Snip (Some (String.list_ascii_of_string "user:hexkey42@host hexkey42"))
    (String.list_ascii_of_string "hexkey42")
  = Some (String.list_ascii_of_string "user:[snip]@host [snip]").
Proof. reflexivity. Qed.

(** A token made of bytes of "[snip]" can come back after the
    replacement. *)
Example Snip_token_can_reappear :
  Snip.Snip (Some (String.list_ascii_of_string "][][")) (String.list_ascii_of_string "][")
  = Some (String.list_ascii_of_string "[snip][snip]").
Proof. reflexivity. Qed.

(** * Properties of the TLS configuration of maniphttp *)

Section ClientFacts.

Variables (Byte Block Certificate Authority Names Failure : Type).
Variable ReadFile : string → Failure + list Byte.
Variable ToPEM : list Byte → string → Failure + list Block.
Variable EncodeToMemory : Block → list Byte.
Variable X509KeyPair : list Byte → list Byte → Failure + Certificate.
Variable certsFromPEM : list Byte → list Authority.
Variable buildNames : list Certificate → Names.

Let make := ManipHTTP.makeHTTPClient Byte Block Certificate Authority Names Failure
              ReadFile ToPEM EncodeToMemory X509KeyPair certsFromPEM buildNames.

Lemma pemData_concat (blocks : list Block) (acc : list Byte) :
  foldl (λ acc b, acc ++ EncodeToMemory b) acc blocks
  = acc ++ concat (EncodeToMemory <$> blocks).
Proof.
  revert acc. induction blocks as [|b blocks IH]; intros acc; simpl.
  - rewrite app_nil_r. reflexivity.
  - rewrite IH, <- app_assoc. reflexivity.
Qed.

(** X19.  What [makeHTTPClient] returns says what happened.  A client always
    carries the configuration's SkipInsecure flag.  Without a PKCS path no file
    is read, whatever the CA path and the password, and the client has neither
    certificate nor root pool.  With one, a client means that the PKCS file was
    read and converted, that its PEM blocks, concatenated, served both as
    certificate and as key of the one key pair, and that the CA file was read
    after that; the pool holds whatever certificates the CA file yields, none
    included.  An error is the error of the first step that failed, and the CA
    file is read only when nothing failed before. *)
Theorem makeHTTPClient_outcome (t : ManipHTTP.TLSConfiguration) :
  let pkcs := ManipHTTP.PkcsPath t in
  let ca := ManipHTTP.CAPath t in
  match make t with
  | (inr cfg, reads) =>
      ManipHTTP.InsecureSkipVerify _ _ _ cfg = ManipHTTP.SkipInsecure t ∧
      if decide (pkcs = "")
      then reads = [] ∧ ManipHTTP.Certificates _ _ _ cfg = [] ∧
           ManipHTTP.RootCAs _ _ _ cfg = None
      else reads = [pkcs; ca] ∧
           ∃ data blocks cert authorities,
             ReadFile pkcs = inr data ∧
             ToPEM data (ManipHTTP.Password t) = inr blocks ∧
             X509KeyPair (concat (EncodeToMemory <$> blocks))
               (concat (EncodeToMemory <$> blocks)) = inr cert ∧
             ReadFile ca = inr authorities ∧
             ManipHTTP.Certificates _ _ _ cfg = [cert] ∧
             ManipHTTP.RootCAs _ _ _ cfg = Some (certsFromPEM authorities)
  | (inl err, reads) =>
      pkcs ≠ "" ∧
      ((reads = [pkcs] ∧
        (ReadFile pkcs = inl err ∨
         ∃ data, ReadFile pkcs = inr data ∧
           (ToPEM data (ManipHTTP.Password t) = inl err ∨
            ∃ blocks, ToPEM data (ManipHTTP.Password t) = inr blocks ∧
              X509KeyPair (concat (EncodeToMemory <$> blocks))
                (concat (EncodeToMemory <$> blocks)) = inl err))) ∨
       (reads = [pkcs; ca] ∧ ReadFile ca = inl err))
  end.
Proof.
  cbv zeta. unfold make, ManipHTTP.makeHTTPClient.
  destruct (decide (ManipHTTP.PkcsPath t = "")) as [E|E].
  - simpl. auto.
  - destruct (ReadFile (ManipHTTP.PkcsPath t)) as [err|data] eqn:Hread.
    { split; [exact E|]. left. auto. }
    destruct (ToPEM data (ManipHTTP.Password t)) as [err|blocks] eqn:Hpem.
    { split; [exact E|]. left. split; [reflexivity|]. right. eauto. }
    cbv zeta. rewrite pemData_concat. cbn [app].
    destruct (X509KeyPair _ _) as [err|cert] eqn:Hpair.
    { split; [exact E|]. left. split; [reflexivity|]. right. eauto 6. }
    destruct (ReadFile (ManipHTTP.CAPath t)) as [err|authorities] eqn:Hca.
    { split; [exact E|]. right. auto. }
    simpl. split; [reflexivity|]. split; [reflexivity|].
    exists data, blocks, cert, authorities. auto 7.
Qed.

(** The accessors are for the HTTP manipulator only: on any other
    manipulator each of them panics.  On an HTTP manipulator
    [SetGlobalHeaders] changes nothing the other accessors read, and
    [ExtractTLSConfig] hands out a copy that agrees with the manipulator's
    configuration on root pool, certificates and InsecureSkipVerify and whose
    name index is empty, whatever the manipulator's is. *)
Lemma accessors_of_http_manipulator
    (m : ManipHTTP.httpManipulator Certificate Authority Names)
    (headers : list (string * list string)) :
  let other := ManipHTTP.OtherManipulator Certificate Authority Names in
  let http := ManipHTTP.HTTPManipulator _ _ _ m in
  (ManipHTTP.ExtractCredentials _ _ _ other = Panic ∧
   ManipHTTP.ExtractEndpoint _ _ _ other = Panic ∧
   ManipHTTP.ExtractNamespace _ _ _ other = Panic ∧
   ManipHTTP.ExtractTLSConfig _ _ _ other = Panic ∧
   ManipHTTP.SetGlobalHeaders _ _ _ other headers = Panic) ∧
  (∃ http',
     ManipHTTP.SetGlobalHeaders _ _ _ http headers = Done http' ∧
     ManipHTTP.ExtractCredentials _ _ _ http' = ManipHTTP.ExtractCredentials _ _ _ http ∧
     ManipHTTP.ExtractEndpoint _ _ _ http' = ManipHTTP.ExtractEndpoint _ _ _ http ∧
     ManipHTTP.ExtractNamespace _ _ _ http' = ManipHTTP.ExtractNamespace _ _ _ http ∧
     ManipHTTP.ExtractTLSConfig _ _ _ http' = ManipHTTP.ExtractTLSConfig _ _ _ http) ∧
  (∃ copy,
     ManipHTTP.ExtractTLSConfig _ _ _ http = Done copy ∧
     ManipHTTP.RootCAs _ _ _ copy = ManipHTTP.RootCAs _ _ _ (ManipHTTP.tlsConfigOf _ _ _ m) ∧
     ManipHTTP.Certificates _ _ _ copy
     = ManipHTTP.Certificates _ _ _ (ManipHTTP.tlsConfigOf _ _ _ m) ∧
     ManipHTTP.InsecureSkipVerify _ _ _ copy
     = ManipHTTP.InsecureSkipVerify _ _ _ (ManipHTTP.tlsConfigOf _ _ _ m) ∧
     ManipHTTP.NameToCertificate _ _ _ copy = None).
Proof.
  cbv zeta. split; [repeat split|]. split.
  - eexists. repeat split.
  - eexists. repeat split.
Qed.

End ClientFacts.

(** * Further properties of the write path *)

(** ** Create under an explicit transaction *)

(** X20.  A [Create] under an explicit transaction id whose finalizer, if any,
    fails on no object and leaves identifiers alone returns nil without
    committing: the batch holds what it held followed by one insert per object,
    in order, and each object carries an identifier generated during the call.
    *)
Theorem Create_explicit mgo ctx (first : loc) (rest : list loc) st o0 :
  heap st !! first = Some o0 →
  (∀ l, l ∈ first :: rest → is_Some (heap st !! l)) →
  TransactionID ctx ≠ "" →
  keepsIdentifier (CreateFinalizer ctx) →
  let tid := TransactionID ctx in
  let out := Create mgo (Some ctx) (first :: rest) st in
  Forall (λ c, c.2 = None) (finalizations (since st out.2)) →
  out.1 = Done None ∧
  staged tid (identity o0) out.2
  = staged tid (identity o0) st ++ (OpInsert <$> first :: rest) ∧
  (∀ l, l ∈ first :: rest →
        ∃ i o, (first :: rest) !! i = Some l ∧ heap out.2 !! l = Some o ∧
               identifier o = pretty (oids st + i)%nat).
Proof.
  intros Ho Hvalid Hexp Hkeep tid out Hok.
  assert (Hk : keyOf ctx st = tid).
  { unfold keyOf. rewrite decide_False by exact Hexp. reflexivity. }
  destruct (Create_run mgo (Some ctx) first rest st o0 Ho Hvalid)
    as (r & calls & h' & n & m & st2 & Hst2 & Hrun & Hres & _ & _ & _ & Hin & Hcalls).
  cbn [default from_option] in Hst2, Hrun, Hres, Hin. unfold Datatypes.id in Hst2, Hrun, Hin.
  rewrite bool_decide_eq_false_2 in Hrun by exact Hexp.
  subst out. rewrite Hcalls in Hok. specialize (Hin Hkeep).
  destruct r as [err|].
  { destruct Hres as (oks & arg & -> & _).
    apply Forall_app in Hok as [_ Hok]. rewrite Forall_singleton in Hok. simpl in Hok.
    discriminate Hok. }
  destruct Hres as (-> & -> & _). rewrite firstn_all in Hst2, Hin.
  rewrite Hrun. cbn [fst snd]. split; [reflexivity|]. split.
  - rewrite Hst2, <- Hk. apply staged_after.
  - intros l Hl. destruct (Hin l Hl) as (i & o & _ & Hi & Hh & Hid).
    exists i, o. rewrite Hst2. auto.
Qed.

Lemma Create_explicit_witness :
  let out := Create (Sample.steady 10) (Some (Demo.under "tx")) [0%nat; 1%nat] Sample.start in
  out.1 = Done None ∧
  staged "tx" Sample.things out.2 = [OpInsert 0%nat; OpInsert 1%nat].
Proof.
  destruct (Create_explicit (Sample.steady 10) (Demo.under "tx") 0%nat [1%nat] Sample.start
              (Sample.thing "a" 0) eq_refl ltac:(valid_locs) ltac:(discriminate)
              ltac:(intros f o H; discriminate H) ltac:(vm_compute; constructor))
    as (H1 & H2 & _).
  split; [exact H1|exact H2].
Defined.

(** ** An explicit transaction committed after one call *)

Lemma Commit_fresh_single mgo key k ops T w st :
  transactions st !! key = None →
  transactions w = <[key := T]> (transactions st) →
  events w = events st ++ [SessionCopy (sids st)] →
  bulks T = [(k, {| bulkCollection := k; bulkOps := ops |})] →
  session T = sids st →
  retiresAtOnce (Commit mgo key w) k (length ops) st.
Proof.
  intros Hnew Hreg Hev Hb Hs.
  assert (Ht : transactions w !! key = Some T).
  { rewrite Hreg. apply lookup_insert_eq. }
  rewrite (Commit_single mgo key k {| bulkCollection := k; bulkOps := ops |} T w Ht Hb).
  cbv zeta. cbn [bulkCollection bulkOps fst snd transactions]. split.
  - rewrite Hreg. apply delete_insert_id, Hnew.
  - eexists _, _. split; [|split; [|reflexivity]].
    2:{ apply since_app. cbn [events]. rewrite Hev, Hs, <- app_assoc. reflexivity. }
    rewrite length_fmap. reflexivity.
Qed.

Lemma stagedWorld_fresh context k h ops st :
  transactions st !! keyOf context st = None →
  let w := stagedWorld context k h ops st in
  let T := {| id := keyOf context st;
              bulks := [(k, {| bulkCollection := k; bulkOps := ops |})];
              session := sids st |} in
  transactions w = <[keyOf context st := T]> (transactions st) ∧
  events w = events st ++ [SessionCopy (sids st)].
Proof.
  intros Hnew w T. subst w T. unfold stagedWorld, entered, enteredTx.
  cbn [transactions events]. rewrite Hnew.
  rewrite (bool_decide_eq_false_2 (is_Some (@None transaction)))
    by (intros [? ?]; discriminate).
  split; [|reflexivity]. f_equal.
  change (bulkForIdentity k {| id := keyOf context st; bulks := []; session := sids st |})
    with {| id := keyOf context st;
            bulks := [(k, {| bulkCollection := k; bulkOps := [] |})];
            session := sids st |}.
  apply stageAll_single.
Qed.

(** X21.  An [Update], a [Delete] or a [DeleteMany] under an explicit id that
    was not registered, followed by [Commit] of that id, does to the registry
    and to the backend exactly what the same call does at once under an implicit
    transaction: one session copied, one batch run with one operation per
    object, the session closed, the registry as before, and [Commit]'s report of
    the run as result. *)
Theorem explicit_write_then_Commit mgo CF ctx (first : loc) (rest : list loc) kind st o0 :
  heap st !! first = Some o0 →
  (∀ l, l ∈ first :: rest → is_Some (heap st !! l)) →
  TransactionID ctx ≠ "" →
  transactions st !! TransactionID ctx = None →
  let tid := TransactionID ctx in
  let n := length (first :: rest) in
  retiresAtOnce (Commit mgo tid (Update mgo (Some ctx) (first :: rest) st).2)
    (identity o0) n st ∧
  retiresAtOnce (Commit mgo tid (Delete mgo (Some ctx) (first :: rest) st).2)
    (identity o0) n st ∧
  retiresAtOnce (Commit mgo tid (DeleteMany mgo CF (Some ctx) kind st).2) kind 1 st.
Proof.
  intros Ho Hvalid Hexp Hnew tid n. subst n.
  assert (Hk : keyOf ctx st = tid).
  { unfold keyOf. rewrite decide_False by exact Hexp. reflexivity. }
  assert (Hworld : ∀ k h ops,
            retiresAtOnce (Commit mgo tid (stagedWorld ctx k h ops st)) k (length ops) st).
  { intros k h ops.
    destruct (stagedWorld_fresh ctx k h ops st) as [Hreg Hev].
    { rewrite Hk. exact Hnew. }
    rewrite Hk in Hreg.
    eapply (Commit_fresh_single mgo tid k ops); [exact Hnew|exact Hreg|exact Hev| |];
      reflexivity. }
  split; [|split].
  - pose proof (Update_run mgo (Some ctx) first rest st o0 Ho Hvalid) as Hrun.
    cbn [default from_option] in Hrun. unfold Datatypes.id in Hrun.
    rewrite bool_decide_eq_false_2 in Hrun by exact Hexp. rewrite Hrun. cbn [snd].
    rewrite (Forall2_length _ _ _ (updates_each (heap st) (first :: rest) Hvalid)).
    apply Hworld.
  - destruct (Delete_run mgo (Some ctx) first rest st o0 Ho Hvalid) as (h' & Hrun & _).
    cbn [default from_option] in Hrun. unfold Datatypes.id in Hrun.
    rewrite bool_decide_eq_false_2 in Hrun by exact Hexp. rewrite Hrun. cbn [snd].
    rewrite (Forall2_length _ _ _ (removals_each (heap st) (first :: rest) Hvalid)).
    apply Hworld.
  - pose proof (DeleteMany_run mgo CF (Some ctx) kind st) as Hrun.
    cbn [default from_option] in Hrun. unfold Datatypes.id in Hrun.
    rewrite bool_decide_eq_false_2 in Hrun by exact Hexp. rewrite Hrun. cbn [snd].
    apply (Hworld kind (heap st) [OpRemoveAll (CF (ctxFilter ctx))]).
Qed.

Lemma explicit_write_then_Commit_witness :
  retiresAtOnce
    (Commit Sample.picky "tx"
       (Update Sample.picky (Some (Demo.under "tx")) [0%nat; 1%nat] Sample.start).2)
    Sample.things 2 Sample.start.
Proof.
  exact (proj1 (explicit_write_then_Commit Sample.picky Sample.noFilter (Demo.under "tx")
                  0%nat [1%nat] Sample.gadgets Sample.start (Sample.thing "a" 0)
                  eq_refl ltac:(valid_locs) ltac:(discriminate) eq_refl)).
Defined.

(** ** Create without objects *)

(** X22.  A [Create] without objects has resolved its transaction before it
    panics: when the id it works under was not registered, the panic leaves a
    new, empty transaction in the registry and its session copied and not
    closed. *)
Theorem Create_empty_leaks mgo ctx st :
  let context := default NewContext ctx in
  let key := keyOf context st in
  let out := Create mgo ctx [] st in
  transactions st !! key = None →
  out.1 = Panic ∧
  transactions out.2 !! key = Some {| id := key; bulks := []; session := sids st |} ∧
  since st out.2 = [SessionCopy (sids st)].
Proof.
  intros context key out Hnew. subst out. unfold Create. fold context.
  unfold bind. rewrite retrieveTransaction_spec. fold key. rewrite Hnew.
  cbv zeta. cbn [fst snd transactions]. split; [reflexivity|].
  split; [apply lookup_insert_eq|]. apply since_app. reflexivity.
Qed.

Lemma Create_empty_leaks_witness :
  let out := Create (Sample.steady 10) None [] Sample.start in
  out.1 = Panic ∧
  transactions out.2 !! "0" = Some {| id := "0"; bulks := []; session := 0%nat |} ∧
  since Sample.start out.2 = [SessionCopy 0%nat].
Proof.
  apply (Create_empty_leaks (Sample.steady 10) None Sample.start). reflexivity.
Defined.
